(** * HMMER MPI support: packing, unpacking and transfer of P7_TOPHITS

    A shallow embedding of [src/misc/mpisupport.c], section 4
    ("Communicating P7_TOPHITS"), and the properties of its wire format
    and of its send/receive choreography.

    Conventions of the embedding.
    - A C [int] is a [Z]; where the source adds sizes ([n += sz]) the 32-bit
      wrap-around is written out with [int_add].  [float] and [double] fields
      are carried as their 32/64-bit patterns: MPI_Pack copies them bit for
      bit and no arithmetic is done on them in this file.
    - Bytes are [Z] in [0, 256); a buffer is a [list Z].
    - A [char *] that points into the display's string pool is the offset
      from the pool start ([None] for NULL).
    - Functions that return an Easel status and work through [int *pos] or
      [char **buf, int *nalloc] are computations in a state-and-error monad:
      [inl e] is the [return status] of a failing path. *)

From Stdlib Require Import ZArith List Bool Lia.
Import ListNotations.
Local Open Scope Z_scope.

Set Implicit Arguments.

(** ** Status codes used by the source (easel.h) *)

Inductive status : Type := eslOK | eslFAIL | eslEMEM | eslESYS.

(** ** State-and-error monad *)

Definition Comp (S E A : Type) : Type := S -> (E + A) * S.

Definition ret {S E A} (a : A) : Comp S E A := fun s => (inr a, s).

Definition throw {S E A} (e : E) : Comp S E A := fun s => (inl e, s).

Definition bind {S E A B} (m : Comp S E A) (f : A -> Comp S E B) : Comp S E B :=
  fun s => match m s with
           | (inr a, s') => f a s'
           | (inl e, s') => (inl e, s')
           end.

Definition get {S E} : Comp S E S := fun s => (inr s, s).

Definition modify {S E} (f : S -> S) : Comp S E unit := fun s => (inr tt, f s).

Notation "x <- m ;; f" := (bind m (fun x => f))
  (at level 61, m at next level, right associativity).
Notation "m ;;; f" := (bind m (fun _ => f))
  (at level 61, right associativity).

(** ** Machine integers *)

Definition INT_MAX : Z := 2147483647.

(** Two's complement reading of a [bits]-wide pattern. *)
Definition sint (bits : Z) (u : Z) : Z :=
  if u mod 2 ^ bits <? 2 ^ (bits - 1) then u mod 2 ^ bits else u mod 2 ^ bits - 2 ^ bits.

(** [n += sz] on C ints. *)
Definition int_add (a b : Z) : Z := sint 32 (a + b).

Definition zlen (A : Type) (l : list A) : Z := Z.of_nat (length l).

(** ** The MPI pack encoding

    mpi.h is outside the source tree.  The encoding is the native one the
    specification gives for the wire format: int32 for MPI_INT, int64 for
    MPI_LONG and MPI_LONG_LONG_INT, one byte per MPI_CHAR, floats and doubles
    as their 4 and 8 bytes; little-endian. *)

Inductive MPI_Datatype : Type :=
  MPI_CHAR | MPI_INT | MPI_LONG | MPI_LONG_LONG_INT | MPI_FLOAT | MPI_DOUBLE.

Definition MPI_Comm : Type := unit.

Definition type_size (t : MPI_Datatype) : nat :=
  match t with
  | MPI_CHAR => 1
  | MPI_INT | MPI_FLOAT => 4
  | MPI_LONG | MPI_LONG_LONG_INT | MPI_DOUBLE => 8
  end%nat.

Fixpoint le_bytes (k : nat) (x : Z) : list Z :=
  match k with
  | O => []
  | S k' => x mod 256 :: le_bytes k' (x / 256)
  end.

Fixpoint le_val (bs : list Z) : Z :=
  match bs with
  | [] => 0
  | b :: r => b + 256 * le_val r
  end.

Definition encode (t : MPI_Datatype) (vs : list Z) : list Z :=
  flat_map (le_bytes (type_size t)) vs.

Fixpoint decode (t : MPI_Datatype) (count : nat) (bs : list Z) : list Z :=
  match count with
  | O => []
  | S c => le_val (firstn (type_size t) bs) :: decode t c (skipn (type_size t) bs)
  end.

(** [MPI_Pack_size]: [None] stands for a non-zero return code. *)
Definition MPI_Pack_size (incount : Z) (t : MPI_Datatype) (comm : MPI_Comm) : option Z :=
  let sz := incount * Z.of_nat (type_size t) in
  if (0 <=? incount) && (sz <=? INT_MAX) then Some sz else None.

(** Overwrite [data] into [buf] from byte [pos] on. *)
Definition write (buf : list Z) (pos : Z) (data : list Z) : list Z :=
  firstn (Z.to_nat pos) buf ++ data ++ skipn (Z.to_nat pos + length data) buf.

(** The output buffer of a pack call and its [*position]. *)
Record packbuf : Type := { pk_bytes : list Z; pk_pos : Z }.

(** [if (MPI_Pack(inbuf, incount, t, buf, outsize, pos, comm) != 0)
       ESL_XEXCEPTION(eslESYS, "pack failed")].
    The call fails when the data does not fit below [outsize]; the model
    also refuses an [outsize] beyond the real allocation and a count beyond
    the source array, where C has no defined behaviour. *)
Definition MPI_Pack (inbuf : list Z) (incount : Z) (t : MPI_Datatype)
    (outsize : Z) (comm : MPI_Comm) : Comp packbuf status unit :=
  fun b =>
    let data := encode t (firstn (Z.to_nat incount) inbuf) in
    if (0 <=? incount) && (incount <=? zlen inbuf) && (0 <=? pk_pos b)
       && (pk_pos b + zlen data <=? outsize) && (outsize <=? zlen (pk_bytes b))
    then (inr tt, {| pk_bytes := write (pk_bytes b) (pk_pos b) data;
                     pk_pos := pk_pos b + zlen data |})
    else (inl eslESYS, b).

(** The state of an unpack call: [*pos] and the allocator's future answers
    ([false]: the next allocation fails; the empty list: none fails). *)
Record unpackst : Type := { up_pos : Z; up_heap : list bool }.

(** [if (MPI_Unpack(buf, n, pos, &out, outcount, t, comm) != 0)
       ESL_XEXCEPTION(eslESYS, "mpi unpack failed")].
    The result is the raw pattern of each element; the caller reads it at
    the C type of the variable it unpacks into. *)
Definition MPI_Unpack (inbuf : list Z) (insize : Z) (outcount : Z) (t : MPI_Datatype)
    (comm : MPI_Comm) : Comp unpackst status (list Z) :=
  fun s =>
    let k := outcount * Z.of_nat (type_size t) in
    if (0 <=? outcount) && (0 <=? up_pos s) && (up_pos s + k <=? insize)
       && (insize <=? zlen inbuf)
    then (inr (decode t (Z.to_nat outcount) (skipn (Z.to_nat (up_pos s)) inbuf)),
          {| up_pos := up_pos s + k; up_heap := up_heap s |})
    else (inl eslESYS, s).

(** Unpacking one element into an [int], a [long], or a variable whose bit
    pattern is kept ([float], [double], [uint64_t], [char]). *)
Definition unpack_raw (inbuf : list Z) (insize : Z) (t : MPI_Datatype) (comm : MPI_Comm)
    : Comp unpackst status Z :=
  v <- MPI_Unpack inbuf insize 1 t comm ;; ret (hd 0 v).

Definition unpack_int (inbuf : list Z) (insize : Z) (comm : MPI_Comm)
    : Comp unpackst status Z :=
  v <- unpack_raw inbuf insize MPI_INT comm ;; ret (sint 32 v).

Definition unpack_long (inbuf : list Z) (insize : Z) (comm : MPI_Comm)
    : Comp unpackst status Z :=
  v <- unpack_raw inbuf insize MPI_LONG comm ;; ret (sint 64 v).

(** ** Allocation *)

(** Modelled from the spec: malloc/realloc and Easel's ESL_ALLOC and
    ESL_RALLOC macros are not in the source tree.  An allocation either
    yields an owned block of the requested length (also of length zero) or
    signals AllocationFailure ([eslEMEM]) when memory cannot be obtained;
    which of the two is the environment's choice, read from the oracle.  A
    negative [int] size is a request beyond the address space once converted
    to [size_t], and cannot be obtained. *)
Definition heap_alloc (size : Z) (h : list bool) : bool * list bool :=
  if size <? 0 then (false, h)
  else match h with
       | [] => (true, [])
       | b :: h' => (b, h')
       end.

Definition ESL_ALLOC (size : Z) : Comp unpackst status unit :=
  fun s =>
    let '(ok, h) := heap_alloc size (up_heap s) in
    (if ok then inr tt else inl eslEMEM, {| up_pos := up_pos s; up_heap := h |}).

(** ** Optional strings (esl_mpi.h) *)

(** Modelled from the spec: esl_mpi_PackOptSize is not in the source tree.
    "Presence flag + length prefix + character bytes when present, presence
    flag only when absent." *)
Definition esl_mpi_PackOptSize (inbuf : option (list Z)) (comm : MPI_Comm)
    : Comp Z status unit :=
  fun n =>
    match inbuf with
    | None =>
        match MPI_Pack_size 1 MPI_INT comm with
        | Some sz => (inr tt, int_add n sz)
        | None => (inl eslESYS, n)
        end
    | Some s =>
        match MPI_Pack_size 2 MPI_INT comm, MPI_Pack_size (zlen s) MPI_CHAR comm with
        | Some sz, Some sz' => (inr tt, int_add n (int_add sz sz'))
        | _, _ => (inl eslESYS, n)
        end
    end.

(** Modelled from the spec: esl_mpi_PackOpt is not in the source tree.
    "Optional-string encoding always writes a presence indicator first, then
    length and bytes only if present": [(presence:int32, [length:int32,
    bytes:char[length]])]. *)
Definition esl_mpi_PackOpt (inbuf : option (list Z)) (outsize : Z) (comm : MPI_Comm)
    : Comp packbuf status unit :=
  match inbuf with
  | None => MPI_Pack [0] 1 MPI_INT outsize comm
  | Some s =>
      MPI_Pack [1] 1 MPI_INT outsize comm ;;;
      MPI_Pack [zlen s] 1 MPI_INT outsize comm ;;;
      MPI_Pack s (zlen s) MPI_CHAR outsize comm
  end.

(** Modelled from the spec: esl_mpi_UnpackOpt is not in the source tree.
    "Decode must tolerate either branch without assuming presence"; a present
    string is copied into a freshly allocated owned block. *)
Definition esl_mpi_UnpackOpt (inbuf : list Z) (insize : Z) (comm : MPI_Comm)
    : Comp unpackst status (option (list Z)) :=
  present <- unpack_int inbuf insize comm ;;
  if present =? 0 then ret None
  else
    len <- unpack_int inbuf insize comm ;;
    ESL_ALLOC len ;;;
    s <- MPI_Unpack inbuf insize len MPI_CHAR comm ;;
    ret (Some s).

(** ** Records

    The headers (base/p7_tophits.h, base/p7_domain.h, p7_alidisplay.h) are
    not in the source tree; each record holds the fields the source reads
    and writes, named as the source names them behind the struct's tag. *)

(** P7_ALIDISPLAY: the thirteen [char *] members point into [mem]. *)
Record P7_ALIDISPLAY : Type := {
  ad_rfline : option Z;  ad_mmline : option Z;  ad_csline : option Z;
  ad_model : option Z;   ad_mline : option Z;   ad_aseq : option Z;
  ad_ppline : option Z;
  ad_N : Z;
  ad_hmmname : option Z; ad_hmmacc : option Z;  ad_hmmdesc : option Z;
  ad_hmmfrom : Z;        ad_hmmto : Z;          ad_M : Z;
  ad_sqname : option Z;  ad_sqacc : option Z;   ad_sqdesc : option Z;
  ad_sqfrom : Z;         ad_sqto : Z;           ad_L : Z;
  ad_memsize : Z;
  ad_mem : option (list Z)
}.

Record P7_DOMAIN : Type := {
  dcl_ienv : Z; dcl_jenv : Z; dcl_iali : Z; dcl_jali : Z;
  dcl_envsc : Z; dcl_domcorrection : Z; dcl_dombias : Z; dcl_oasc : Z;
  dcl_bitscore : Z;
  dcl_lnP : Z;
  dcl_is_reported : Z; dcl_is_included : Z;
  dcl_ad : P7_ALIDISPLAY
}.

Record P7_HIT : Type := {
  hit_name : option (list Z); hit_acc : option (list Z); hit_desc : option (list Z);
  hit_sortkey : Z;
  hit_score : Z; hit_pre_score : Z; hit_sum_score : Z;
  hit_lnP : Z; hit_pre_lnP : Z; hit_sum_lnP : Z;
  hit_nexpected : Z;
  hit_nregions : Z; hit_nclustered : Z; hit_noverlaps : Z; hit_nenvelopes : Z;
  hit_ndom : Z;
  hit_flags : Z; hit_nreported : Z; hit_nincluded : Z; hit_best_domain : Z;
  hit_dcl : list P7_DOMAIN
}.

Record P7_TOPHITS : Type := {
  th_unsrt : list P7_HIT;
  th_N : Z;
  th_nreported : Z;
  th_nincluded : Z
}.

Definition set_hit_dcl (dcl : list P7_DOMAIN) (h : P7_HIT) : P7_HIT :=
  {| hit_name := hit_name h; hit_acc := hit_acc h; hit_desc := hit_desc h;
     hit_sortkey := hit_sortkey h;
     hit_score := hit_score h; hit_pre_score := hit_pre_score h;
     hit_sum_score := hit_sum_score h;
     hit_lnP := hit_lnP h; hit_pre_lnP := hit_pre_lnP h; hit_sum_lnP := hit_sum_lnP h;
     hit_nexpected := hit_nexpected h;
     hit_nregions := hit_nregions h; hit_nclustered := hit_nclustered h;
     hit_noverlaps := hit_noverlaps h; hit_nenvelopes := hit_nenvelopes h;
     hit_ndom := hit_ndom h;
     hit_flags := hit_flags h; hit_nreported := hit_nreported h;
     hit_nincluded := hit_nincluded h; hit_best_domain := hit_best_domain h;
     hit_dcl := dcl |}.

(** [*pool] seen as an array: NULL has no bytes. *)
Definition pool_bytes (mem : option (list Z)) : list Z :=
  match mem with Some m => m | None => [] end.

(** The thirteen line and metadata references of a display, in wire order. *)
Definition ad_refs (ad : P7_ALIDISPLAY) : list (option Z) :=
  [ ad_rfline ad; ad_mmline ad; ad_csline ad; ad_model ad; ad_mline ad;
    ad_aseq ad; ad_ppline ad; ad_hmmname ad; ad_hmmacc ad; ad_hmmdesc ad;
    ad_sqname ad; ad_sqacc ad; ad_sqdesc ad ].

(** The NUL-terminated line a reference designates in the pool. *)
Fixpoint c_string (bs : list Z) : list Z :=
  match bs with
  | [] => []
  | b :: r => if b =? 0 then [] else b :: c_string r
  end.

Definition line_at (mem : option (list Z)) (off : Z) : list Z :=
  c_string (skipn (Z.to_nat off) (pool_bytes mem)).

(** ** Sizes *)

(** [if (MPI_Pack_size(incount, t, comm, &sz) != 0)
       ESL_XEXCEPTION(eslESYS, "pack size failed"); n += sz;] *)
Definition size_add (incount : Z) (t : MPI_Datatype) (comm : MPI_Comm)
    : Comp Z status unit :=
  fun n =>
    match MPI_Pack_size incount t comm with
    | Some sz => (inr tt, int_add n sz)
    | None => (inl eslESYS, n)
    end.

(** A size function returns its status and [*ret_n]; the ERROR label sets
    [*ret_n = 0]. *)
Definition size_result (body : Comp Z status unit) : status * Z :=
  match body 0 with
  | (inr _, n) => (eslOK, n)
  | (inl e, _) => (e, 0)
  end.

Definition p7_hit_MPIPackSize (hit : P7_HIT) (comm : MPI_Comm) : status * Z :=
  size_result (
    size_add 1 MPI_DOUBLE comm ;;;   (* sortkey                 *)
    size_add 3 MPI_FLOAT comm ;;;    (* scores                  *)
    size_add 3 MPI_DOUBLE comm ;;;   (* lnP                     *)
    size_add 1 MPI_FLOAT comm ;;;    (* expected                *)
    size_add 5 MPI_INT comm ;;;      (* region, envelopes, ndom *)
    size_add 4 MPI_INT comm ;;;      (* report info             *)
    esl_mpi_PackOptSize (hit_name hit) comm ;;;
    esl_mpi_PackOptSize (hit_acc hit) comm ;;;
    esl_mpi_PackOptSize (hit_desc hit) comm).

Definition p7_dcl_MPIPackSize (dcl : P7_DOMAIN) (comm : MPI_Comm) : status * Z :=
  let ad := dcl_ad dcl in
  size_result (
    (* P7_DOMAIN data *)
    size_add 4 MPI_INT comm ;;;      (* alignment info   *)
    size_add 5 MPI_FLOAT comm ;;;    (* score info       *)
    size_add 1 MPI_DOUBLE comm ;;;   (* lnP              *)
    size_add 2 MPI_INT comm ;;;      (* thresholds       *)
    (* P7_ALIDISPLAY data *)
    size_add 16 MPI_INT comm ;;;     (* offset info      *)
    size_add 3 MPI_LONG comm ;;;     (* sequence info    *)
    size_add 1 MPI_INT comm ;;;      (* string pool size *)
    size_add (ad_memsize ad) MPI_CHAR comm).  (* string pool *)

(** ** Packing *)

(** [if ( *pos > n) ESL_EXCEPTION(eslEMEM, "buffer overflow")] *)
Definition check_overflow (n : Z) : Comp packbuf status unit :=
  fun b => if pk_pos b >? n then (inl eslEMEM, b) else (inr tt, b).

Definition p7_hit_MPIPack (hit : P7_HIT) (n : Z) (comm : MPI_Comm)
    : Comp packbuf status unit :=
  MPI_Pack [hit_sortkey hit] 1 MPI_DOUBLE n comm ;;;
  MPI_Pack [hit_score hit] 1 MPI_FLOAT n comm ;;;
  MPI_Pack [hit_pre_score hit] 1 MPI_FLOAT n comm ;;;
  MPI_Pack [hit_sum_score hit] 1 MPI_FLOAT n comm ;;;
  MPI_Pack [hit_lnP hit] 1 MPI_DOUBLE n comm ;;;
  MPI_Pack [hit_pre_lnP hit] 1 MPI_DOUBLE n comm ;;;
  MPI_Pack [hit_sum_lnP hit] 1 MPI_DOUBLE n comm ;;;
  MPI_Pack [hit_nexpected hit] 1 MPI_FLOAT n comm ;;;
  MPI_Pack [hit_nregions hit] 1 MPI_INT n comm ;;;
  MPI_Pack [hit_nclustered hit] 1 MPI_INT n comm ;;;
  MPI_Pack [hit_noverlaps hit] 1 MPI_INT n comm ;;;
  MPI_Pack [hit_nenvelopes hit] 1 MPI_INT n comm ;;;
  MPI_Pack [hit_ndom hit] 1 MPI_INT n comm ;;;
  MPI_Pack [hit_flags hit] 1 MPI_INT n comm ;;;
  MPI_Pack [hit_nreported hit] 1 MPI_INT n comm ;;;
  MPI_Pack [hit_nincluded hit] 1 MPI_INT n comm ;;;
  MPI_Pack [hit_best_domain hit] 1 MPI_INT n comm ;;;
  esl_mpi_PackOpt (hit_name hit) n comm ;;;
  esl_mpi_PackOpt (hit_acc hit) n comm ;;;
  esl_mpi_PackOpt (hit_desc hit) n comm ;;;
  check_overflow n.

(** [offset = (ad->line == NULL) ? -1 : ad->line - ad->mem] *)
Definition line_offset (line : option Z) : Z :=
  match line with
  | None => -1
  | Some off => off
  end.

Definition p7_dcl_MPIPack (dcl : P7_DOMAIN) (n : Z) (comm : MPI_Comm)
    : Comp packbuf status unit :=
  let ad := dcl_ad dcl in
  MPI_Pack [dcl_ienv dcl] 1 MPI_INT n comm ;;;
  MPI_Pack [dcl_jenv dcl] 1 MPI_INT n comm ;;;
  MPI_Pack [dcl_iali dcl] 1 MPI_INT n comm ;;;
  MPI_Pack [dcl_jali dcl] 1 MPI_INT n comm ;;;
  MPI_Pack [dcl_envsc dcl] 1 MPI_FLOAT n comm ;;;
  MPI_Pack [dcl_domcorrection dcl] 1 MPI_FLOAT n comm ;;;
  MPI_Pack [dcl_dombias dcl] 1 MPI_FLOAT n comm ;;;
  MPI_Pack [dcl_oasc dcl] 1 MPI_FLOAT n comm ;;;
  MPI_Pack [dcl_bitscore dcl] 1 MPI_FLOAT n comm ;;;
  MPI_Pack [dcl_lnP dcl] 1 MPI_DOUBLE n comm ;;;
  MPI_Pack [dcl_is_reported dcl] 1 MPI_INT n comm ;;;
  MPI_Pack [dcl_is_included dcl] 1 MPI_INT n comm ;;;
  MPI_Pack [line_offset (ad_rfline ad)] 1 MPI_INT n comm ;;;
  MPI_Pack [line_offset (ad_mmline ad)] 1 MPI_INT n comm ;;;
  MPI_Pack [line_offset (ad_csline ad)] 1 MPI_INT n comm ;;;
  MPI_Pack [line_offset (ad_model ad)] 1 MPI_INT n comm ;;;
  MPI_Pack [line_offset (ad_mline ad)] 1 MPI_INT n comm ;;;
  MPI_Pack [line_offset (ad_aseq ad)] 1 MPI_INT n comm ;;;
  MPI_Pack [line_offset (ad_ppline ad)] 1 MPI_INT n comm ;;;
  MPI_Pack [ad_N ad] 1 MPI_INT n comm ;;;
  MPI_Pack [line_offset (ad_hmmname ad)] 1 MPI_INT n comm ;;;
  MPI_Pack [line_offset (ad_hmmacc ad)] 1 MPI_INT n comm ;;;
  MPI_Pack [line_offset (ad_hmmdesc ad)] 1 MPI_INT n comm ;;;
  MPI_Pack [ad_hmmfrom ad] 1 MPI_INT n comm ;;;
  MPI_Pack [ad_hmmto ad] 1 MPI_INT n comm ;;;
  MPI_Pack [ad_M ad] 1 MPI_INT n comm ;;;
  MPI_Pack [line_offset (ad_sqname ad)] 1 MPI_INT n comm ;;;
  MPI_Pack [line_offset (ad_sqacc ad)] 1 MPI_INT n comm ;;;
  MPI_Pack [line_offset (ad_sqdesc ad)] 1 MPI_INT n comm ;;;
  MPI_Pack [ad_sqfrom ad] 1 MPI_LONG n comm ;;;
  MPI_Pack [ad_sqto ad] 1 MPI_LONG n comm ;;;
  MPI_Pack [ad_L ad] 1 MPI_LONG n comm ;;;
  MPI_Pack [ad_memsize ad] 1 MPI_INT n comm ;;;
  MPI_Pack (pool_bytes (ad_mem ad)) (ad_memsize ad) MPI_CHAR n comm ;;;
  check_overflow n.

(** ** Unpacking *)

(** A failing unpack returns only its status: the source documents the
    record under construction as undefined on that path. *)
Definition p7_hit_MPIUnpack (buf : list Z) (n : Z) (comm : MPI_Comm) (hit : P7_HIT)
    : Comp unpackst status P7_HIT :=
  sortkey <- unpack_raw buf n MPI_DOUBLE comm ;;
  score <- unpack_raw buf n MPI_FLOAT comm ;;
  pre_score <- unpack_raw buf n MPI_FLOAT comm ;;
  sum_score <- unpack_raw buf n MPI_FLOAT comm ;;
  lnP <- unpack_raw buf n MPI_DOUBLE comm ;;
  pre_lnP <- unpack_raw buf n MPI_DOUBLE comm ;;
  sum_lnP <- unpack_raw buf n MPI_DOUBLE comm ;;
  nexpected <- unpack_raw buf n MPI_FLOAT comm ;;
  nregions <- unpack_int buf n comm ;;
  nclustered <- unpack_int buf n comm ;;
  noverlaps <- unpack_int buf n comm ;;
  nenvelopes <- unpack_int buf n comm ;;
  ndom <- unpack_int buf n comm ;;
  flags <- unpack_int buf n comm ;;
  nreported <- unpack_int buf n comm ;;
  nincluded <- unpack_int buf n comm ;;
  best_domain <- unpack_int buf n comm ;;
  name <- esl_mpi_UnpackOpt buf n comm ;;
  acc <- esl_mpi_UnpackOpt buf n comm ;;
  desc <- esl_mpi_UnpackOpt buf n comm ;;
  ret {| hit_name := name; hit_acc := acc; hit_desc := desc;
         hit_sortkey := sortkey;
         hit_score := score; hit_pre_score := pre_score; hit_sum_score := sum_score;
         hit_lnP := lnP; hit_pre_lnP := pre_lnP; hit_sum_lnP := sum_lnP;
         hit_nexpected := nexpected;
         hit_nregions := nregions; hit_nclustered := nclustered;
         hit_noverlaps := noverlaps; hit_nenvelopes := nenvelopes;
         hit_ndom := ndom;
         hit_flags := flags; hit_nreported := nreported;
         hit_nincluded := nincluded; hit_best_domain := best_domain;
         hit_dcl := hit_dcl hit |}.

(** [ad->line = (line == -1) ? NULL : ad->mem + line] *)
Definition line_view (line : Z) : option Z :=
  if line =? -1 then None else Some line.

Definition sizeof_P7_ALIDISPLAY : Z := 1.

(** p7_dcl_MPIUnpack up to its [return eslOK] (lines 580-638); on a failure
    the result is the status the source sets before [goto ERROR].  The
    ERROR label itself (lines 640-645) is not modelled: it frees [ad->mem]
    and [ad], and when an MPI_Unpack of a field fails [ad->mem] has not been
    assigned yet, so that the label reads it uninitialised. *)
Definition p7_dcl_MPIUnpack (buf : list Z) (n : Z) (comm : MPI_Comm)
    : Comp unpackst status P7_DOMAIN :=
  ESL_ALLOC sizeof_P7_ALIDISPLAY ;;;
  ienv <- unpack_int buf n comm ;;
  jenv <- unpack_int buf n comm ;;
  iali <- unpack_int buf n comm ;;
  jali <- unpack_int buf n comm ;;
  envsc <- unpack_raw buf n MPI_FLOAT comm ;;
  domcorrection <- unpack_raw buf n MPI_FLOAT comm ;;
  dombias <- unpack_raw buf n MPI_FLOAT comm ;;
  oasc <- unpack_raw buf n MPI_FLOAT comm ;;
  bitscore <- unpack_raw buf n MPI_FLOAT comm ;;
  lnP <- unpack_raw buf n MPI_DOUBLE comm ;;
  is_reported <- unpack_int buf n comm ;;
  is_included <- unpack_int buf n comm ;;
  rfline <- unpack_int buf n comm ;;
  mmline <- unpack_int buf n comm ;;
  csline <- unpack_int buf n comm ;;
  model <- unpack_int buf n comm ;;
  mline <- unpack_int buf n comm ;;
  aseq <- unpack_int buf n comm ;;
  ppline <- unpack_int buf n comm ;;
  N <- unpack_int buf n comm ;;
  hmmname <- unpack_int buf n comm ;;
  hmmacc <- unpack_int buf n comm ;;
  hmmdesc <- unpack_int buf n comm ;;
  hmmfrom <- unpack_int buf n comm ;;
  hmmto <- unpack_int buf n comm ;;
  M <- unpack_int buf n comm ;;
  sqname <- unpack_int buf n comm ;;
  sqacc <- unpack_int buf n comm ;;
  sqdesc <- unpack_int buf n comm ;;
  sqfrom <- unpack_long buf n comm ;;
  sqto <- unpack_long buf n comm ;;
  L <- unpack_long buf n comm ;;
  memsize <- unpack_int buf n comm ;;
  (* allocate the string pools for the alignments *)
  ESL_ALLOC memsize ;;;
  mem <- MPI_Unpack buf n memsize MPI_CHAR comm ;;
  ret {| dcl_ienv := ienv; dcl_jenv := jenv; dcl_iali := iali; dcl_jali := jali;
         dcl_envsc := envsc; dcl_domcorrection := domcorrection;
         dcl_dombias := dombias; dcl_oasc := oasc; dcl_bitscore := bitscore;
         dcl_lnP := lnP;
         dcl_is_reported := is_reported; dcl_is_included := is_included;
         dcl_ad :=
           {| ad_rfline := line_view rfline; ad_mmline := line_view mmline;
              ad_csline := line_view csline; ad_model := line_view model;
              ad_mline := line_view mline; ad_aseq := line_view aseq;
              ad_ppline := line_view ppline;
              ad_N := N;
              ad_hmmname := line_view hmmname; ad_hmmacc := line_view hmmacc;
              ad_hmmdesc := line_view hmmdesc;
              ad_hmmfrom := hmmfrom; ad_hmmto := hmmto; ad_M := M;
              ad_sqname := line_view sqname; ad_sqacc := line_view sqacc;
              ad_sqdesc := line_view sqdesc;
              ad_sqfrom := sqfrom; ad_sqto := sqto; ad_L := L;
              ad_memsize := memsize;
              ad_mem := Some mem |} |}.

(** ** The process and its environment *)

(** A message in transit: the peer it goes to (when sent) or comes from
    (when received), its tag and its bytes. *)
Record message : Type := { msg_peer : Z; msg_tag : Z; msg_data : list Z }.

Record MPI_Status : Type := { MPI_SOURCE : Z; MPI_TAG : Z; st_count : Z }.

(** Wildcards of mpi.h (outside the source tree; Open MPI's values).  Ranks
    and tags of real messages are never negative. *)
Definition MPI_ANY_SOURCE : Z := -1.
Definition MPI_ANY_TAG : Z := -1.

(** What a send or receive call works on: the caller's [*buf] and
    [*nalloc], and the environment: the messages that will arrive, in order;
    the messages sent so far; the future answers of the allocator ([heap], as
    in [unpackst]), of MPI_Send ([link]) and of MPI_Recv ([recvs]), [false]
    for a call that fails and the empty list when none fails; those of
    MPI_Probe ([probes]), [Some st] for a call that fails and leaves [st] in
    the status variable; the bytes a fresh block happens to hold; and the
    number of live P7_TOPHITS objects. *)
Record world : Type := {
  buf : option (list Z);
  nalloc : Z;
  inbox : list message;
  sent : list message;
  heap : list bool;
  link : list bool;
  probes : list (option MPI_Status);
  recvs : list bool;
  junk : nat -> Z;
  th_live : Z
}.

Definition set_buf (b : option (list Z)) (w : world) : world :=
  {| buf := b; nalloc := nalloc w; inbox := inbox w; sent := sent w;
     heap := heap w; link := link w; probes := probes w; recvs := recvs w;
     junk := junk w; th_live := th_live w |}.

Definition set_nalloc (n : Z) (w : world) : world :=
  {| buf := buf w; nalloc := n; inbox := inbox w; sent := sent w;
     heap := heap w; link := link w; probes := probes w; recvs := recvs w;
     junk := junk w; th_live := th_live w |}.

Definition set_inbox (i : list message) (w : world) : world :=
  {| buf := buf w; nalloc := nalloc w; inbox := i; sent := sent w;
     heap := heap w; link := link w; probes := probes w; recvs := recvs w;
     junk := junk w; th_live := th_live w |}.

Definition set_sent (s : list message) (w : world) : world :=
  {| buf := buf w; nalloc := nalloc w; inbox := inbox w; sent := s;
     heap := heap w; link := link w; probes := probes w; recvs := recvs w;
     junk := junk w; th_live := th_live w |}.

Definition set_heap (h : list bool) (w : world) : world :=
  {| buf := buf w; nalloc := nalloc w; inbox := inbox w; sent := sent w;
     heap := h; link := link w; probes := probes w; recvs := recvs w;
     junk := junk w; th_live := th_live w |}.

Definition set_link (l : list bool) (w : world) : world :=
  {| buf := buf w; nalloc := nalloc w; inbox := inbox w; sent := sent w;
     heap := heap w; link := l; probes := probes w; recvs := recvs w;
     junk := junk w; th_live := th_live w |}.

Definition set_probes (p : list (option MPI_Status)) (w : world) : world :=
  {| buf := buf w; nalloc := nalloc w; inbox := inbox w; sent := sent w;
     heap := heap w; link := link w; probes := p; recvs := recvs w;
     junk := junk w; th_live := th_live w |}.

Definition set_recvs (r : list bool) (w : world) : world :=
  {| buf := buf w; nalloc := nalloc w; inbox := inbox w; sent := sent w;
     heap := heap w; link := link w; probes := probes w; recvs := r;
     junk := junk w; th_live := th_live w |}.

Definition set_th_live (k : Z) (w : world) : world :=
  {| buf := buf w; nalloc := nalloc w; inbox := inbox w; sent := sent w;
     heap := heap w; link := link w; probes := probes w; recvs := recvs w;
     junk := junk w; th_live := k |}.

(** How a send or receive call ends without returning [eslOK]: it returns
    another status, or it never returns because MPI_Probe waits for a
    message that does not come. *)
Inductive abort : Type := Throw (e : status) | Blocked.

Definition is_null (A : Type) (p : option A) : bool :=
  match p with None => true | Some _ => false end.

(** The bytes behind [*buf], and storing bytes behind it. *)
Definition deref (b : option (list Z)) : list Z :=
  match b with Some l => l | None => [] end.

Definition store (b : option (list Z)) (l : list Z) : option (list Z) :=
  match b with Some _ => Some l | None => None end.

(** realloc keeps the old bytes up to the new size; the rest is whatever the
    block holds. *)
Definition resize (n : Z) (old : list Z) (fill : nat -> Z) : list Z :=
  firstn (Z.to_nat n) (old ++ map fill (seq 0 (Z.to_nat n))).

(** [ESL_RALLOC( *buf, tmp, sizeof(char) * n)], see [heap_alloc]: on failure
    [*buf] is left as it was. *)
Definition ESL_RALLOC (newsize : Z) : Comp world abort unit :=
  fun w =>
    let '(ok, h) := heap_alloc newsize (heap w) in
    if ok
    then (inr tt, set_heap h (set_buf (Some (resize newsize (deref (buf w)) (junk w))) w))
    else (inl (Throw eslEMEM), set_heap h w).

(** ESL_ALLOC of a record or array outside the wire buffer. *)
Definition ESL_ALLOC_obj (size : Z) : Comp world abort unit :=
  fun w =>
    let '(ok, h) := heap_alloc size (heap w) in
    (if ok then inr tt else inl (Throw eslEMEM), set_heap h w).

(** The block the source repeats in all three receive functions and in
    p7_tophits_MPISend:
    [if ( *buf == NULL || n > *nalloc) {
       ESL_RALLOC( *buf, tmp, sizeof(char) * n);  *nalloc = n; }] *)
Definition grow_buffer (n : Z) : Comp world abort unit :=
  fun w =>
    if is_null (buf w) || (n >? nalloc w)
    then (ESL_RALLOC n ;;; modify (set_nalloc n)) w
    else (inr tt, w).

(** Running a pack function on [*buf] from position [pos]; the result is the
    final [pos]. *)
Definition pack_buf (p : Comp packbuf status unit) (pos : Z) : Comp world abort Z :=
  fun w =>
    match p {| pk_bytes := deref (buf w); pk_pos := pos |} with
    | (inr _, b) => (inr (pk_pos b), set_buf (store (buf w) (pk_bytes b)) w)
    | (inl e, b) => (inl (Throw e), set_buf (store (buf w) (pk_bytes b)) w)
    end.

(** Running an unpack function on [*buf] from position [pos]. *)
Definition unpack_buf (A : Type) (u : list Z -> Comp unpackst status A) (pos : Z)
    : Comp world abort A :=
  fun w =>
    match u (deref (buf w)) {| up_pos := pos; up_heap := heap w |} with
    | (inr a, s) => (inr a, set_heap (up_heap s) w)
    | (inl e, s) => (inl (Throw e), set_heap (up_heap s) w)
    end.

(** [if (MPI_Send( *buf, n, MPI_PACKED, dest, tag, comm) != 0)
       ESL_EXCEPTION(eslESYS, "mpi send failed")]: the first [n] bytes of
    the buffer leave as one message.  MPI_Send is a blocking call; a send
    that never completes is not modelled. *)
Definition MPI_Send (n : Z) (dest tag : Z) (comm : MPI_Comm) : Comp world abort unit :=
  fun w =>
    match link w with
    | false :: l => (inl (Throw eslESYS), set_link l w)
    | _ =>
        (inr tt,
         set_link (tl (link w))
           (set_sent (sent w ++ [ {| msg_peer := dest; msg_tag := tag;
                                     msg_data := firstn (Z.to_nat n) (deref (buf w)) |} ]) w))
    end.

(** [MPI_Probe(source, tag, comm, &mpistatus)] reports the envelope and the
    length of the next message without consuming it, and waits while there is
    none.  The model reports the head of [inbox] whatever [source] and [tag]
    ask for, so that a message from an unexpected peer can be simulated; on an
    inbox of matching messages this is MPI's matching. *)
Definition probe_message : Comp world abort MPI_Status :=
  fun w =>
    match inbox w with
    | [] => (inl Blocked, w)
    | m :: _ => (inr {| MPI_SOURCE := msg_peer m; MPI_TAG := msg_tag m;
                        st_count := zlen (msg_data m) |}, w)
    end.

(** The source calls MPI_Probe as a statement: when the call fails, its
    return code is lost and the code goes on with whatever the status
    variable holds. *)
Definition MPI_Probe (source tag : Z) (comm : MPI_Comm) : Comp world abort MPI_Status :=
  fun w =>
    match probes w with
    | [] => probe_message w
    | None :: p => probe_message (set_probes p w)
    | Some st :: p => (inr st, set_probes p w)
    end.

(** [MPI_Get_count(&mpistatus, MPI_PACKED, &n)] *)
Definition MPI_Get_count (st : MPI_Status) : Z := st_count st.

(** [MPI_Recv( *buf, n, MPI_PACKED, source, tag, comm, &mpistatus)]: the
    message leaves the channel and its first [n] bytes land at the start
    of the buffer. *)
Definition receive_message (n : Z) : Comp world abort unit :=
  fun w =>
    match inbox w with
    | [] => (inl Blocked, w)
    | m :: rest =>
        (inr tt,
         set_inbox rest
           (set_buf (store (buf w)
                       (write (deref (buf w)) 0 (firstn (Z.to_nat n) (msg_data m)))) w))
    end.

(** The source calls MPI_Recv as a statement too: when the call fails,
    nothing is received, the buffer keeps its bytes, and the code goes on. *)
Definition MPI_Recv (n : Z) (source tag : Z) (comm : MPI_Comm) : Comp world abort unit :=
  fun w =>
    match recvs w with
    | [] => receive_message n w
    | true :: r => receive_message n (set_recvs r w)
    | false :: r => (inr tt, set_recvs r w)
    end.

(** The block the source repeats in all three receive functions:
    [if (tag != MPI_ANY_TAG && mpistatus.MPI_TAG != tag)
       { status = eslFAIL; goto ERROR; }
     if (source != MPI_ANY_SOURCE && mpistatus.MPI_SOURCE != source)
       { status = eslFAIL; goto ERROR; }] *)
Definition check_peer (source tag : Z) (mpistatus : MPI_Status) : Comp world abort unit :=
  if negb (tag =? MPI_ANY_TAG) && negb (MPI_TAG mpistatus =? tag)
  then throw (Throw eslFAIL)
  else if negb (source =? MPI_ANY_SOURCE) && negb (MPI_SOURCE mpistatus =? source)
  then throw (Throw eslFAIL)
  else ret tt.

Fixpoint for_each {S E A} (l : list A) (body : A -> Comp S E unit) : Comp S E unit :=
  match l with
  | [] => ret tt
  | x :: r => body x ;;; for_each r body
  end.

(** [goto ERROR] with a handler, and the code after the protected part. *)
Definition catch {S E A B} (m : Comp S E A) (h : E -> Comp S E B)
    (k : A -> Comp S E B) : Comp S E B :=
  fun s => match m s with
           | (inr a, s') => k a s'
           | (inl e, s') => h e s'
           end.

(** ** P7_TOPHITS collaborators (base/p7_tophits.c) *)

Definition blank_hit : P7_HIT :=
  {| hit_name := None; hit_acc := None; hit_desc := None;
     hit_sortkey := 0;
     hit_score := 0; hit_pre_score := 0; hit_sum_score := 0;
     hit_lnP := 0; hit_pre_lnP := 0; hit_sum_lnP := 0;
     hit_nexpected := 0;
     hit_nregions := 0; hit_nclustered := 0; hit_noverlaps := 0;
     hit_nenvelopes := 0; hit_ndom := 0;
     hit_flags := 0; hit_nreported := 0; hit_nincluded := 0;
     hit_best_domain := 0;
     hit_dcl := [] |}.

(** Modelled from the spec: p7_tophits_Create is not in the source tree.
    "A factory that allocates an empty ResultCollection with a starting
    capacity hint"; NULL when the allocation fails. *)
Definition p7_tophits_Create : Comp world abort (option P7_TOPHITS) :=
  fun w =>
    let '(ok, h) := heap_alloc 1 (heap w) in
    if ok
    then (inr (Some {| th_unsrt := []; th_N := 0; th_nreported := 0; th_nincluded := 0 |}),
          set_th_live (th_live w + 1) (set_heap h w))
    else (inr None, set_heap h w).

(** Modelled from the spec: p7_tophits_CreateNextHit is not in the source
    tree.  "A constructor that appends a freshly allocated HitRecord to a
    collection and returns a mutable reference for the decoder to fill in";
    [eslEMEM] when the allocation fails. *)
Definition p7_tophits_CreateNextHit (th : P7_TOPHITS) : Comp world abort (P7_TOPHITS * P7_HIT) :=
  fun w =>
    let '(ok, h) := heap_alloc 1 (heap w) in
    if ok
    then (inr ({| th_unsrt := th_unsrt th ++ [blank_hit]; th_N := th_N th + 1;
                  th_nreported := th_nreported th; th_nincluded := th_nincluded th |},
               blank_hit),
          set_heap h w)
    else (inl (Throw eslEMEM), set_heap h w).

(** Modelled from the spec: p7_tophits_Destroy is not in the source tree.
    The destructor releases the collection and all it owns. *)
Definition p7_tophits_Destroy (th : P7_TOPHITS) : Comp world abort unit :=
  modify (fun w => set_th_live (th_live w - 1) w).

(** Writing through the reference p7_tophits_CreateNextHit returned: the
    last hit of the collection. *)
Definition store_hit (hit : P7_HIT) (th : P7_TOPHITS) : P7_TOPHITS :=
  {| th_unsrt := removelast (th_unsrt th) ++ [hit]; th_N := th_N th;
     th_nreported := th_nreported th; th_nincluded := th_nincluded th |}.

(** ** Sending *)

Definition p7_dcl_MPISend (dcl : P7_DOMAIN) (dest tag : Z) (comm : MPI_Comm)
    : Comp world abort unit :=
  w <- get ;;
  let n := nalloc w in
  (* Pack the DOMAIN into the buffer *)
  _ <- pack_buf (p7_dcl_MPIPack dcl n comm) 0 ;;
  (* Send the packed HIT to the destination. *)
  MPI_Send n dest tag comm.

Definition p7_hit_MPISend (hit : P7_HIT) (dest tag : Z) (comm : MPI_Comm)
    : Comp world abort unit :=
  w <- get ;;
  let n := nalloc w in
  (* Pack the HIT into the buffer *)
  _ <- pack_buf (p7_hit_MPIPack hit n comm) 0 ;;
  (* Send the packed HIT to the destination. *)
  MPI_Send n dest tag comm ;;;
  (* loop through all of the domains *)
  for_each (firstn (Z.to_nat (hit_ndom hit)) (hit_dcl hit))
           (fun dcl => p7_dcl_MPISend dcl dest tag comm).

(** The first loop of p7_tophits_MPISend ("calculate the buffer size needed
    to hold the largest hit"): the largest pool size met and the domain that
    has it.
    [if (sz <= hit->dcl[j].ad->memsize)
       { sz = hit->dcl[j].ad->memsize; dcl = &hit->dcl[j]; }] *)
Definition largest_pool (th : P7_TOPHITS) : Z * option P7_DOMAIN :=
  fold_left
    (fun acc hit =>
       fold_left
         (fun (a : Z * option P7_DOMAIN) d =>
            if fst a <=? ad_memsize (dcl_ad d)
            then (ad_memsize (dcl_ad d), Some d)
            else a)
         (firstn (Z.to_nat (hit_ndom hit)) (hit_dcl hit)) acc)
    (firstn (Z.to_nat (th_N th)) (th_unsrt th))
    (0, None).

(** [if ((status = f(..., &n)) != eslOK) goto ERROR;] for a size function. *)
Definition size_of (r : status * Z) : Comp world abort Z :=
  match r with
  | (eslOK, n) => ret n
  | (e, _) => throw (Throw e)
  end.

(** The size the first part of p7_tophits_MPISend settles on (lines 92-101). *)
Definition tophits_buffer_size (th : P7_TOPHITS) (comm : MPI_Comm) : Comp world abort Z :=
  let dcl := snd (largest_pool th) in
  n <- (if th_N th >? 0
        then
          n <- size_of (p7_hit_MPIPackSize (hd blank_hit (th_unsrt th)) comm) ;;
          match dcl with
          | Some d =>
              sz <- size_of (p7_dcl_MPIPackSize d comm) ;;
              ret (if n >? sz then n else sz)
          | None => ret n
          end
        else ret 0) ;;
  match MPI_Pack_size 3 MPI_LONG_LONG_INT comm with
  | None => throw (Throw eslESYS)
  | Some sz => ret (if n >? sz then n else sz)
  end.

Definition p7_tophits_MPISend (th : P7_TOPHITS) (dest tag : Z) (comm : MPI_Comm)
    : Comp world abort unit :=
  n <- tophits_buffer_size th comm ;;
  (* Make sure the buffer is allocated appropriately *)
  grow_buffer n ;;;
  _ <- pack_buf (MPI_Pack [th_N th] 1 MPI_LONG_LONG_INT n comm ;;;
                 MPI_Pack [th_nreported th] 1 MPI_LONG_LONG_INT n comm ;;;
                 MPI_Pack [th_nincluded th] 1 MPI_LONG_LONG_INT n comm) 0 ;;
  (* Send the packed tophits information *)
  MPI_Send n dest tag comm ;;;
  if th_N th =? 0 then ret tt
  else
    (* loop through the hit list sending to dest *)
    for_each (firstn (Z.to_nat (th_N th)) (th_unsrt th))
             (fun hit => p7_hit_MPISend hit dest tag comm).

(** ** Receiving *)

(** The start of each receive function: probe, validate the peer, pin
    [tag] and [source], size the buffer, receive.  The result is the
    message length and the pinned source and tag. *)
Definition probe_and_receive (source tag : Z) (comm : MPI_Comm)
    : Comp world abort (Z * Z * Z) :=
  (* Probe first, because we need to know if our buffer is big enough. *)
  mpistatus <- MPI_Probe source tag comm ;;
  let n := MPI_Get_count mpistatus in
  (* make sure we are getting the tag we expect and from whom we expect if from *)
  check_peer source tag mpistatus ;;;
  (* set the source and tag *)
  let tag := MPI_TAG mpistatus in
  let source := MPI_SOURCE mpistatus in
  (* Make sure the buffer is allocated appropriately *)
  grow_buffer n ;;;
  MPI_Recv n source tag comm ;;;
  ret (n, source, tag).

Definition p7_dcl_MPIRecv (source tag : Z) (comm : MPI_Comm) : Comp world abort P7_DOMAIN :=
  _ <- probe_and_receive source tag comm ;;
  w <- get ;;
  unpack_buf (fun b => p7_dcl_MPIUnpack b (nalloc w) comm) 0.

Fixpoint recv_domains (k : nat) (source tag : Z) (comm : MPI_Comm)
    : Comp world abort (list P7_DOMAIN) :=
  match k with
  | O => ret []
  | S k' =>
      d <- p7_dcl_MPIRecv source tag comm ;;
      r <- recv_domains k' source tag comm ;;
      ret (d :: r)
  end.

(** [sizeof(P7_DOMAIN)], a positive constant. *)
Definition sizeof_P7_DOMAIN : Z := 1.

Definition p7_hit_MPIRecv (source tag : Z) (comm : MPI_Comm) (hit : P7_HIT)
    : Comp world abort P7_HIT :=
  r <- probe_and_receive source tag comm ;;
  let '(n, source, tag) := r in
  hit <- unpack_buf (fun b => p7_hit_MPIUnpack b n comm hit) 0 ;;
  ESL_ALLOC_obj (sizeof_P7_DOMAIN * hit_ndom hit) ;;;
  (* loop through all of the hits sent *)
  dcl <- recv_domains (Z.to_nat (hit_ndom hit)) source tag comm ;;
  ret (set_hit_dcl dcl hit).

Fixpoint recv_hits (k : nat) (source tag : Z) (comm : MPI_Comm) (th : P7_TOPHITS)
    : Comp world abort P7_TOPHITS :=
  match k with
  | O => ret th
  | S k' =>
      r <- p7_tophits_CreateNextHit th ;;
      hit <- p7_hit_MPIRecv source tag comm (snd r) ;;
      recv_hits k' source tag comm (store_hit hit (fst r))
  end.

(** p7_tophits_MPIRecv up to the creation of [th] (lines 165-194): an error
    here reaches the ERROR label with [th == NULL]. *)
Definition tophits_recv_open (source tag : Z) (comm : MPI_Comm)
    : Comp world abort (P7_TOPHITS * (Z * Z * Z)) :=
  r <- probe_and_receive source tag comm ;;
  th <- p7_tophits_Create ;;
  match th with
  | None => throw (Throw eslEMEM)
  | Some th => ret (th, r)
  end.

(** p7_tophits_MPIRecv from there on (lines 195-203): an error here reaches
    the ERROR label with the collection under construction. *)
Definition tophits_recv_fill (th : P7_TOPHITS) (n source tag : Z) (comm : MPI_Comm)
    : Comp world abort P7_TOPHITS :=
  e <- unpack_buf (fun b =>
         nhits <- unpack_raw b n MPI_LONG_LONG_INT comm ;;
         nreported <- unpack_raw b n MPI_LONG_LONG_INT comm ;;
         nincluded <- unpack_raw b n MPI_LONG_LONG_INT comm ;;
         ret (nhits, nreported, nincluded)) 0 ;;
  let '(nhits, nreported, nincluded) := e in
  (* loop through all of the hits sent *)
  recv_hits (Z.to_nat nhits) source tag comm
    {| th_unsrt := th_unsrt th; th_N := th_N th;
       th_nreported := nreported; th_nincluded := nincluded |}.

(** [ERROR: if (th != NULL) p7_tophits_Destroy(th);
            *ret_th = NULL;
            return status;] *)
Definition tophits_recv_ERROR (th : option P7_TOPHITS) (e : abort)
    : Comp world abort (status * option P7_TOPHITS) :=
  match e with
  | Blocked => throw Blocked
  | Throw status =>
      match th with
      | Some t => p7_tophits_Destroy t
      | None => ret tt
      end ;;;
      ret (status, None)
  end.

(** The result is the returned status and [*ret_th]. *)
Definition p7_tophits_MPIRecv (source tag : Z) (comm : MPI_Comm)
    : Comp world abort (status * option P7_TOPHITS) :=
  catch (tophits_recv_open source tag comm)
        (tophits_recv_ERROR None)
        (fun '(th, (n, source, tag)) =>
           catch (tophits_recv_fill th n source tag comm)
                 (tophits_recv_ERROR (Some th))
                 (fun th => ret (eslOK, Some th))).

(** ** Well-formed records

    The values a C program can hold in these structs: every field within
    the range of its C type, strings without NUL, the pool of the length
    [memsize] says, every reference either NULL or inside the pool, and as
    many domains as [ndom] says. *)

Definition in_range (lo hi x : Z) : bool := (lo <=? x) && (x <? hi).

Definition int_ok (x : Z) : bool := in_range (- 2 ^ 31) (2 ^ 31) x.
Definition long_ok (x : Z) : bool := in_range (- 2 ^ 63) (2 ^ 63) x.
Definition float_ok (x : Z) : bool := in_range 0 (2 ^ 32) x.
Definition double_ok (x : Z) : bool := in_range 0 (2 ^ 64) x.
Definition uint64_ok (x : Z) : bool := in_range 0 (2 ^ 64) x.
Definition byte_ok (x : Z) : bool := in_range 0 256 x.

Definition string_ok (s : option (list Z)) : bool :=
  match s with
  | None => true
  | Some l => forallb (in_range 1 256) l && int_ok (zlen l)
  end.

Definition line_ok (memsize : Z) (line : option Z) : bool :=
  match line with
  | None => true
  | Some off => in_range 0 memsize off
  end.

Definition ad_ok (ad : P7_ALIDISPLAY) : bool :=
  forallb (line_ok (ad_memsize ad)) (ad_refs ad)
  && int_ok (ad_N ad) && int_ok (ad_hmmfrom ad) && int_ok (ad_hmmto ad)
  && int_ok (ad_M ad)
  && long_ok (ad_sqfrom ad) && long_ok (ad_sqto ad) && long_ok (ad_L ad)
  && int_ok (ad_memsize ad)
  && match ad_mem ad with
     | Some m => forallb byte_ok m && (zlen m =? ad_memsize ad)
     | None => false
     end.

Definition dcl_ok (dcl : P7_DOMAIN) : bool :=
  int_ok (dcl_ienv dcl) && int_ok (dcl_jenv dcl) && int_ok (dcl_iali dcl)
  && int_ok (dcl_jali dcl)
  && float_ok (dcl_envsc dcl) && float_ok (dcl_domcorrection dcl)
  && float_ok (dcl_dombias dcl) && float_ok (dcl_oasc dcl)
  && float_ok (dcl_bitscore dcl)
  && double_ok (dcl_lnP dcl)
  && int_ok (dcl_is_reported dcl) && int_ok (dcl_is_included dcl)
  && ad_ok (dcl_ad dcl).

Definition hit_ok (hit : P7_HIT) : bool :=
  string_ok (hit_name hit) && string_ok (hit_acc hit) && string_ok (hit_desc hit)
  && double_ok (hit_sortkey hit)
  && float_ok (hit_score hit) && float_ok (hit_pre_score hit)
  && float_ok (hit_sum_score hit)
  && double_ok (hit_lnP hit) && double_ok (hit_pre_lnP hit)
  && double_ok (hit_sum_lnP hit)
  && float_ok (hit_nexpected hit)
  && int_ok (hit_nregions hit) && int_ok (hit_nclustered hit)
  && int_ok (hit_noverlaps hit) && int_ok (hit_nenvelopes hit)
  && int_ok (hit_ndom hit)
  && int_ok (hit_flags hit) && int_ok (hit_nreported hit)
  && int_ok (hit_nincluded hit) && int_ok (hit_best_domain hit)
  && (hit_ndom hit =? zlen (hit_dcl hit))
  && forallb dcl_ok (hit_dcl hit).

Definition th_ok (th : P7_TOPHITS) : bool :=
  uint64_ok (th_N th) && uint64_ok (th_nreported th) && uint64_ok (th_nincluded th)
  && (th_N th =? zlen (th_unsrt th))
  && forallb hit_ok (th_unsrt th).

(** The caller's buffer: [*nalloc] is the allocated length of [*buf], and
    it is zero while [*buf] is NULL. *)
Definition buffer_ok (w : world) : Prop :=
  zlen (deref (buf w)) = nalloc w.

(** No allocation failure ahead. *)
Definition no_fault (h : list bool) : Prop := Forall (fun b => b = true) h.

(** No failing MPI_Probe or MPI_Recv ahead. *)
Definition channel_ok (w : world) : Prop := probes w = [] /\ recvs w = [].

(** ** The wire format, as section 6 of the specification lays it out *)

(** [(presence:int32, [length:int32, bytes:char[length]])] *)
Definition opt_wire (s : option (list Z)) : list Z :=
  match s with
  | None => encode MPI_INT [0]
  | Some l => encode MPI_INT [1] ++ encode MPI_INT [zlen l] ++ encode MPI_CHAR l
  end.

(** Hit message: 17 fixed fields and 3 optional strings. *)
Definition hit_wire (h : P7_HIT) : list Z :=
  concat
    [ encode MPI_DOUBLE [hit_sortkey h];
      encode MPI_FLOAT [hit_score h];
      encode MPI_FLOAT [hit_pre_score h];
      encode MPI_FLOAT [hit_sum_score h];
      encode MPI_DOUBLE [hit_lnP h];
      encode MPI_DOUBLE [hit_pre_lnP h];
      encode MPI_DOUBLE [hit_sum_lnP h];
      encode MPI_FLOAT [hit_nexpected h];
      encode MPI_INT [hit_nregions h];
      encode MPI_INT [hit_nclustered h];
      encode MPI_INT [hit_noverlaps h];
      encode MPI_INT [hit_nenvelopes h];
      encode MPI_INT [hit_ndom h];
      encode MPI_INT [hit_flags h];
      encode MPI_INT [hit_nreported h];
      encode MPI_INT [hit_nincluded h];
      encode MPI_INT [hit_best_domain h];
      opt_wire (hit_name h);
      opt_wire (hit_acc h);
      opt_wire (hit_desc h) ].

(** Domain message: 12 fixed fields, then the display payload: 7
    line-offsets, N, 3 metadata-offsets, hmmfrom, hmmto, M, 3
    sequence-offsets, sqfrom, sqto, L, poolSize, pool. *)
Definition dcl_wire (d : P7_DOMAIN) : list Z :=
  let ad := dcl_ad d in
  concat
    [ encode MPI_INT [dcl_ienv d];
      encode MPI_INT [dcl_jenv d];
      encode MPI_INT [dcl_iali d];
      encode MPI_INT [dcl_jali d];
      encode MPI_FLOAT [dcl_envsc d];
      encode MPI_FLOAT [dcl_domcorrection d];
      encode MPI_FLOAT [dcl_dombias d];
      encode MPI_FLOAT [dcl_oasc d];
      encode MPI_FLOAT [dcl_bitscore d];
      encode MPI_DOUBLE [dcl_lnP d];
      encode MPI_INT [dcl_is_reported d];
      encode MPI_INT [dcl_is_included d];
      encode MPI_INT [line_offset (ad_rfline ad)];
      encode MPI_INT [line_offset (ad_mmline ad)];
      encode MPI_INT [line_offset (ad_csline ad)];
      encode MPI_INT [line_offset (ad_model ad)];
      encode MPI_INT [line_offset (ad_mline ad)];
      encode MPI_INT [line_offset (ad_aseq ad)];
      encode MPI_INT [line_offset (ad_ppline ad)];
      encode MPI_INT [ad_N ad];
      encode MPI_INT [line_offset (ad_hmmname ad)];
      encode MPI_INT [line_offset (ad_hmmacc ad)];
      encode MPI_INT [line_offset (ad_hmmdesc ad)];
      encode MPI_INT [ad_hmmfrom ad];
      encode MPI_INT [ad_hmmto ad];
      encode MPI_INT [ad_M ad];
      encode MPI_INT [line_offset (ad_sqname ad)];
      encode MPI_INT [line_offset (ad_sqacc ad)];
      encode MPI_INT [line_offset (ad_sqdesc ad)];
      encode MPI_LONG [ad_sqfrom ad];
      encode MPI_LONG [ad_sqto ad];
      encode MPI_LONG [ad_L ad];
      encode MPI_INT [ad_memsize ad];
      encode MPI_CHAR (pool_bytes (ad_mem ad)) ].

(** Envelope message: [count:int64, reportedCount:int64, includedCount:int64]. *)
Definition envelope_wire (th : P7_TOPHITS) : list Z :=
  encode MPI_LONG_LONG_INT [th_N th] ++ encode MPI_LONG_LONG_INT [th_nreported th]
  ++ encode MPI_LONG_LONG_INT [th_nincluded th].

(** The byte at which each of the thirteen offset fields starts in a domain
    message, in the order of [ad_refs]. *)
Definition ref_fields : list Z :=
  [52; 56; 60; 64; 68; 72; 76; 84; 88; 92; 108; 112; 116].

(** The [int] stored at byte [k] of a message. *)
Definition wire_int (wire : list Z) (k : Z) : Z :=
  sint 32 (le_val (firstn 4 (skipn (Z.to_nat k) wire))).

(** The thirteen offsets stored in the domain message that starts at byte
    [pos] of [packed], in the order of [ad_refs]. *)
Definition stored_offsets (packed : list Z) (pos : Z) : list Z :=
  map (fun k => wire_int packed (pos + k)) ref_fields.

(** What a pack specification says of a pack function: on any buffer with
    room below [n], it succeeds, overwrites exactly [data] at the position
    and advances the position past it. *)
Definition packs_to (m : Comp packbuf status unit) (n : Z) (data : list Z) : Prop :=
  forall bytes pos,
    0 <= pos -> pos + zlen data <= n -> n <= zlen bytes ->
    m {| pk_bytes := bytes; pk_pos := pos |}
    = (inr tt, {| pk_bytes := write bytes pos data; pk_pos := pos + zlen data |}).

(** What an unpack specification says of an unpack function: on any buffer
    that holds [data] at the position, with no allocation failure ahead, it
    returns [a] and advances the position past [data]. *)
Definition unpacks_to (A : Type) (bytes : list Z) (n : Z)
    (m : Comp unpackst status A) (data : list Z) (a : A) : Prop :=
  forall pos h rest,
    0 <= pos -> skipn (Z.to_nat pos) bytes = data ++ rest ->
    pos + zlen data <= n -> n <= zlen bytes -> no_fault h ->
    exists h', m {| up_pos := pos; up_heap := h |}
               = (inr a, {| up_pos := pos + zlen data; up_heap := h' |})
               /\ no_fault h'.

(** What the failing side of a pack specification says: without room for
    [data] below [n], the pack function returns an error status. *)
Definition overflows (m : Comp packbuf status unit) (n : Z) (data : list Z) : Prop :=
  forall bytes pos,
    0 <= pos -> n <= zlen bytes -> n < pos + zlen data ->
    exists e b, m {| pk_bytes := bytes; pk_pos := pos |} = (inl e, b).

(** ** Relations between the state before and after a computation *)

(** [m] takes every state to one related to it by [R], however it ends. *)
Definition respects {S E A} (R : S -> S -> Prop) (m : Comp S E A) : Prop :=
  forall s, R s (snd (m s)).

(** A pack function never changes the length of the buffer. *)
Definition same_length (b b' : packbuf) : Prop :=
  zlen (pk_bytes b') = zlen (pk_bytes b).

(** The recorded capacity stays the length of the buffer and does not
    shrink. *)
Definition capacity_grows (w w' : world) : Prop :=
  buffer_ok w -> buffer_ok w' /\ nalloc w <= nalloc w'.

(** The capacity is unchanged and every message sent in between is as long
    as the whole buffer. *)
Definition sends_whole_buffer (w w' : world) : Prop :=
  buffer_ok w ->
  buffer_ok w' /\ nalloc w' = nalloc w
  /\ exists new, sent w' = sent w ++ new
                 /\ Forall (fun m => zlen (msg_data m) = nalloc w) new.

(** Nothing the caller can see of its buffer, of the messages it sent or
    of the live collections has changed. *)
Definition quiet (w w' : world) : Prop :=
  buf w' = buf w /\ nalloc w' = nalloc w /\ sent w' = sent w
  /\ th_live w' = th_live w.

(** As many P7_TOPHITS objects are live after as before. *)
Definition same_live (w w' : world) : Prop := th_live w' = th_live w.

(** [m] never ends with the error [bad]. *)
Definition never_throws {S E A} (bad : E) (m : Comp S E A) : Prop :=
  forall s, fst (m s) <> inl bad.

(** ** What a pack or unpack step touches *)

(** Whenever the unpack step [m] returns a value [a], it has moved the
    position forward by exactly [size a] bytes; and if it read anything, it
    started at a position that is not negative and stayed within the first
    [n] bytes. *)
Definition reads {A : Type} (n : Z) (m : Comp unpackst status A) (size : A -> Z) : Prop :=
  forall s a s',
    m s = (inr a, s') ->
    up_pos s' = up_pos s + size a /\ 0 <= size a
    /\ (0 < size a -> 0 <= up_pos s /\ up_pos s' <= n).

(** From [b] to [b'] the buffer kept its length, the bytes from [n] on are
    untouched, the position did not move back, and the bytes before the
    starting position are untouched. *)
Definition writes_within (n : Z) (b b' : packbuf) : Prop :=
  zlen (pk_bytes b') = zlen (pk_bytes b)
  /\ skipn (Z.to_nat n) (pk_bytes b') = skipn (Z.to_nat n) (pk_bytes b)
  /\ (0 <= pk_pos b ->
      pk_pos b <= pk_pos b'
      /\ firstn (Z.to_nat (pk_pos b)) (pk_bytes b')
         = firstn (Z.to_nat (pk_pos b)) (pk_bytes b)).

(** Whenever the pack step [m] succeeds, it leaves the position at most at
    [n]. *)
Definition stops_below (n : Z) (m : Comp packbuf status unit) : Prop :=
  forall b u b', m b = (inr u, b') -> pk_pos b' <= n.

(** ** Messages of a transfer *)

(** The records of a transfer, in the order in which they are sent: a hit
    is its own record followed by one record for each of its domains; a
    collection is its envelope followed by the records of its hits. *)
Definition hit_frames (h : P7_HIT) : list (list Z) :=
  hit_wire h :: map dcl_wire (hit_dcl h).

Definition tophits_frames (th : P7_TOPHITS) : list (list Z) :=
  envelope_wire th :: flat_map hit_frames (th_unsrt th).

(** The message [m] starts with the record [frame]: the send functions send
    the whole working buffer, so the record is followed by whatever the
    buffer held behind it. *)
Definition carries (frame : list Z) (m : message) : Prop :=
  firstn (length frame) (msg_data m) = frame.

(** The message [m] as the receiver finds it: a sender addresses a message
    to a rank, the receiver sees the rank [src] it came from. *)
Definition delivered (src : Z) (m : message) : message :=
  {| msg_peer := src; msg_tag := msg_tag m; msg_data := msg_data m |}.

(** The message [m] carries the rank [p] and the tag [t]. *)
Definition same_origin (p t : Z) (m : message) : Prop :=
  msg_peer m = p /\ msg_tag m = t.

(** A receive that asks for [source] and [tag] takes a message from rank
    [p] with tag [t]: each of the two is the one asked for, or any was
    asked for. *)
Definition accepts (source tag p t : Z) : Prop :=
  (tag = MPI_ANY_TAG \/ t = tag) /\ (source = MPI_ANY_SOURCE \/ p = source).

(** The same of a message [m]: it passes the two tests that follow
    MPI_Probe in the receive functions. *)
Definition from_peer (source tag : Z) (m : message) : Prop :=
  (tag = MPI_ANY_TAG \/ msg_tag m = tag) /\ (source = MPI_ANY_SOURCE \/ msg_peer m = source).

(** A process whose buffer is as long as its recorded capacity and for
    which no allocation, MPI_Probe or MPI_Recv fails. *)
Definition ready (w : world) : Prop :=
  buffer_ok w /\ no_fault (heap w) /\ channel_ok w.

(** The next [c] calls of MPI_Send succeed; the calls before the one of
    index [k] succeed and that one fails. *)
Definition clear_for (c : nat) (l : list bool) : Prop :=
  Forall (fun b => b = true) (firstn c l).


(** From [w] to [w'] the process only sent messages, all of them to [dest]
    with [tag]: its channel and its live collections are as before. *)
Definition sends_to (dest tag : Z) (w w' : world) : Prop :=
  inbox w' = inbox w /\ th_live w' = th_live w
  /\ exists new, sent w' = sent w ++ new /\ Forall (same_origin dest tag) new.

(** From [w] to [w'] the process sent nothing and tried no send. *)
Definition sends_nothing (w w' : world) : Prop :=
  sent w' = sent w /\ link w' = link w.

(** The hit counts as many domains as it holds. *)
Definition consistent_hit (h : P7_HIT) : Prop := hit_ndom h = zlen (hit_dcl h).

(** From [w] to [w'] the process took exactly the first [k] messages of its
    channel. *)
Definition consumed (k : nat) (w w' : world) : Prop :=
  exists taken, inbox w = taken ++ inbox w' /\ length taken = k.

(** ** Sample records *)

(** A display with two lines in an eight-byte pool: "ACGT" at 0 (the
    aligned sequence) and "xy" at 5 (the model line). *)
Definition sample_ad : P7_ALIDISPLAY :=
  {| ad_rfline := None; ad_mmline := None; ad_csline := None;
     ad_model := Some 5; ad_mline := None; ad_aseq := Some 0; ad_ppline := None;
     ad_N := 4;
     ad_hmmname := None; ad_hmmacc := None; ad_hmmdesc := None;
     ad_hmmfrom := 1; ad_hmmto := 4; ad_M := 10;
     ad_sqname := None; ad_sqacc := None; ad_sqdesc := None;
     ad_sqfrom := 7; ad_sqto := 10; ad_L := 100;
     ad_memsize := 8;
     ad_mem := Some [65; 67; 71; 84; 0; 120; 121; 0] |}.

Definition sample_dcl : P7_DOMAIN :=
  {| dcl_ienv := 5; dcl_jenv := 12; dcl_iali := 7; dcl_jali := 10;
     dcl_envsc := 1078530011; dcl_domcorrection := 0; dcl_dombias := 0;
     dcl_oasc := 1065353216; dcl_bitscore := 1092616192;
     dcl_lnP := 13826050856027422720;
     dcl_is_reported := 1; dcl_is_included := 0;
     dcl_ad := sample_ad |}.

(** A display with an empty pool and no line. *)
Definition empty_ad : P7_ALIDISPLAY :=
  {| ad_rfline := None; ad_mmline := None; ad_csline := None;
     ad_model := None; ad_mline := None; ad_aseq := None; ad_ppline := None;
     ad_N := 0;
     ad_hmmname := None; ad_hmmacc := None; ad_hmmdesc := None;
     ad_hmmfrom := 0; ad_hmmto := 0; ad_M := 0;
     ad_sqname := None; ad_sqacc := None; ad_sqdesc := None;
     ad_sqfrom := 0; ad_sqto := 0; ad_L := 0;
     ad_memsize := 0;
     ad_mem := Some [] |}.

Definition empty_dcl : P7_DOMAIN :=
  {| dcl_ienv := 0; dcl_jenv := 0; dcl_iali := 0; dcl_jali := 0;
     dcl_envsc := 0; dcl_domcorrection := 0; dcl_dombias := 0;
     dcl_oasc := 0; dcl_bitscore := 0;
     dcl_lnP := 0;
     dcl_is_reported := 0; dcl_is_included := 0;
     dcl_ad := empty_ad |}.

(** A hit named "hit1", without accession, described as "d", with one
    domain. *)
Definition sample_hit : P7_HIT :=
  {| hit_name := Some [104; 105; 116; 49]; hit_acc := None; hit_desc := Some [100];
     hit_sortkey := 4621819117588971520;
     hit_score := 1092616192; hit_pre_score := 1093664768; hit_sum_score := 1092616192;
     hit_lnP := 13826050856027422720; hit_pre_lnP := 13826050856027422720;
     hit_sum_lnP := 13826050856027422720;
     hit_nexpected := 1065353216;
     hit_nregions := 1; hit_nclustered := 0; hit_noverlaps := 0;
     hit_nenvelopes := 1; hit_ndom := 1;
     hit_flags := 3; hit_nreported := 1; hit_nincluded := 0;
     hit_best_domain := 0;
     hit_dcl := [sample_dcl] |}.

(** A hit with a 100-character name and no domain. *)
Definition long_name_hit : P7_HIT :=
  {| hit_name := Some (repeat 65 100); hit_acc := None; hit_desc := None;
     hit_sortkey := 0;
     hit_score := 0; hit_pre_score := 0; hit_sum_score := 0;
     hit_lnP := 0; hit_pre_lnP := 0; hit_sum_lnP := 0;
     hit_nexpected := 0;
     hit_nregions := 0; hit_nclustered := 0; hit_noverlaps := 0;
     hit_nenvelopes := 0; hit_ndom := 0;
     hit_flags := 0; hit_nreported := 0; hit_nincluded := 0;
     hit_best_domain := 0;
     hit_dcl := [] |}.

(** Two hits without domains; the second has the longer name. *)
Definition two_hits : P7_TOPHITS :=
  {| th_unsrt := [blank_hit; long_name_hit]; th_N := 2;
     th_nreported := 2; th_nincluded := 1 |}.

(** One hit with one domain. *)
Definition one_hit : P7_TOPHITS :=
  {| th_unsrt := [sample_hit]; th_N := 1; th_nreported := 1; th_nincluded := 0 |}.

(** A collection without hits. *)
Definition no_hits : P7_TOPHITS :=
  {| th_unsrt := []; th_N := 0; th_nreported := 0; th_nincluded := 0 |}.

(** A process that owns no buffer yet, with an empty channel and an
    environment in which nothing fails. *)
Definition fresh_world : world :=
  {| buf := None; nalloc := 0; inbox := []; sent := [];
     heap := []; link := []; probes := []; recvs := [];
     junk := fun _ => 170; th_live := 0 |}.

(** A message from rank 4 with tag 7, and a process that asked for rank 3
    and finds that message at the head of its channel. *)
Definition stray_message : message :=
  {| msg_peer := 4; msg_tag := 7; msg_data := [] |}.

Definition stray_world : world := set_inbox [stray_message] fresh_world.

(** The envelope of [one_hit] from rank 3, followed by the stray message. *)
Definition crossed_world : world :=
  set_inbox [ {| msg_peer := 3; msg_tag := 7; msg_data := envelope_wire one_hit |};
              stray_message ] fresh_world.

(** The envelope of [no_hits] from rank 0, alone in the channel. *)
Definition envelope_world : world :=
  set_inbox [ {| msg_peer := 0; msg_tag := 7; msg_data := envelope_wire no_hits |} ]
            fresh_world.

(** The same process once it owns a buffer of 300 bytes. *)
Definition roomy_world : world :=
  set_nalloc 300 (set_buf (Some (repeat 0 300)) fresh_world).

(** The three messages (envelope, hit, domain) a successful transfer of
    [one_hit] emits from a process with a roomy buffer, and a receiver that
    finds them in its channel, with the allocator answering [h]. *)
Definition one_hit_messages : list message :=
  sent (snd (p7_tophits_MPISend one_hit 3 7 tt roomy_world)).

Definition receiver (h : list bool) (msgs : list message) : world :=
  set_heap h (set_inbox msgs fresh_world).

(** What a caller sees of p7_tophits_MPIRecv: how it ended, the number of
    hits handed back, and the live collections left behind. *)
Definition recv_outcome (w : world) : (abort + status * option Z) * Z :=
  let r := p7_tophits_MPIRecv MPI_ANY_SOURCE MPI_ANY_TAG tt w in
  (match fst r with
   | inl e => inl e
   | inr (st, th) => inr (st, option_map th_N th)
   end, th_live (snd r)).

(** A receiver that owns a buffer of 300 zero bytes and finds the transfer
    of [one_hit] in its channel, with MPI_Recv answering [r]: [false] is a
    call that fails and delivers nothing. *)
Definition deaf_world (r : list bool) : world :=
  set_recvs r (set_inbox one_hit_messages roomy_world).

(** What p7_tophits_MPIRecv returns: the status, [*ret_th], and the names
    of the hits of the collection handed back. *)
Definition recv_result (w : world) : abort + status * option P7_TOPHITS :=
  fst (p7_tophits_MPIRecv MPI_ANY_SOURCE MPI_ANY_TAG tt w).

Definition hit_names (th : P7_TOPHITS) : list (option (list Z)) :=
  map hit_name (th_unsrt th).

(** A message cut down to its first [k] bytes. *)
Definition truncated (k : nat) (m : message) : message :=
  {| msg_peer := msg_peer m; msg_tag := msg_tag m; msg_data := firstn k (msg_data m) |}.

(** Two hits of which the first is the largest record of the transfer: it
    has the 100-character name, the second is [sample_hit] with its
    domain. *)
Definition long_first : P7_TOPHITS :=
  {| th_unsrt := [long_name_hit; sample_hit]; th_N := 2;
     th_nreported := 2; th_nincluded := 1 |}.


(** A receiver without a buffer that finds the transfer of [one_hit] in its
    channel and whose first allocation fails. *)
Definition starved_world : world :=
  set_heap [false] (set_inbox one_hit_messages fresh_world).

(** A receiver whose buffer still holds the record of [sample_dcl] from an
    earlier transfer, and that finds an empty message in its channel. *)
Definition stale_world : world :=
  set_inbox [ {| msg_peer := 3; msg_tag := 7; msg_data := [] |} ]
    (set_nalloc 156 (set_buf (Some (dcl_wire sample_dcl)) fresh_world)).

(** A receiver that finds the transfer of [one_hit] with every message cut
    down to 20 bytes. *)
Definition clipped_world : world :=
  receiver [] (map (truncated 20) one_hit_messages).

(** The envelope and the hit message of the transfer of [one_hit], followed
    by the stray message where the domain message is due. *)
Definition late_stray_world : world :=
  set_inbox (firstn 2 one_hit_messages ++ [stray_message]) fresh_world.

(** * Properties *)

Unset Implicit Arguments.

(** ** Lists and byte strings *)

Lemma zlen_app {A : Type} (l l' : list A) : zlen (l ++ l') = zlen l + zlen l'.
Proof. unfold zlen. rewrite length_app. lia. Qed.

Lemma zlen_nonneg {A : Type} (l : list A) : 0 <= zlen l.
Proof. unfold zlen. lia. Qed.

Lemma length_le_bytes (k : nat) (x : Z) : length (le_bytes k x) = k.
Proof. revert x. induction k; intros; simpl; auto. Qed.

Lemma le_val_le_bytes (k : nat) (x : Z) :
  le_val (le_bytes k x) = x mod 256 ^ Z.of_nat k.
Proof.
  revert x. induction k as [|k IH]; intros x.
  - simpl. now rewrite Z.mod_1_r.
  - cbn [le_bytes le_val]. rewrite IH.
    rewrite Nat2Z.inj_succ, Z.pow_succ_r by lia.
    rewrite Z.rem_mul_r by lia. reflexivity.
Qed.

Lemma length_encode (t : MPI_Datatype) (vs : list Z) :
  length (encode t vs) = (type_size t * length vs)%nat.
Proof.
  unfold encode. induction vs as [|v vs IH]; simpl.
  - lia.
  - rewrite length_app, length_le_bytes, IH. lia.
Qed.

Lemma zlen_encode (t : MPI_Datatype) (vs : list Z) :
  zlen (encode t vs) = Z.of_nat (type_size t) * zlen vs.
Proof. unfold zlen. rewrite length_encode. lia. Qed.

Lemma decode_encode (t : MPI_Datatype) (vs rest : list Z) :
  decode t (length vs) (encode t vs ++ rest)
  = map (fun v => v mod 256 ^ Z.of_nat (type_size t)) vs.
Proof.
  unfold encode. induction vs as [|v vs IH]; simpl; auto.
  rewrite <- app_assoc.
  rewrite firstn_app, length_le_bytes, Nat.sub_diag, firstn_O, app_nil_r.
  rewrite firstn_all2 by (rewrite length_le_bytes; lia).
  rewrite skipn_app, length_le_bytes, Nat.sub_diag, skipn_O.
  rewrite skipn_all2 by (rewrite length_le_bytes; lia).
  simpl. now rewrite le_val_le_bytes, IH.
Qed.

Lemma sint_wrap (bits x : Z) :
  0 < bits -> - 2 ^ (bits - 1) <= x < 2 ^ (bits - 1) -> sint bits x = x.
Proof.
  intros Hb Hx. unfold sint.
  assert (Hp : 2 ^ bits = 2 * 2 ^ (bits - 1)).
  { replace bits with (Z.succ (bits - 1)) at 1 by lia. apply Z.pow_succ_r. lia. }
  destruct (Z_lt_le_dec x 0) as [Hneg|Hpos].
  - assert (Hm : x mod 2 ^ bits = x + 2 ^ bits).
    { symmetry. apply Z.mod_unique with (q := -1); lia. }
    rewrite Hm. destruct (Z.ltb_spec (x + 2 ^ bits) (2 ^ (bits - 1))); lia.
  - rewrite Z.mod_small by lia.
    destruct (Z.ltb_spec x (2 ^ (bits - 1))); lia.
Qed.

Lemma in_range_spec (lo hi x : Z) : in_range lo hi x = true <-> lo <= x < hi.
Proof. unfold in_range. rewrite andb_true_iff, Z.leb_le, Z.ltb_lt. tauto. Qed.

Lemma int_ok_sint (x : Z) : int_ok x = true -> sint 32 (x mod 256 ^ 4) = x.
Proof.
  intros H. apply in_range_spec in H.
  transitivity (sint 32 x).
  - unfold sint. change (256 ^ 4) with (2 ^ 32). now rewrite Z.mod_mod by lia.
  - apply sint_wrap; simpl; lia.
Qed.

Lemma long_ok_sint (x : Z) : long_ok x = true -> sint 64 (x mod 256 ^ 8) = x.
Proof.
  intros H. apply in_range_spec in H.
  transitivity (sint 64 x).
  - unfold sint. change (256 ^ 8) with (2 ^ 64). now rewrite Z.mod_mod by lia.
  - apply sint_wrap; simpl; lia.
Qed.

Lemma float_ok_raw (x : Z) : float_ok x = true -> x mod 256 ^ 4 = x.
Proof. intros H. apply in_range_spec in H. apply Z.mod_small. simpl in *. lia. Qed.

Lemma double_ok_raw (x : Z) : double_ok x = true -> x mod 256 ^ 8 = x.
Proof. intros H. apply in_range_spec in H. apply Z.mod_small. simpl in *. lia. Qed.

Lemma bytes_ok_raw (l : list Z) :
  forallb byte_ok l = true -> map (fun v => v mod 256 ^ 1) l = l.
Proof.
  induction l as [|b l IH]; cbn [map forallb]; auto.
  rewrite andb_true_iff. intros [Hb Hl].
  apply in_range_spec in Hb. rewrite IH by assumption.
  f_equal. apply Z.mod_small. simpl. lia.
Qed.

(** ** Writing into a buffer *)

Lemma length_write (bytes : list Z) (pos : Z) (data : list Z) :
  0 <= pos -> pos + zlen data <= zlen bytes ->
  length (write bytes pos data) = length bytes.
Proof.
  unfold write, zlen. intros Hp Hfit.
  rewrite !length_app, length_firstn, length_skipn. lia.
Qed.

Lemma zlen_write (bytes : list Z) (pos : Z) (data : list Z) :
  0 <= pos -> pos + zlen data <= zlen bytes ->
  zlen (write bytes pos data) = zlen bytes.
Proof. intros. unfold zlen. now rewrite length_write. Qed.

Lemma skipn_write (bytes : list Z) (pos : Z) (data : list Z) :
  0 <= pos -> pos + zlen data <= zlen bytes ->
  skipn (Z.to_nat pos) (write bytes pos data)
  = data ++ skipn (Z.to_nat pos + length data) bytes.
Proof.
  unfold write, zlen. intros Hp Hfit.
  rewrite skipn_app, length_firstn.
  rewrite skipn_all2 by (rewrite length_firstn; lia).
  replace (Z.to_nat pos - Nat.min (Z.to_nat pos) (length bytes))%nat with 0%nat by lia.
  reflexivity.
Qed.

Lemma firstn_write (bytes : list Z) (pos : Z) (data : list Z) :
  0 <= pos -> pos + zlen data <= zlen bytes ->
  firstn (Z.to_nat pos + length data) (write bytes pos data)
  = firstn (Z.to_nat pos) bytes ++ data.
Proof.
  unfold write, zlen. intros Hp Hfit.
  rewrite app_assoc, firstn_app.
  rewrite length_app, length_firstn.
  replace (Z.to_nat pos + length data
           - (Nat.min (Z.to_nat pos) (length bytes) + length data))%nat with 0%nat by lia.
  rewrite firstn_O, app_nil_r.
  apply firstn_all2. rewrite length_app, length_firstn. lia.
Qed.

Lemma skipn_write_past (bytes : list Z) (pos : Z) (data : list Z) (k : nat) :
  0 <= pos -> pos + zlen data <= zlen bytes ->
  skipn (Z.to_nat pos + length data + k) (write bytes pos data)
  = skipn (Z.to_nat pos + length data + k) bytes.
Proof.
  unfold write, zlen. intros Hp Hfit.
  rewrite app_assoc, skipn_app.
  rewrite skipn_all2 by (rewrite length_app, length_firstn; lia).
  rewrite length_app, length_firstn, skipn_skipn. simpl.
  f_equal. lia.
Qed.

Lemma write_write (bytes : list Z) (pos : Z) (a b : list Z) :
  0 <= pos -> pos + zlen a <= zlen bytes ->
  write (write bytes pos a) (pos + zlen a) b = write bytes pos (a ++ b).
Proof.
  intros Hp Hfit.
  unfold write at 1.
  replace (Z.to_nat (pos + zlen a)) with (Z.to_nat pos + length a)%nat
    by (unfold zlen; lia).
  rewrite firstn_write, skipn_write_past by assumption.
  unfold write. rewrite <- !app_assoc, length_app.
  now rewrite Nat.add_assoc.
Qed.

Lemma write_nil (bytes : list Z) (pos : Z) : write bytes pos [] = bytes.
Proof. unfold write. simpl. rewrite Nat.add_0_r. apply firstn_skipn. Qed.

(** ** Pack functions write the wire format *)

Lemma packs_to_bind (m1 m2 : Comp packbuf status unit) (n : Z) (d1 d2 : list Z) :
  packs_to m1 n d1 -> packs_to m2 n d2 -> packs_to (m1 ;;; m2) n (d1 ++ d2).
Proof.
  intros H1 H2 bytes pos Hp Hfit Hn.
  rewrite zlen_app in Hfit. pose proof (zlen_nonneg d1). pose proof (zlen_nonneg d2).
  unfold bind. rewrite H1 by lia.
  rewrite H2 by (try rewrite zlen_write; lia).
  rewrite write_write by lia.
  now rewrite zlen_app, Z.add_assoc.
Qed.

Lemma packs_to_check (n : Z) : packs_to (check_overflow n) n [].
Proof.
  intros bytes pos Hp Hfit Hn. unfold check_overflow, zlen in *. simpl in *.
  destruct (Z.gtb_spec pos n); [lia|].
  now rewrite write_nil, Z.add_0_r.
Qed.

Lemma packs_to_MPI_Pack (inbuf : list Z) (incount : Z) (t : MPI_Datatype)
    (n : Z) (comm : MPI_Comm) :
  incount = zlen inbuf ->
  packs_to (MPI_Pack inbuf incount t n comm) n (encode t inbuf).
Proof.
  intros -> bytes pos Hp Hfit Hn. unfold MPI_Pack. cbn [pk_bytes pk_pos].
  replace (firstn (Z.to_nat (zlen inbuf)) inbuf) with inbuf
    by (unfold zlen; rewrite Nat2Z.id; symmetry; apply firstn_all).
  pose proof (zlen_nonneg inbuf).
  repeat match goal with
         | |- context [?a <=? ?b] => destruct (Z.leb_spec a b); [|lia]
         end.
  reflexivity.
Qed.

Lemma packs_to_opt (s : option (list Z)) (n : Z) (comm : MPI_Comm) :
  packs_to (esl_mpi_PackOpt s n comm) n (opt_wire s).
Proof.
  destruct s as [l|]; unfold esl_mpi_PackOpt, opt_wire.
  - repeat apply packs_to_bind; now apply packs_to_MPI_Pack.
  - now apply packs_to_MPI_Pack.
Qed.

Lemma p7_hit_MPIPack_wire (h : P7_HIT) (n : Z) (comm : MPI_Comm) :
  packs_to (p7_hit_MPIPack h n comm) n (hit_wire h).
Proof.
  unfold p7_hit_MPIPack, hit_wire. cbn [concat].
  repeat (apply packs_to_bind;
          [first [now apply packs_to_MPI_Pack | apply packs_to_opt]|]).
  apply packs_to_check.
Qed.

Lemma p7_dcl_MPIPack_wire (d : P7_DOMAIN) (n : Z) (comm : MPI_Comm) :
  ad_memsize (dcl_ad d) = zlen (pool_bytes (ad_mem (dcl_ad d))) ->
  packs_to (p7_dcl_MPIPack d n comm) n (dcl_wire d).
Proof.
  intros Hmem. unfold p7_dcl_MPIPack, dcl_wire. cbn [concat].
  repeat (apply packs_to_bind; [now apply packs_to_MPI_Pack|]).
  apply packs_to_check.
Qed.

Lemma envelope_pack_wire (th : P7_TOPHITS) (n : Z) (comm : MPI_Comm) :
  packs_to (MPI_Pack [th_N th] 1 MPI_LONG_LONG_INT n comm ;;;
            MPI_Pack [th_nreported th] 1 MPI_LONG_LONG_INT n comm ;;;
            MPI_Pack [th_nincluded th] 1 MPI_LONG_LONG_INT n comm)
           n (envelope_wire th).
Proof.
  unfold envelope_wire. repeat apply packs_to_bind; now apply packs_to_MPI_Pack.
Qed.

(** ** Unpack functions read the wire format *)

Section Unpack.
Variables (bytes : list Z) (n : Z) (comm : MPI_Comm).

Lemma unpacks_bind {A B : Type} (m : Comp unpackst status A)
    (f : A -> Comp unpackst status B) (d1 d2 : list Z) (a : A) (b : B) :
  unpacks_to bytes n m d1 a -> unpacks_to bytes n (f a) d2 b ->
  unpacks_to bytes n (bind m f) (d1 ++ d2) b.
Proof.
  intros H1 H2 pos h rest Hp Hdata Hfit Hn Hh.
  rewrite zlen_app in Hfit. pose proof (zlen_nonneg d1). pose proof (zlen_nonneg d2).
  rewrite <- app_assoc in Hdata.
  destruct (H1 pos h (d2 ++ rest)) as (h1 & E1 & Hh1); try assumption; try lia.
  destruct (H2 (pos + zlen d1) h1 rest) as (h2 & E2 & Hh2); try assumption; try lia.
  { replace (Z.to_nat (pos + zlen d1)) with (length d1 + Z.to_nat pos)%nat
      by (unfold zlen; lia).
    rewrite <- skipn_skipn, Hdata, skipn_app, Nat.sub_diag, skipn_all. reflexivity. }
  exists h2. split; [|assumption].
  unfold bind. rewrite E1, E2, zlen_app. now rewrite Z.add_assoc.
Qed.

Lemma unpacks_then {A B : Type} (m : Comp unpackst status A)
    (f : A -> Comp unpackst status B) (d : list Z) (a : A) (b : B) :
  unpacks_to bytes n m [] a -> unpacks_to bytes n (f a) d b ->
  unpacks_to bytes n (bind m f) d b.
Proof. intros H1 H2. change d with ([] ++ d). eapply unpacks_bind; eassumption. Qed.

Lemma unpacks_ret {A : Type} (a : A) : unpacks_to bytes n (ret a) [] a.
Proof.
  intros pos h rest Hp Hdata Hfit Hn Hh. exists h. split; [|assumption].
  unfold ret. simpl. now rewrite Z.add_0_r.
Qed.

Lemma unpacks_MPI_Unpack (vs : list Z) (t : MPI_Datatype) :
  unpacks_to bytes n (MPI_Unpack bytes n (zlen vs) t comm) (encode t vs)
             (map (fun v => v mod 256 ^ Z.of_nat (type_size t)) vs).
Proof.
  intros pos h rest Hp Hdata Hfit Hn Hh. exists h. split; [|assumption].
  unfold MPI_Unpack. cbn [up_pos up_heap].
  rewrite zlen_encode in Hfit. pose proof (zlen_nonneg vs).
  replace (zlen vs * Z.of_nat (type_size t)) with (Z.of_nat (type_size t) * zlen vs) by lia.
  repeat match goal with
         | |- context [?a <=? ?b] => destruct (Z.leb_spec a b); [|lia]
         end.
  cbn [andb]. rewrite Hdata. unfold zlen at 1. rewrite Nat2Z.id, decode_encode.
  now rewrite zlen_encode.
Qed.

Lemma unpacks_raw (t : MPI_Datatype) (v : Z) :
  v mod 256 ^ Z.of_nat (type_size t) = v ->
  unpacks_to bytes n (unpack_raw bytes n t comm) (encode t [v]) v.
Proof.
  intros Hv. unfold unpack_raw.
  rewrite <- (app_nil_r (encode t [v])).
  eapply unpacks_bind; [exact (unpacks_MPI_Unpack [v] t)|].
  cbn [map hd]. rewrite Hv. apply unpacks_ret.
Qed.

Lemma unpacks_float (v : Z) :
  float_ok v = true -> unpacks_to bytes n (unpack_raw bytes n MPI_FLOAT comm)
                                  (encode MPI_FLOAT [v]) v.
Proof. intros H. apply unpacks_raw. now apply float_ok_raw. Qed.

Lemma unpacks_double (v : Z) :
  double_ok v = true -> unpacks_to bytes n (unpack_raw bytes n MPI_DOUBLE comm)
                                   (encode MPI_DOUBLE [v]) v.
Proof. intros H. apply unpacks_raw. now apply double_ok_raw. Qed.

Lemma unpacks_uint64 (v : Z) :
  uint64_ok v = true -> unpacks_to bytes n (unpack_raw bytes n MPI_LONG_LONG_INT comm)
                                   (encode MPI_LONG_LONG_INT [v]) v.
Proof. intros H. apply unpacks_raw. now apply double_ok_raw. Qed.

Lemma unpacks_int (v : Z) :
  int_ok v = true ->
  unpacks_to bytes n (unpack_int bytes n comm) (encode MPI_INT [v]) v.
Proof.
  intros Hv. unfold unpack_int, unpack_raw.
  rewrite <- (app_nil_r (encode MPI_INT [v])).
  eapply unpacks_bind.
  - rewrite <- (app_nil_r (encode MPI_INT [v])).
    eapply unpacks_bind; [exact (unpacks_MPI_Unpack [v] MPI_INT)|].
    apply unpacks_ret.
  - cbn [map hd type_size]. change (Z.of_nat 4) with 4.
    rewrite int_ok_sint by assumption. apply unpacks_ret.
Qed.

Lemma unpacks_long (v : Z) :
  long_ok v = true ->
  unpacks_to bytes n (unpack_long bytes n comm) (encode MPI_LONG [v]) v.
Proof.
  intros Hv. unfold unpack_long, unpack_raw.
  rewrite <- (app_nil_r (encode MPI_LONG [v])).
  eapply unpacks_bind.
  - rewrite <- (app_nil_r (encode MPI_LONG [v])).
    eapply unpacks_bind; [exact (unpacks_MPI_Unpack [v] MPI_LONG)|].
    apply unpacks_ret.
  - cbn [map hd type_size]. change (Z.of_nat 8) with 8.
    rewrite long_ok_sint by assumption. apply unpacks_ret.
Qed.

Lemma unpacks_chars (l : list Z) :
  forallb byte_ok l = true ->
  unpacks_to bytes n (MPI_Unpack bytes n (zlen l) MPI_CHAR comm) (encode MPI_CHAR l) l.
Proof.
  intros Hl. pose proof (unpacks_MPI_Unpack l MPI_CHAR) as H.
  cbn [type_size] in H. change (Z.of_nat 1) with 1 in H.
  now rewrite bytes_ok_raw in H.
Qed.

Lemma no_fault_alloc (size : Z) (h : list bool) :
  0 <= size -> no_fault h ->
  exists h', heap_alloc size h = (true, h') /\ no_fault h'.
Proof.
  intros Hs Hh. unfold heap_alloc.
  destruct (Z.ltb_spec size 0); [lia|].
  destruct h as [|b h'].
  - exists []. split; [reflexivity|constructor].
  - inversion Hh; subst. exists h'. split; [reflexivity|assumption].
Qed.

Lemma unpacks_alloc (size : Z) :
  0 <= size -> unpacks_to bytes n (ESL_ALLOC size) [] tt.
Proof.
  intros Hs pos h rest Hp Hdata Hfit Hn Hh.
  destruct (no_fault_alloc size h Hs Hh) as (h' & E & Hh').
  exists h'. split; [|assumption].
  unfold ESL_ALLOC. cbn [up_pos up_heap]. rewrite E. simpl. now rewrite Z.add_0_r.
Qed.
End Unpack.

Ltac split_ok :=
  repeat match goal with
         | H : _ && _ = true |- _ => apply andb_true_iff in H; destruct H
         end.

Lemma string_bytes_ok (l : list Z) :
  forallb (in_range 1 256) l = true -> forallb byte_ok l = true.
Proof.
  induction l as [|b l IH]; cbn [forallb]; auto.
  rewrite !andb_true_iff. intros [Hb Hl]. split; [|auto].
  apply in_range_spec in Hb. apply in_range_spec. lia.
Qed.

Lemma unpacks_opt (bytes : list Z) (n : Z) (comm : MPI_Comm) (s : option (list Z)) :
  string_ok s = true ->
  unpacks_to bytes n (esl_mpi_UnpackOpt bytes n comm) (opt_wire s) s.
Proof.
  intros Hs. unfold esl_mpi_UnpackOpt, opt_wire. destruct s as [l|].
  - cbn [string_ok] in Hs. split_ok.
    eapply unpacks_bind; [now apply unpacks_int|]. cbn [Z.eqb].
    rewrite <- (app_nil_r (encode MPI_CHAR l)).
    eapply unpacks_bind; [now apply unpacks_int|].
    eapply unpacks_then; [apply unpacks_alloc, zlen_nonneg|].
    eapply unpacks_bind; [apply unpacks_chars; now apply string_bytes_ok|].
    apply unpacks_ret.
  - rewrite <- (app_nil_r (encode MPI_INT [0])).
    eapply unpacks_bind; [now apply unpacks_int|]. cbn [Z.eqb].
    apply unpacks_ret.
Qed.

Lemma p7_hit_MPIUnpack_wire (bytes : list Z) (n : Z) (comm : MPI_Comm) (h hit0 : P7_HIT) :
  hit_ok h = true ->
  unpacks_to bytes n (p7_hit_MPIUnpack bytes n comm hit0) (hit_wire h)
             (set_hit_dcl (hit_dcl hit0) h).
Proof.
  intros Hok. unfold hit_ok in Hok. split_ok.
  unfold p7_hit_MPIUnpack, hit_wire, set_hit_dcl. cbn [concat].
  repeat (eapply unpacks_bind;
          [first [apply unpacks_int | apply unpacks_float | apply unpacks_double
                 | apply unpacks_opt]; assumption
          |cbv beta]).
  apply unpacks_ret.
Qed.

Lemma line_ok_int (memsize : Z) (line : option Z) :
  int_ok memsize = true -> line_ok memsize line = true ->
  int_ok (line_offset line) = true.
Proof.
  intros Hm Hl. destruct line as [off|]; [|reflexivity].
  cbn [line_ok line_offset] in *.
  apply in_range_spec in Hm, Hl. apply in_range_spec. lia.
Qed.

Lemma line_view_offset (memsize : Z) (line : option Z) :
  line_ok memsize line = true -> line_view (line_offset line) = line.
Proof.
  intros Hl. destruct line as [off|]; [|reflexivity].
  cbn [line_ok line_offset] in *. apply in_range_spec in Hl.
  unfold line_view. destruct (Z.eqb_spec off (-1)); [lia|reflexivity].
Qed.

Lemma p7_dcl_MPIUnpack_wire (bytes : list Z) (n : Z) (comm : MPI_Comm) (d : P7_DOMAIN) :
  dcl_ok d = true ->
  unpacks_to bytes n (p7_dcl_MPIUnpack bytes n comm) (dcl_wire d) d.
Proof.
  intros Hok. unfold dcl_ok, ad_ok in Hok. cbn [forallb ad_refs] in Hok. split_ok.
  destruct (ad_mem (dcl_ad d)) as [m|] eqn:Em; [|discriminate]. split_ok.
  match goal with H : (zlen m =? _) = true |- _ => apply Z.eqb_eq in H; rename H into Hlen end.
  assert (exists d', unpacks_to bytes n (p7_dcl_MPIUnpack bytes n comm) (dcl_wire d) d'
                     /\ d' = d) as (d' & H' & <-); [|exact H'].
  eexists. split.
  - unfold p7_dcl_MPIUnpack, dcl_wire. cbn [concat]. rewrite Em, <- Hlen in *.
    cbn [pool_bytes].
    eapply unpacks_then; [apply unpacks_alloc; unfold sizeof_P7_ALIDISPLAY; lia|].
    repeat (eapply unpacks_bind;
            [first [apply unpacks_int | apply unpacks_long | apply unpacks_float
                   | apply unpacks_double];
             first [assumption | eapply line_ok_int; eassumption]
            |cbv beta]).
    eapply unpacks_then; [apply unpacks_alloc, zlen_nonneg|].
    eapply unpacks_bind; [now apply unpacks_chars|].
    apply unpacks_ret.
  - repeat match goal with
           | H : line_ok _ ?l = true |- _ =>
               rewrite (line_view_offset _ _ H); clear H
           end.
    rewrite Hlen, <- Em. destruct d as [? ? ? ? ? ? ? ? ? ? ? ? ad]. destruct ad.
    reflexivity.
Qed.

(** ** Round trip *)

Lemma pack_then_unpack (A : Type) (m : Comp packbuf status unit)
    (u : list Z -> Comp unpackst status A) (data : list Z) (a : A)
    (bytes : list Z) (n pos : Z) (h : list bool) :
  packs_to m n data ->
  (forall packed, unpacks_to packed n (u packed) data a) ->
  0 <= pos -> pos + zlen data <= n -> n <= zlen bytes -> no_fault h ->
  exists h',
    m {| pk_bytes := bytes; pk_pos := pos |}
    = (inr tt, {| pk_bytes := write bytes pos data; pk_pos := pos + zlen data |})
    /\ u (write bytes pos data) {| up_pos := pos; up_heap := h |}
       = (inr a, {| up_pos := pos + zlen data; up_heap := h' |})
    /\ no_fault h'.
Proof.
  intros Hm Hu Hp Hfit Hn Hh.
  destruct (Hu (write bytes pos data) pos h
               (skipn (Z.to_nat pos + length data) bytes)) as (h' & E & Hh');
    try assumption.
  - apply skipn_write; lia.
  - rewrite zlen_write; lia.
  - exists h'. repeat split; try assumption. now apply Hm.
Qed.

(** C1. Decoding an encoded record gives the record back: p7_hit_MPIUnpack
    on the output of p7_hit_MPIPack returns every packed hit field and the
    three optional strings as they were (the domain list is not part of the
    hit message and stays as the receiving record has it), and
    p7_dcl_MPIUnpack on the output of p7_dcl_MPIPack returns the domain with
    all its fields, the pool, and each of the thirteen references at the
    same offset or absent as in the original, so that each line has exactly
    the original content. *)
Theorem pack_unpack_roundtrip :
  forall (h hit0 : P7_HIT) (d : P7_DOMAIN) (bytes : list Z) (n pos : Z)
         (comm : MPI_Comm) (hp : list bool),
    hit_ok h = true -> dcl_ok d = true ->
    0 <= pos -> pos + zlen (hit_wire h) <= n -> pos + zlen (dcl_wire d) <= n ->
    n <= zlen bytes -> no_fault hp ->
    (exists packed pos' hp',
        p7_hit_MPIPack h n comm {| pk_bytes := bytes; pk_pos := pos |}
        = (inr tt, {| pk_bytes := packed; pk_pos := pos' |})
        /\ p7_hit_MPIUnpack packed n comm hit0 {| up_pos := pos; up_heap := hp |}
           = (inr (set_hit_dcl (hit_dcl hit0) h), {| up_pos := pos'; up_heap := hp' |}))
    /\ (exists packed pos' hp' d',
           p7_dcl_MPIPack d n comm {| pk_bytes := bytes; pk_pos := pos |}
           = (inr tt, {| pk_bytes := packed; pk_pos := pos' |})
           /\ p7_dcl_MPIUnpack packed n comm {| up_pos := pos; up_heap := hp |}
              = (inr d', {| up_pos := pos'; up_heap := hp' |})
           /\ d' = d
           /\ Forall2 (fun r' r =>
                         match r', r with
                         | None, None => True
                         | Some o', Some o =>
                             o' = o
                             /\ line_at (ad_mem (dcl_ad d')) o'
                                = line_at (ad_mem (dcl_ad d)) o
                         | _, _ => False
                         end)
                      (ad_refs (dcl_ad d')) (ad_refs (dcl_ad d))).
Proof.
  intros h hit0 d bytes n pos comm hp Hh Hd Hp Hfh Hfd Hn Hhp. split.
  - destruct (@pack_then_unpack _ (p7_hit_MPIPack h n comm)
                (fun b => p7_hit_MPIUnpack b n comm hit0) (hit_wire h)
                (set_hit_dcl (hit_dcl hit0) h) bytes n pos hp
                (p7_hit_MPIPack_wire h n comm)
                (fun b => p7_hit_MPIUnpack_wire b n comm h hit0 Hh) Hp Hfh Hn Hhp)
      as (hp' & E1 & E2 & _).
    eauto.
  - assert (Hmem : ad_memsize (dcl_ad d) = zlen (pool_bytes (ad_mem (dcl_ad d)))).
    { unfold dcl_ok, ad_ok in Hd. split_ok.
      destruct (ad_mem (dcl_ad d)); [|discriminate]. split_ok.
      symmetry. now apply Z.eqb_eq. }
    destruct (@pack_then_unpack _ (p7_dcl_MPIPack d n comm)
                (fun b => p7_dcl_MPIUnpack b n comm) (dcl_wire d) d bytes n pos hp
                (p7_dcl_MPIPack_wire d n comm Hmem)
                (fun b => p7_dcl_MPIUnpack_wire b n comm d Hd) Hp Hfd Hn Hhp)
      as (hp' & E1 & E2 & _).
    do 4 eexists. repeat split; try eassumption.
    unfold ad_refs.
    repeat (constructor; [destruct (_ : option Z); auto|]). constructor.
Qed.

Lemma pack_unpack_roundtrip_witness :
  (exists packed pos' hp',
      p7_hit_MPIPack sample_hit 200 tt {| pk_bytes := repeat 0 200; pk_pos := 0 |}
      = (inr tt, {| pk_bytes := packed; pk_pos := pos' |})
      /\ p7_hit_MPIUnpack packed 200 tt blank_hit {| up_pos := 0; up_heap := [] |}
         = (inr (set_hit_dcl [] sample_hit), {| up_pos := pos'; up_heap := hp' |}))
  /\ (exists packed pos' hp',
         p7_dcl_MPIPack sample_dcl 200 tt {| pk_bytes := repeat 0 200; pk_pos := 0 |}
         = (inr tt, {| pk_bytes := packed; pk_pos := pos' |})
         /\ p7_dcl_MPIUnpack packed 200 tt {| up_pos := 0; up_heap := [] |}
            = (inr sample_dcl, {| up_pos := pos'; up_heap := hp' |})).
Proof.
  assert (Hh : hit_ok sample_hit = true) by (vm_compute; reflexivity).
  assert (Hd : dcl_ok sample_dcl = true) by (vm_compute; reflexivity).
  assert (Hp : 0 <= 0) by lia.
  assert (Hfh : 0 + zlen (hit_wire sample_hit) <= 200) by (vm_compute; discriminate).
  assert (Hfd : 0 + zlen (dcl_wire sample_dcl) <= 200) by (vm_compute; discriminate).
  assert (Hn : 200 <= zlen (repeat 0 200)) by (vm_compute; discriminate).
  destruct (pack_unpack_roundtrip sample_hit blank_hit sample_dcl (repeat 0 200) 200 0 tt []
              Hh Hd Hp Hfh Hfd Hn (Forall_nil _))
    as [Hhit (packed & pos' & hp' & d' & E1 & E2 & Ed & _)].
  split; [exact Hhit|]. exists packed, pos', hp'. split; [exact E1|].
  rewrite <- Ed. exact E2.
Defined.

(** ** Sizes *)

Lemma int_add_small (a b : Z) :
  -2147483648 <= a + b <= 2147483647 -> int_add a b = a + b.
Proof.
  intros H. unfold int_add. apply sint_wrap; [lia|].
  change (2 ^ (32 - 1)) with 2147483648. lia.
Qed.

Lemma size_add_spec (c : Z) (t : MPI_Datatype) (comm : MPI_Comm) (n : Z) :
  0 <= c -> 0 <= n -> n + c * Z.of_nat (type_size t) <= INT_MAX ->
  size_add c t comm n = (inr tt, n + c * Z.of_nat (type_size t)).
Proof.
  intros Hc Hn Hfit. unfold size_add, MPI_Pack_size, INT_MAX in *.
  destruct (Z.leb_spec 0 c); [|lia].
  destruct (Z.leb_spec (c * Z.of_nat (type_size t)) 2147483647); [|lia].
  cbn [andb]. rewrite int_add_small; [reflexivity|]. lia.
Qed.

Lemma zlen_opt_wire (s : option (list Z)) :
  zlen (opt_wire s) = match s with None => 4 | Some l => 8 + zlen l end.
Proof.
  destruct s as [l|]; unfold opt_wire; rewrite ?zlen_app, !zlen_encode;
    cbn [type_size]; unfold zlen; cbn [length]; lia.
Qed.

Lemma PackOptSize_spec (s : option (list Z)) (comm : MPI_Comm) (n : Z) :
  0 <= n -> n + zlen (opt_wire s) <= INT_MAX ->
  esl_mpi_PackOptSize s comm n = (inr tt, n + zlen (opt_wire s)).
Proof.
  intros Hn Hfit. rewrite zlen_opt_wire in *. unfold esl_mpi_PackOptSize, INT_MAX in *.
  destruct s as [l|].
  - pose proof (zlen_nonneg l). unfold MPI_Pack_size, INT_MAX. cbn [type_size].
    change (2 * Z.of_nat 4) with 8. change (Z.of_nat 1) with 1. rewrite Z.mul_1_r.
    destruct (Z.leb_spec 0 (zlen l)); [|lia].
    destruct (Z.leb_spec (zlen l) 2147483647); [|lia].
    cbn [andb Z.leb Z.compare Pos.compare Pos.compare_cont].
    rewrite (int_add_small 8 (zlen l)) by lia.
    rewrite int_add_small by lia. reflexivity.
  - unfold MPI_Pack_size, INT_MAX. cbn.
    rewrite int_add_small; [reflexivity|]. lia.
Qed.

Lemma zlen_hit_wire (h : P7_HIT) :
  zlen (hit_wire h)
  = 84 + zlen (opt_wire (hit_name h)) + zlen (opt_wire (hit_acc h))
    + zlen (opt_wire (hit_desc h)).
Proof.
  unfold hit_wire. cbn [concat]. rewrite !zlen_app, !zlen_encode.
  cbn [type_size]. change (zlen (@nil Z)) with 0.
  repeat match goal with |- context [zlen [?x]] => change (zlen [x]) with 1 end.
  lia.
Qed.

Lemma zlen_dcl_wire (d : P7_DOMAIN) :
  zlen (dcl_wire d) = 148 + zlen (pool_bytes (ad_mem (dcl_ad d))).
Proof.
  unfold dcl_wire. cbn [concat]. rewrite !zlen_app, !zlen_encode.
  cbn [type_size]. change (zlen (@nil Z)) with 0.
  repeat match goal with |- context [zlen [?x]] => change (zlen [x]) with 1 end.
  lia.
Qed.

Lemma zlen_envelope_wire (th : P7_TOPHITS) : zlen (envelope_wire th) = 24.
Proof. reflexivity. Qed.

(** p7_hit_MPIPackSize is the exact length of the hit message. *)
Lemma p7_hit_MPIPackSize_exact (h : P7_HIT) (comm : MPI_Comm) :
  zlen (hit_wire h) <= INT_MAX ->
  p7_hit_MPIPackSize h comm = (eslOK, zlen (hit_wire h)).
Proof.
  intros Hfit. rewrite zlen_hit_wire in *.
  pose proof (zlen_nonneg (opt_wire (hit_name h))).
  pose proof (zlen_nonneg (opt_wire (hit_acc h))).
  pose proof (zlen_nonneg (opt_wire (hit_desc h))).
  unfold INT_MAX in *.
  unfold p7_hit_MPIPackSize, size_result, bind.
  repeat (rewrite size_add_spec by (cbn [type_size]; unfold INT_MAX; lia)).
  repeat (rewrite PackOptSize_spec by (cbn [type_size]; unfold INT_MAX; lia)).
  cbn [type_size]. f_equal; lia.
Qed.

(** p7_dcl_MPIPackSize counts sixteen ints of "offset info". *)
Lemma p7_dcl_MPIPackSize_value (d : P7_DOMAIN) (comm : MPI_Comm) :
  0 <= ad_memsize (dcl_ad d) -> 144 + ad_memsize (dcl_ad d) <= INT_MAX ->
  p7_dcl_MPIPackSize d comm = (eslOK, 144 + ad_memsize (dcl_ad d)).
Proof.
  intros Hm Hfit. unfold INT_MAX in *.
  unfold p7_dcl_MPIPackSize, size_result, bind.
  repeat (rewrite size_add_spec by (cbn [type_size]; unfold INT_MAX; lia)).
  cbn [type_size]. f_equal; lia.
Qed.

(** ** Packing without room *)

Lemma overflows_bind (m1 m2 : Comp packbuf status unit) (n : Z) (d1 d2 : list Z) :
  packs_to m1 n d1 -> overflows m1 n d1 -> overflows m2 n d2 ->
  overflows (m1 ;;; m2) n (d1 ++ d2).
Proof.
  intros H1 O1 O2 bytes pos Hp Hn Hover. rewrite zlen_app in Hover.
  pose proof (zlen_nonneg d1). unfold bind.
  destruct (Z_le_gt_dec (pos + zlen d1) n) as [Hfit|Hno].
  - rewrite H1 by lia.
    apply O2; try rewrite zlen_write; lia.
  - destruct (O1 bytes pos) as (e & b & E); try lia.
    rewrite E. eauto.
Qed.

Lemma overflows_MPI_Pack (inbuf : list Z) (incount : Z) (t : MPI_Datatype)
    (n : Z) (comm : MPI_Comm) :
  incount = zlen inbuf ->
  overflows (MPI_Pack inbuf incount t n comm) n (encode t inbuf).
Proof.
  intros -> bytes pos Hp Hn Hover. unfold MPI_Pack. cbn [pk_bytes pk_pos].
  replace (firstn (Z.to_nat (zlen inbuf)) inbuf) with inbuf
    by (unfold zlen; rewrite Nat2Z.id; symmetry; apply firstn_all).
  destruct (Z.leb_spec (pos + zlen (encode t inbuf)) n); [lia|].
  rewrite andb_false_r. cbn [andb]. eauto.
Qed.

Lemma overflows_check (n : Z) : overflows (check_overflow n) n [].
Proof.
  intros bytes pos Hp Hn Hover. unfold check_overflow. cbn [pk_pos].
  change (zlen (@nil Z)) with 0 in Hover.
  destruct (Z.gtb_spec pos n); [eauto|lia].
Qed.

Lemma overflows_opt (s : option (list Z)) (n : Z) (comm : MPI_Comm) :
  overflows (esl_mpi_PackOpt s n comm) n (opt_wire s).
Proof.
  destruct s as [l|]; unfold esl_mpi_PackOpt, opt_wire.
  - repeat (apply overflows_bind;
            [now apply packs_to_MPI_Pack | now apply overflows_MPI_Pack|]).
    now apply overflows_MPI_Pack.
  - now apply overflows_MPI_Pack.
Qed.

Lemma p7_hit_MPIPack_overflows (h : P7_HIT) (n : Z) (comm : MPI_Comm) :
  overflows (p7_hit_MPIPack h n comm) n (hit_wire h).
Proof.
  unfold p7_hit_MPIPack, hit_wire. cbn [concat].
  repeat (apply overflows_bind;
          [first [now apply packs_to_MPI_Pack | apply packs_to_opt]
          |first [now apply overflows_MPI_Pack | apply overflows_opt]|]).
  apply overflows_check.
Qed.

Lemma p7_dcl_MPIPack_overflows (d : P7_DOMAIN) (n : Z) (comm : MPI_Comm) :
  ad_memsize (dcl_ad d) = zlen (pool_bytes (ad_mem (dcl_ad d))) ->
  overflows (p7_dcl_MPIPack d n comm) n (dcl_wire d).
Proof.
  intros Hmem. unfold p7_dcl_MPIPack, dcl_wire. cbn [concat].
  repeat (apply overflows_bind;
          [now apply packs_to_MPI_Pack | now apply overflows_MPI_Pack|]).
  apply overflows_check.
Qed.

Lemma dcl_ok_memsize (d : P7_DOMAIN) :
  dcl_ok d = true ->
  ad_memsize (dcl_ad d) = zlen (pool_bytes (ad_mem (dcl_ad d)))
  /\ 0 <= ad_memsize (dcl_ad d) <= INT_MAX
  /\ exists m, ad_mem (dcl_ad d) = Some m.
Proof.
  intros Hd. unfold dcl_ok, ad_ok in Hd. split_ok.
  destruct (ad_mem (dcl_ad d)) as [m|]; [|discriminate]. split_ok.
  match goal with H : (zlen m =? _) = true |- _ => apply Z.eqb_eq in H; rename H into Hlen end.
  match goal with H : int_ok (ad_memsize _) = true |- _ => apply in_range_spec in H end.
  cbn [pool_bytes]. pose proof (zlen_nonneg m). unfold INT_MAX.
  change (2 ^ 31) with 2147483648 in *. repeat split; eauto; lia.
Qed.

(** A hit packs into a buffer of exactly p7_hit_MPIPackSize bytes. *)
Lemma hit_packs_into_its_size (h : P7_HIT) (comm : MPI_Comm) (bytes : list Z) :
  zlen (hit_wire h) <= INT_MAX ->
  zlen bytes = snd (p7_hit_MPIPackSize h comm) ->
  p7_hit_MPIPackSize h comm = (eslOK, zlen (hit_wire h))
  /\ p7_hit_MPIPack h (zlen bytes) comm {| pk_bytes := bytes; pk_pos := 0 |}
     = (inr tt, {| pk_bytes := hit_wire h; pk_pos := zlen bytes |}).
Proof.
  intros Hfit Hlen. rewrite p7_hit_MPIPackSize_exact in * by assumption.
  cbn [snd] in Hlen. split; [reflexivity|].
  rewrite p7_hit_MPIPack_wire by lia.
  assert (Hw : write bytes 0 (hit_wire h) = hit_wire h).
  { unfold write. cbn [Z.to_nat firstn Nat.add app].
    rewrite skipn_all2 by (unfold zlen in *; lia). apply app_nil_r. }
  rewrite Hw, Hlen. reflexivity.
Qed.

(** Every well-formed domain needs four bytes more than p7_dcl_MPIPackSize
    says, and does not pack into a buffer of that size. *)
Lemma dcl_does_not_pack_into_its_size (d : P7_DOMAIN) (comm : MPI_Comm) (bytes : list Z) :
  dcl_ok d = true -> 144 + ad_memsize (dcl_ad d) <= INT_MAX ->
  zlen bytes = snd (p7_dcl_MPIPackSize d comm) ->
  p7_dcl_MPIPackSize d comm = (eslOK, 144 + ad_memsize (dcl_ad d))
  /\ zlen (dcl_wire d) = 148 + ad_memsize (dcl_ad d)
  /\ exists e b, p7_dcl_MPIPack d (zlen bytes) comm {| pk_bytes := bytes; pk_pos := 0 |}
                 = (inl e, b).
Proof.
  intros Hd Hfit Hlen. destruct (dcl_ok_memsize d Hd) as (Hmem & Hrange & _).
  rewrite p7_dcl_MPIPackSize_value in * by lia. cbn [snd] in Hlen.
  rewrite zlen_dcl_wire, <- Hmem. repeat split.
  apply p7_dcl_MPIPack_overflows; try assumption; try lia.
  rewrite zlen_dcl_wire, <- Hmem. lia.
Qed.

(** C2. At the domain without lines and with an empty pool,
    p7_dcl_MPIPackSize returns 144 while p7_dcl_MPIPack writes 148 bytes
    into a buffer with room, and fails in a buffer of exactly 144 bytes;
    the hit size function is exact at the sample hit. *)
Theorem dcl_pack_exceeds_packsize :
  p7_dcl_MPIPackSize empty_dcl tt = (eslOK, 144)
  /\ (let r := p7_dcl_MPIPack empty_dcl 200 tt {| pk_bytes := repeat 0 200; pk_pos := 0 |}
      in (fst r, pk_pos (snd r))) = (inr tt, 148)
  /\ fst (p7_dcl_MPIPack empty_dcl 144 tt {| pk_bytes := repeat 0 144; pk_pos := 0 |})
     = inl eslESYS
  /\ p7_hit_MPIPackSize sample_hit tt = (eslOK, 109)
  /\ (let r := p7_hit_MPIPack sample_hit 109 tt {| pk_bytes := repeat 0 109; pk_pos := 0 |}
      in (fst r, pk_pos (snd r))) = (inr tt, 109).
Proof. vm_compute. repeat split. Qed.

(** C3. For the collection of two hits whose second hit has the longer
    name, the sizing pass of p7_tophits_MPISend settles on 96 bytes, the
    packed size of the first hit, although the second hit packs to 200
    bytes: the envelope and the first hit are sent and the call fails on the
    second hit.  For the collection of one hit with one domain the pass
    settles on 152 bytes although the domain packs to 156, and the call
    fails on the domain. *)
Theorem sizing_pass_misses_largest_record :
  fst (tophits_buffer_size two_hits tt fresh_world) = inr 96
  /\ zlen (hit_wire long_name_hit) = 200
  /\ (let r := p7_tophits_MPISend two_hits 0 7 tt fresh_world in
      (fst r, nalloc (snd r), map (fun m => zlen (msg_data m)) (sent (snd r))))
     = (inl (Throw eslESYS), 96, [96; 96])
  /\ fst (tophits_buffer_size one_hit tt fresh_world) = inr 152
  /\ zlen (dcl_wire sample_dcl) = 156
  /\ (let r := p7_tophits_MPISend one_hit 0 7 tt fresh_world in
      (fst r, nalloc (snd r), map (fun m => zlen (msg_data m)) (sent (snd r))))
     = (inl (Throw eslESYS), 152, [152; 152]).
Proof. vm_compute. repeat split. Qed.

(** ** Relations kept by the monad's combinators *)

Section Respects.
Context {S E : Type} (R : S -> S -> Prop).
Hypothesis R_refl : forall s, R s s.
Hypothesis R_trans : forall s1 s2 s3, R s1 s2 -> R s2 s3 -> R s1 s3.

Lemma respects_ret {A : Type} (a : A) : respects R (@ret S E A a).
Proof. intros s. apply R_refl. Qed.

Lemma respects_throw {A : Type} (e : E) : respects R (@throw S E A e).
Proof. intros s. apply R_refl. Qed.

Lemma respects_get : respects R (@get S E).
Proof. intros s. apply R_refl. Qed.

Lemma respects_bind {A B : Type} (m : Comp S E A) (f : A -> Comp S E B) :
  respects R m -> (forall a, respects R (f a)) -> respects R (bind m f).
Proof.
  intros Hm Hf s. unfold bind. specialize (Hm s).
  destruct (m s) as [[e|a] s']; cbn [snd] in *; [assumption|].
  eapply R_trans; [eassumption|apply Hf].
Qed.

Lemma respects_catch {A B : Type} (m : Comp S E A) (h : E -> Comp S E B)
    (k : A -> Comp S E B) :
  respects R m -> (forall e, respects R (h e)) -> (forall a, respects R (k a)) ->
  respects R (catch m h k).
Proof.
  intros Hm Hh Hk s. unfold catch. specialize (Hm s).
  destruct (m s) as [[e|a] s']; cbn [snd] in *;
    (eapply R_trans; [eassumption|]); [apply Hh|apply Hk].
Qed.

Lemma respects_for_each {A : Type} (l : list A) (body : A -> Comp S E unit) :
  (forall x, respects R (body x)) -> respects R (for_each l body).
Proof.
  intros Hb. induction l as [|x l IH]; cbn [for_each].
  - apply respects_ret.
  - apply respects_bind; auto.
Qed.
End Respects.

Lemma respects_weaken {S E A : Type} (R R' : S -> S -> Prop) (m : Comp S E A) :
  (forall s s', R s s' -> R' s s') -> respects R m -> respects R' m.
Proof. intros H Hm s. apply H, Hm. Qed.

(** ** The relations are preorders *)

Lemma same_length_refl (b : packbuf) : same_length b b.
Proof. reflexivity. Qed.

Lemma same_length_trans (a b c : packbuf) :
  same_length a b -> same_length b c -> same_length a c.
Proof. unfold same_length. congruence. Qed.

Lemma quiet_refl (w : world) : quiet w w.
Proof. unfold quiet. auto. Qed.

Lemma quiet_trans (a b c : world) : quiet a b -> quiet b c -> quiet a c.
Proof. unfold quiet. intuition congruence. Qed.

Lemma capacity_grows_refl (w : world) : capacity_grows w w.
Proof. unfold capacity_grows. intuition lia. Qed.

Lemma capacity_grows_trans (a b c : world) :
  capacity_grows a b -> capacity_grows b c -> capacity_grows a c.
Proof.
  unfold capacity_grows. intros Hab Hbc Ha.
  destruct (Hab Ha) as [Hb ?]. destruct (Hbc Hb). split; [assumption|lia].
Qed.

Lemma same_live_refl (w : world) : same_live w w.
Proof. reflexivity. Qed.

Lemma same_live_trans (a b c : world) : same_live a b -> same_live b c -> same_live a c.
Proof. unfold same_live. congruence. Qed.

Lemma sends_whole_buffer_refl (w : world) : sends_whole_buffer w w.
Proof.
  intros Hw. repeat split; try assumption.
  exists []. split; [now rewrite app_nil_r|constructor].
Qed.

Lemma sends_whole_buffer_trans (a b c : world) :
  sends_whole_buffer a b -> sends_whole_buffer b c -> sends_whole_buffer a c.
Proof.
  intros Hab Hbc Ha.
  destruct (Hab Ha) as (Hb & Hn & new1 & Hs1 & Hf1).
  destruct (Hbc Hb) as (Hc & Hn' & new2 & Hs2 & Hf2).
  repeat split; [assumption|congruence|].
  exists (new1 ++ new2). split.
  - now rewrite Hs2, Hs1, app_assoc.
  - apply Forall_app. split; [assumption|]. now rewrite <- Hn.
Qed.

Lemma quiet_capacity (w w' : world) : quiet w w' -> capacity_grows w w'.
Proof.
  unfold quiet, capacity_grows, buffer_ok. intros (Hb & Hn & _) Hw.
  rewrite Hb, Hn. split; [assumption|lia].
Qed.

Lemma quiet_live (w w' : world) : quiet w w' -> same_live w w'.
Proof. unfold quiet, same_live. tauto. Qed.

Lemma quiet_sends (w w' : world) : quiet w w' -> sends_whole_buffer w w'.
Proof.
  unfold quiet, buffer_ok. intros (Hb & Hn & Hs & _) Hw.
  unfold buffer_ok. rewrite Hb, Hn, Hs. repeat split; try assumption.
  exists []. split; [now rewrite app_nil_r|constructor].
Qed.

Lemma sends_capacity (w w' : world) : sends_whole_buffer w w' -> capacity_grows w w'.
Proof.
  intros H Hw. destruct (H Hw) as (Hw' & Hn & _). split; [assumption|lia].
Qed.

(** ** Pack functions keep the buffer's length *)

Lemma MPI_Pack_same_length (inbuf : list Z) (incount : Z) (t : MPI_Datatype)
    (n : Z) (comm : MPI_Comm) :
  respects same_length (MPI_Pack inbuf incount t n comm).
Proof.
  intros b. unfold MPI_Pack, same_length.
  match goal with |- context [if ?c then _ else _] => destruct c eqn:Hc end;
    cbn [snd pk_bytes]; [|reflexivity].
  rewrite !andb_true_iff, !Z.leb_le in Hc.
  apply zlen_write; lia.
Qed.

Lemma check_overflow_same_length (n : Z) : respects same_length (check_overflow n).
Proof. intros b. unfold check_overflow. destruct (pk_pos b >? n); reflexivity. Qed.

Lemma PackOpt_same_length (s : option (list Z)) (n : Z) (comm : MPI_Comm) :
  respects same_length (esl_mpi_PackOpt s n comm).
Proof.
  destruct s; unfold esl_mpi_PackOpt;
    repeat (apply (respects_bind _ same_length_trans); [|intros _]);
    apply MPI_Pack_same_length.
Qed.

Lemma p7_hit_MPIPack_same_length (h : P7_HIT) (n : Z) (comm : MPI_Comm) :
  respects same_length (p7_hit_MPIPack h n comm).
Proof.
  unfold p7_hit_MPIPack.
  repeat (apply (respects_bind _ same_length_trans);
          [first [apply MPI_Pack_same_length | apply PackOpt_same_length]|intros _]).
  apply check_overflow_same_length.
Qed.

Lemma p7_dcl_MPIPack_same_length (d : P7_DOMAIN) (n : Z) (comm : MPI_Comm) :
  respects same_length (p7_dcl_MPIPack d n comm).
Proof.
  unfold p7_dcl_MPIPack.
  repeat (apply (respects_bind _ same_length_trans);
          [apply MPI_Pack_same_length|intros _]).
  apply check_overflow_same_length.
Qed.

(** ** What the primitives leave alone *)

Lemma unpack_buf_quiet (A : Type) (u : list Z -> Comp unpackst status A) (pos : Z) :
  respects quiet (unpack_buf u pos).
Proof.
  intros w. unfold unpack_buf.
  destruct (u _ _) as [[e|a] s]; cbn; unfold quiet; cbn; auto.
Qed.

Lemma ESL_ALLOC_obj_quiet (size : Z) : respects quiet (ESL_ALLOC_obj size).
Proof.
  intros w. unfold ESL_ALLOC_obj. destruct (heap_alloc _ _) as [ok h].
  cbn; unfold quiet; cbn; auto.
Qed.

Lemma CreateNextHit_quiet (th : P7_TOPHITS) : respects quiet (p7_tophits_CreateNextHit th).
Proof.
  intros w. unfold p7_tophits_CreateNextHit. destruct (heap_alloc _ _) as [[|] h];
    cbn; unfold quiet; cbn; auto.
Qed.

Lemma MPI_Probe_quiet (source tag : Z) (comm : MPI_Comm) :
  respects quiet (MPI_Probe source tag comm).
Proof.
  intros w. unfold MPI_Probe, probe_message.
  destruct (probes w) as [|[st|] p]; cbn; try destruct (inbox _);
    unfold quiet; cbn; auto.
Qed.

Lemma check_peer_quiet (source tag : Z) (st : MPI_Status) :
  respects quiet (check_peer source tag st).
Proof.
  intros w. unfold check_peer.
  repeat match goal with |- context [if ?c then _ else _] => destruct c end;
    apply quiet_refl.
Qed.

Lemma size_of_quiet (r : status * Z) : respects quiet (size_of r).
Proof. intros w. destruct r as [[| | |] n]; apply quiet_refl. Qed.

Lemma tophits_buffer_size_quiet (th : P7_TOPHITS) (comm : MPI_Comm) :
  respects quiet (tophits_buffer_size th comm).
Proof.
  unfold tophits_buffer_size.
  apply (respects_bind _ quiet_trans).
  - destruct (th_N th >? 0); [|apply respects_ret, quiet_refl].
    apply (respects_bind _ quiet_trans); [apply size_of_quiet|intros n].
    destruct (snd (largest_pool th)); [|apply respects_ret, quiet_refl].
    apply (respects_bind _ quiet_trans); [apply size_of_quiet|intros sz].
    apply respects_ret, quiet_refl.
  - intros n. destruct (MPI_Pack_size _ _ _);
      [apply respects_ret|apply respects_throw]; apply quiet_refl.
Qed.

(** ** The wire buffer *)

Lemma zlen_resize (n : Z) (old : list Z) (fill : nat -> Z) :
  0 <= n -> zlen (resize n old fill) = n.
Proof.
  intros Hn. unfold resize, zlen.
  rewrite length_firstn, length_app, length_map, length_seq. lia.
Qed.

Lemma heap_alloc_true (size : Z) (h h' : list bool) :
  heap_alloc size h = (true, h') -> 0 <= size.
Proof.
  unfold heap_alloc. destruct (Z.ltb_spec size 0); [discriminate|lia].
Qed.

(** After the sizing block the capacity is the length of the buffer, has
    not shrunk, and, when the block succeeded, covers the request. *)
Lemma grow_buffer_spec (n : Z) (w : world) :
  buffer_ok w ->
  buffer_ok (snd (grow_buffer n w))
  /\ nalloc w <= nalloc (snd (grow_buffer n w))
  /\ (forall u, fst (grow_buffer n w) = inr u ->
                n <= nalloc (snd (grow_buffer n w))
                /\ buf (snd (grow_buffer n w)) <> None).
Proof.
  intros Hw. unfold grow_buffer, ESL_RALLOC, bind, modify, buffer_ok in *.
  destruct (buf w) as [l|] eqn:Eb; cbn [is_null orb deref] in *.
  - destruct (Z.gtb_spec n (nalloc w)) as [Hgt|Hle].
    + destruct (heap_alloc n (heap w)) as [[|] h] eqn:Ha; cbn.
      * apply heap_alloc_true in Ha. rewrite zlen_resize by assumption.
        repeat split; try lia; discriminate.
      * rewrite Eb. cbn. repeat split; try assumption; try lia; discriminate.
    + cbn. rewrite Eb. cbn. repeat split; try assumption; try lia; discriminate.
  - destruct (heap_alloc n (heap w)) as [[|] h] eqn:Ha; cbn.
    + apply heap_alloc_true in Ha. rewrite zlen_resize by assumption.
      change (zlen (@nil Z)) with 0 in Hw.
      repeat split; try lia; discriminate.
    + rewrite Eb. cbn. repeat split; try assumption; try lia; discriminate.
Qed.

Lemma grow_buffer_capacity (n : Z) : respects capacity_grows (grow_buffer n).
Proof. intros w Hw. destruct (grow_buffer_spec n w Hw) as (? & ? & _). auto. Qed.

(** A request that the buffer already covers changes nothing at all. *)
Lemma grow_buffer_noop (n : Z) (w : world) :
  buf w <> None -> n <= nalloc w -> grow_buffer n w = (inr tt, w).
Proof.
  intros Hb Hn. unfold grow_buffer.
  destruct (buf w) eqn:Eb; [|congruence]. cbn.
  destruct (Z.gtb_spec n (nalloc w)); [lia|reflexivity].
Qed.

Lemma grow_buffer_live (n : Z) : respects same_live (grow_buffer n).
Proof.
  intros w. unfold grow_buffer, ESL_RALLOC, bind, modify.
  destruct (is_null (buf w) || (n >? nalloc w)); [|reflexivity].
  destruct (heap_alloc n (heap w)) as [[|] h]; reflexivity.
Qed.

Lemma pack_buf_sends (p : Comp packbuf status unit) (pos : Z) :
  respects same_length p -> respects sends_whole_buffer (pack_buf p pos).
Proof.
  intros Hp w Hw. unfold pack_buf.
  specialize (Hp {| pk_bytes := deref (buf w); pk_pos := pos |}).
  unfold same_length in Hp. cbn [pk_bytes] in Hp.
  assert (Hlen : zlen (deref (store (buf w)
                   (pk_bytes (snd (p {| pk_bytes := deref (buf w); pk_pos := pos |})))))
                 = nalloc w).
  { unfold buffer_ok in Hw. destruct (buf w) eqn:Eb; cbn in *; congruence. }
  destruct (p _) as [[e|a] b]; cbn in *;
    (repeat split; [exact Hlen|exists []; split; [now rewrite app_nil_r|constructor]]).
Qed.

Lemma MPI_Send_capacity (n dest tag : Z) (comm : MPI_Comm) :
  respects capacity_grows (MPI_Send n dest tag comm).
Proof.
  intros w Hw. unfold MPI_Send.
  destruct (link w) as [|[|] l]; cbn; (split; [exact Hw|lia]).
Qed.

Lemma MPI_Send_whole (dest tag : Z) (comm : MPI_Comm) (w : world) :
  sends_whole_buffer w (snd (MPI_Send (nalloc w) dest tag comm w)).
Proof.
  intros Hw. unfold MPI_Send.
  assert (Hmsg : Forall (fun m => zlen (msg_data m) = nalloc w)
                   [ {| msg_peer := dest; msg_tag := tag;
                        msg_data := firstn (Z.to_nat (nalloc w)) (deref (buf w)) |} ]).
  { constructor; [|constructor]. cbn. unfold buffer_ok, zlen in *.
    rewrite firstn_all2 by lia. assumption. }
  destruct (link w) as [|[|] l]; cbn.
  - repeat split; [assumption|]. eauto.
  - repeat split; [assumption|]. eauto.
  - repeat split; [assumption|]. exists []. split; [now rewrite app_nil_r|constructor].
Qed.

(** ** Sending a record *)

(** The shape p7_hit_MPISend and p7_dcl_MPISend share: pack at position 0
    with [n = *nalloc], then send [n] bytes. *)
Lemma pack_and_send_whole (P : Z -> Comp packbuf status unit) (dest tag : Z)
    (comm : MPI_Comm) :
  (forall n, respects same_length (P n)) ->
  respects sends_whole_buffer
    (w <- get ;; _ <- pack_buf (P (nalloc w)) 0 ;; MPI_Send (nalloc w) dest tag comm).
Proof.
  intros HP w. unfold bind at 1, get.
  pose proof (pack_buf_sends (P (nalloc w)) 0 (HP (nalloc w)) w) as H1.
  unfold bind. destruct (pack_buf (P (nalloc w)) 0 w) as [[e|pos] w1]; cbn [snd] in *.
  - exact H1.
  - intros Hw. destruct (H1 Hw) as (Hw1 & Hn & _).
    refine (sends_whole_buffer_trans w w1 _ H1 _ Hw).
    rewrite <- Hn. apply MPI_Send_whole.
Qed.

Lemma p7_dcl_MPISend_whole (d : P7_DOMAIN) (dest tag : Z) (comm : MPI_Comm) :
  respects sends_whole_buffer (p7_dcl_MPISend d dest tag comm).
Proof.
  exact (pack_and_send_whole (fun n => p7_dcl_MPIPack d n comm) dest tag comm
           (fun n => p7_dcl_MPIPack_same_length d n comm)).
Qed.

Lemma bind_assoc {S E A B C : Type} (m : Comp S E A) (f : A -> Comp S E B)
    (g : B -> Comp S E C) (s : S) :
  bind m (fun a => bind (f a) g) s = bind (bind m f) g s.
Proof. unfold bind. destruct (m s) as [[e|a] s']; reflexivity. Qed.

(** p7_hit_MPISend: the hit message, then the loop over its domains. *)
Lemma p7_hit_MPISend_split (h : P7_HIT) (dest tag : Z) (comm : MPI_Comm) (w : world) :
  p7_hit_MPISend h dest tag comm w
  = bind (w <- get ;; _ <- pack_buf (p7_hit_MPIPack h (nalloc w) comm) 0 ;;
          MPI_Send (nalloc w) dest tag comm)
         (fun _ => for_each (firstn (Z.to_nat (hit_ndom h)) (hit_dcl h))
                            (fun dcl => p7_dcl_MPISend dcl dest tag comm)) w.
Proof.
  unfold p7_hit_MPISend, bind, get.
  destruct (pack_buf _ _ w) as [[e|pos] w1]; [reflexivity|].
  destruct (MPI_Send _ _ _ _ w1) as [[e|u] w2]; reflexivity.
Qed.

Lemma p7_hit_MPISend_whole (h : P7_HIT) (dest tag : Z) (comm : MPI_Comm) :
  respects sends_whole_buffer (p7_hit_MPISend h dest tag comm).
Proof.
  intros w. rewrite p7_hit_MPISend_split.
  apply (respects_bind _ sends_whole_buffer_trans).
  - apply (pack_and_send_whole (fun n => p7_hit_MPIPack h n comm)).
    intros n. apply p7_hit_MPIPack_same_length.
  - intros _. apply (respects_for_each _ sends_whole_buffer_refl sends_whole_buffer_trans).
    intros d. apply p7_dcl_MPISend_whole.
Qed.

(** The message a successful pack-and-send emits: the packed record, then
    what the buffer held behind it. *)
Lemma pack_and_send_message (P : Z -> Comp packbuf status unit) (data : list Z)
    (dest tag : Z) (comm : MPI_Comm) (w : world) :
  buffer_ok w -> packs_to (P (nalloc w)) (nalloc w) data ->
  0 < zlen data <= nalloc w -> hd true (link w) = true ->
  exists w1,
    (w <- get ;; _ <- pack_buf (P (nalloc w)) 0 ;; MPI_Send (nalloc w) dest tag comm) w
    = (inr tt, w1)
    /\ sent w1 = sent w ++ [ {| msg_peer := dest; msg_tag := tag;
                                msg_data := data ++ skipn (length data) (deref (buf w)) |} ]
    /\ nalloc w1 = nalloc w /\ buffer_ok w1 /\ link w1 = tl (link w).
Proof.
  intros Hw HP Hfit Hlink. unfold buffer_ok in Hw.
  destruct (buf w) as [l|] eqn:Eb; cbn [deref] in *;
    [|change (zlen (@nil Z)) with 0 in Hw; lia].
  unfold bind, get, pack_buf. rewrite Eb. cbn [deref store].
  rewrite HP by lia. cbn [pk_bytes pk_pos].
  assert (Hwr : write l 0 data = data ++ skipn (length data) l) by reflexivity.
  assert (Hlen : zlen (write l 0 data) = nalloc w) by (rewrite zlen_write; lia).
  unfold MPI_Send. cbn [link set_buf buf deref].
  assert (Hall : firstn (Z.to_nat (nalloc w)) (write l 0 data) = write l 0 data)
    by (apply firstn_all2; unfold zlen in Hlen; lia).
  rewrite Hall, Hwr.
  destruct (link w) as [|[|] lk]; try discriminate;
    (eexists; split; [reflexivity|]; cbn; unfold buffer_ok; cbn;
     rewrite <- Hwr; auto).
Qed.

(** C10. p7_hit_MPISend and p7_dcl_MPISend send every message with the
    length of the whole buffer, [*nalloc], whatever the record packs to.  When
    the record packs to fewer bytes than the capacity and the send succeeds,
    the message is the packed record followed by what the buffer held behind
    it, so it is strictly longer than the record, and a receiver that probes
    it learns the sender's capacity as its length. *)
Theorem messages_span_whole_buffer :
  forall (h : P7_HIT) (d : P7_DOMAIN) (dest tag : Z) (comm : MPI_Comm) (w : world),
    buffer_ok w ->
    (exists new,
        sent (snd (p7_hit_MPISend h dest tag comm w)) = sent w ++ new
        /\ Forall (fun m => zlen (msg_data m) = nalloc w) new)
    /\ (exists new,
           sent (snd (p7_dcl_MPISend d dest tag comm w)) = sent w ++ new
           /\ Forall (fun m => zlen (msg_data m) = nalloc w) new)
    /\ (ad_memsize (dcl_ad d) = zlen (pool_bytes (ad_mem (dcl_ad d))) ->
        zlen (dcl_wire d) < nalloc w -> hd true (link w) = true ->
        exists w1 m,
          p7_dcl_MPISend d dest tag comm w = (inr tt, w1)
          /\ sent w1 = sent w ++ [m]
          /\ msg_data m = dcl_wire d ++ skipn (length (dcl_wire d)) (deref (buf w))
          /\ zlen (dcl_wire d) < zlen (msg_data m)
          /\ zlen (msg_data m) = nalloc w)
    /\ (zlen (hit_wire h) < nalloc w -> hd true (link w) = true ->
        exists m rest,
          sent (snd (p7_hit_MPISend h dest tag comm w)) = sent w ++ m :: rest
          /\ msg_data m = hit_wire h ++ skipn (length (hit_wire h)) (deref (buf w))
          /\ zlen (hit_wire h) < zlen (msg_data m)
          /\ zlen (msg_data m) = nalloc w)
    /\ (forall m wr source tag' rest,
           zlen (msg_data m) = nalloc w -> inbox wr = m :: rest -> channel_ok wr ->
           exists st, fst (MPI_Probe source tag' comm wr) = inr st
                      /\ MPI_Get_count st = nalloc w).
Proof.
  intros h d dest tag comm w Hw.
  assert (Hsize : forall (data : list Z) (l : list Z),
             zlen (data ++ skipn (length data) l) = Z.max (zlen data) (zlen l)).
  { intros data l. unfold zlen. rewrite length_app, length_skipn. lia. }
  split; [|split; [|split; [|split]]].
  - destruct (p7_hit_MPISend_whole h dest tag comm w Hw) as (_ & _ & H). exact H.
  - destruct (p7_dcl_MPISend_whole d dest tag comm w Hw) as (_ & _ & H). exact H.
  - intros Hmem Hfit Hlink.
    destruct (pack_and_send_message (fun n => p7_dcl_MPIPack d n comm) (dcl_wire d)
                dest tag comm w Hw (p7_dcl_MPIPack_wire d (nalloc w) comm Hmem))
      as (w1 & E & Hs & _); [rewrite zlen_dcl_wire in *; pose proof (zlen_nonneg (pool_bytes (ad_mem (dcl_ad d)))); lia|assumption|].
    exists w1. eexists. split; [exact E|]. split; [exact Hs|]. cbn [msg_data].
    split; [reflexivity|]. rewrite Hsize. unfold buffer_ok in Hw. lia.
  - intros Hfit Hlink.
    destruct (pack_and_send_message (fun n => p7_hit_MPIPack h n comm) (hit_wire h)
                dest tag comm w Hw (p7_hit_MPIPack_wire h (nalloc w) comm))
      as (w1 & E & Hs & _ & Hw1 & _);
      [rewrite zlen_hit_wire in *;
       pose proof (zlen_nonneg (opt_wire (hit_name h)));
       pose proof (zlen_nonneg (opt_wire (hit_acc h)));
       pose proof (zlen_nonneg (opt_wire (hit_desc h))); lia|assumption|].
    pose proof (respects_for_each _ sends_whole_buffer_refl sends_whole_buffer_trans
                  (firstn (Z.to_nat (hit_ndom h)) (hit_dcl h))
                  (fun dcl => p7_dcl_MPISend dcl dest tag comm)
                  (fun dcl => p7_dcl_MPISend_whole dcl dest tag comm) w1) as Hloop.
    destruct (Hloop Hw1) as (_ & _ & rest & Hrest & _).
    eexists. exists rest. split.
    + rewrite p7_hit_MPISend_split. unfold bind at 1. rewrite E.
      rewrite Hrest, Hs, <- app_assoc. reflexivity.
    + cbn [msg_data]. split; [reflexivity|]. rewrite Hsize.
      unfold buffer_ok in Hw. lia.
  - intros m wr source tag' rest Hlen Hin [Hpr _].
    unfold MPI_Probe, probe_message. rewrite Hpr, Hin.
    eexists. split; [reflexivity|]. exact Hlen.
Qed.

Lemma messages_span_whole_buffer_witness :
  (exists new,
      sent (snd (p7_hit_MPISend sample_hit 0 7 tt roomy_world)) = sent roomy_world ++ new
      /\ Forall (fun m => zlen (msg_data m) = nalloc roomy_world) new)
  /\ (exists w1 m,
         p7_dcl_MPISend sample_dcl 0 7 tt roomy_world = (inr tt, w1)
         /\ sent w1 = sent roomy_world ++ [m]
         /\ zlen (dcl_wire sample_dcl) < zlen (msg_data m)
         /\ zlen (msg_data m) = nalloc roomy_world).
Proof.
  assert (Hw : buffer_ok roomy_world) by (vm_compute; reflexivity).
  destruct (messages_span_whole_buffer sample_hit sample_dcl 0 7 tt roomy_world Hw)
    as (Hhit & _ & Hdcl & _).
  split; [exact Hhit|].
  destruct Hdcl as (w1 & m & E & Hs & _ & Hlt & Hlen);
    [vm_compute; reflexivity|vm_compute; reflexivity|vm_compute; reflexivity|].
  exists w1, m. repeat split; assumption.
Defined.


(** ** Growing the buffer and receiving into it *)

Lemma grow_buffer_ok (n : Z) (w : world) :
  buffer_ok w -> no_fault (heap w) -> 0 <= n ->
  exists w1 l,
    grow_buffer n w = (inr tt, w1)
    /\ buf w1 = Some l /\ zlen l = nalloc w1 /\ n <= nalloc w1
    /\ nalloc w <= nalloc w1
    /\ inbox w1 = inbox w /\ sent w1 = sent w /\ link w1 = link w
    /\ th_live w1 = th_live w /\ no_fault (heap w1)
    /\ probes w1 = probes w /\ recvs w1 = recvs w.
Proof.
  intros Hw Hh Hn. unfold buffer_ok in Hw.
  destruct (no_fault_alloc n (heap w) Hn Hh) as (h' & Ha & Hh').
  unfold grow_buffer, ESL_RALLOC, bind, modify.
  destruct (buf w) as [l|] eqn:Eb; cbn [is_null orb deref] in *.
  - destruct (Z.gtb_spec n (nalloc w)) as [Hgt|Hle].
    + rewrite Ha. eexists. eexists. split; [reflexivity|]. cbn.
      split; [reflexivity|].
      rewrite zlen_resize by assumption. repeat split; auto; lia.
    + exists w, l. repeat split; auto; lia.
  - rewrite Ha. eexists. eexists. split; [reflexivity|]. cbn.
    split; [reflexivity|].
    rewrite zlen_resize by assumption. change (zlen (@nil Z)) with 0 in Hw.
    repeat split; auto; lia.
Qed.

(** When the announced peer passes the check and no allocation fails, the
    prologue of a receive function consumes the head message; the buffer then
    starts with the message's bytes. *)
Lemma probe_and_receive_ok (source tag : Z) (comm : MPI_Comm) (w : world)
    (m : message) (rest : list message) :
  inbox w = m :: rest -> buffer_ok w -> no_fault (heap w) -> channel_ok w ->
  (tag = MPI_ANY_TAG \/ msg_tag m = tag) ->
  (source = MPI_ANY_SOURCE \/ msg_peer m = source) ->
  exists w1 l,
    probe_and_receive source tag comm w
    = (inr (zlen (msg_data m), msg_peer m, msg_tag m), w1)
    /\ buf w1 = Some (msg_data m ++ l)
    /\ zlen (msg_data m ++ l) = nalloc w1 /\ nalloc w <= nalloc w1
    /\ inbox w1 = rest /\ sent w1 = sent w /\ link w1 = link w
    /\ th_live w1 = th_live w /\ no_fault (heap w1) /\ channel_ok w1.
Proof.
  intros Hin Hw Hh [Hpr Hre] Htag Hsrc.
  unfold probe_and_receive, bind at 1, MPI_Probe, probe_message. rewrite Hpr, Hin.
  cbn [MPI_Get_count st_count MPI_TAG MPI_SOURCE].
  unfold bind at 1, check_peer. cbn [MPI_TAG MPI_SOURCE].
  assert (Ht : negb (tag =? MPI_ANY_TAG) && negb (msg_tag m =? tag) = false).
  { destruct Htag as [->| ->]; [now rewrite Z.eqb_refl|].
    rewrite Z.eqb_refl. apply andb_false_r. }
  assert (Hs : negb (source =? MPI_ANY_SOURCE) && negb (msg_peer m =? source) = false).
  { destruct Hsrc as [->| ->]; [now rewrite Z.eqb_refl|].
    rewrite Z.eqb_refl. apply andb_false_r. }
  rewrite Ht, Hs. unfold ret at 1.
  destruct (grow_buffer_ok (zlen (msg_data m)) w Hw Hh (zlen_nonneg _))
    as (w1 & l & Eg & Hb & Hl & Hn & Hmono & Hi & Hse & Hli & Hth & Hh1 & Hp1 & Hr1).
  unfold bind at 1. rewrite Eg.
  unfold bind, MPI_Recv, receive_message. rewrite Hr1, Hre, Hi, Hin, Hb.
  cbn [store deref ret].
  unfold zlen at 2. rewrite Nat2Z.id, firstn_all.
  assert (Hwr : write l 0 (msg_data m) = msg_data m ++ skipn (length (msg_data m)) l)
    by reflexivity.
  assert (Hlen : zlen (msg_data m ++ skipn (length (msg_data m)) l) = zlen l)
    by (rewrite <- Hwr; apply zlen_write; lia).
  rewrite Hwr. eexists. exists (skipn (length (msg_data m)) l).
  split; [reflexivity|]. unfold channel_ok. cbn. rewrite Hlen, Hp1, Hr1.
  repeat split; auto; lia.
Qed.

Lemma grow_buffer_inbox (n : Z) (w : world) : inbox (snd (grow_buffer n w)) = inbox w.
Proof.
  unfold grow_buffer, ESL_RALLOC, bind, modify.
  destruct (is_null (buf w) || (n >? nalloc w)); [|reflexivity].
  destruct (heap_alloc n (heap w)) as [[|] h]; reflexivity.
Qed.

Lemma receive_message_capacity (n : Z) (w : world) :
  buffer_ok w -> n <= nalloc w ->
  buffer_ok (snd (receive_message n w))
  /\ nalloc (snd (receive_message n w)) = nalloc w.
Proof.
  intros Hw Hn. unfold receive_message.
  destruct (inbox w) as [|m rest]; [split; [assumption|reflexivity]|].
  cbn [snd]. split; [|reflexivity]. unfold buffer_ok in *.
  cbn [buf nalloc set_inbox set_buf].
  destruct (buf w) as [l|] eqn:Eb; cbn [store deref] in *; [|assumption].
  assert (zlen (firstn (Z.to_nat n) (msg_data m)) <= zlen l)
    by (unfold zlen in *; rewrite length_firstn; lia).
  rewrite zlen_write; lia.
Qed.

Lemma MPI_Recv_capacity (n source tag : Z) (comm : MPI_Comm) (w : world) :
  buffer_ok w -> n <= nalloc w ->
  buffer_ok (snd (MPI_Recv n source tag comm w))
  /\ nalloc (snd (MPI_Recv n source tag comm w)) = nalloc w.
Proof.
  intros Hw Hn. unfold MPI_Recv. destruct (recvs w) as [|[|] r].
  - now apply receive_message_capacity.
  - now apply (receive_message_capacity n (set_recvs r w)).
  - split; [exact Hw|reflexivity].
Qed.

Lemma grow_then_receive_capacity (A : Type) (n source tag : Z) (comm : MPI_Comm) (a : A) :
  respects capacity_grows
    (grow_buffer n ;;; MPI_Recv n source tag comm ;;; ret a).
Proof.
  intros w Hw.
  pose proof (grow_buffer_spec n w Hw) as (Hw1 & Hmono & Hok).
  unfold bind. destruct (grow_buffer n w) as [[e|[]] w1]; cbn [fst snd] in *;
    [split; assumption|].
  destruct (Hok tt eq_refl) as [Hn Hb].
  pose proof (MPI_Recv_capacity n source tag comm w1 Hw1 Hn) as [Hw2 Hn2].
  destruct (MPI_Recv n source tag comm w1) as [[e|u] w2] eqn:Er;
    cbn [snd ret] in *; (split; [assumption|lia]).
Qed.

Lemma probe_and_receive_capacity (source tag : Z) (comm : MPI_Comm) :
  respects capacity_grows (probe_and_receive source tag comm).
Proof.
  unfold probe_and_receive.
  apply (respects_bind _ capacity_grows_trans);
    [apply (respects_weaken quiet), MPI_Probe_quiet; apply quiet_capacity|intros st].
  apply (respects_bind _ capacity_grows_trans);
    [apply (respects_weaken quiet), check_peer_quiet; apply quiet_capacity|intros _].
  apply grow_then_receive_capacity.
Qed.

Lemma MPI_Recv_live (n source tag : Z) (comm : MPI_Comm) :
  respects same_live (MPI_Recv n source tag comm).
Proof.
  intros w. unfold MPI_Recv, receive_message.
  destruct (recvs w) as [|[|] r]; cbn; try destruct (inbox w); reflexivity.
Qed.

Lemma probe_and_receive_live (source tag : Z) (comm : MPI_Comm) :
  respects same_live (probe_and_receive source tag comm).
Proof.
  unfold probe_and_receive.
  apply (respects_bind _ same_live_trans);
    [apply (respects_weaken quiet), MPI_Probe_quiet; apply quiet_live|intros st].
  apply (respects_bind _ same_live_trans);
    [apply (respects_weaken quiet), check_peer_quiet; apply quiet_live|intros _].
  apply (respects_bind _ same_live_trans); [apply grow_buffer_live|intros _].
  apply (respects_bind _ same_live_trans); [apply MPI_Recv_live|intros _].
  apply respects_ret, same_live_refl.
Qed.

(** ** No function reports failure with [eslOK] *)

Lemma never_throws_bind {S E A B : Type} (bad : E) (m : Comp S E A)
    (f : A -> Comp S E B) :
  never_throws bad m -> (forall a, never_throws bad (f a)) ->
  never_throws bad (bind m f).
Proof.
  intros Hm Hf s. unfold bind. specialize (Hm s).
  destruct (m s) as [[e|a] s']; cbn [fst] in *; [|apply Hf].
  intros H. apply Hm. now inversion H.
Qed.

Lemma never_throws_ret {S E A : Type} (bad : E) (a : A) :
  never_throws bad (@ret S E A a).
Proof. intros s. discriminate. Qed.

Lemma MPI_Unpack_not_ok (bytes : list Z) (n c : Z) (t : MPI_Datatype) (comm : MPI_Comm) :
  never_throws eslOK (MPI_Unpack bytes n c t comm).
Proof.
  intros s. unfold MPI_Unpack.
  match goal with |- context [if ?c then _ else _] => destruct c end; discriminate.
Qed.

Lemma unpack_raw_not_ok (bytes : list Z) (n : Z) (t : MPI_Datatype) (comm : MPI_Comm) :
  never_throws eslOK (unpack_raw bytes n t comm).
Proof.
  apply never_throws_bind; [apply MPI_Unpack_not_ok|intros; apply never_throws_ret].
Qed.

Lemma unpack_int_not_ok (bytes : list Z) (n : Z) (comm : MPI_Comm) :
  never_throws eslOK (unpack_int bytes n comm).
Proof.
  apply never_throws_bind; [apply unpack_raw_not_ok|intros; apply never_throws_ret].
Qed.

Lemma unpack_long_not_ok (bytes : list Z) (n : Z) (comm : MPI_Comm) :
  never_throws eslOK (unpack_long bytes n comm).
Proof.
  apply never_throws_bind; [apply unpack_raw_not_ok|intros; apply never_throws_ret].
Qed.

Lemma ESL_ALLOC_not_ok (size : Z) : never_throws eslOK (ESL_ALLOC size).
Proof.
  intros s. unfold ESL_ALLOC. destruct (heap_alloc _ _) as [[|] h]; discriminate.
Qed.

Lemma UnpackOpt_not_ok (bytes : list Z) (n : Z) (comm : MPI_Comm) :
  never_throws eslOK (esl_mpi_UnpackOpt bytes n comm).
Proof.
  unfold esl_mpi_UnpackOpt.
  apply never_throws_bind; [apply unpack_int_not_ok|intros present].
  destruct (present =? 0); [apply never_throws_ret|].
  apply never_throws_bind; [apply unpack_int_not_ok|intros len].
  apply never_throws_bind; [apply ESL_ALLOC_not_ok|intros _].
  apply never_throws_bind; [apply MPI_Unpack_not_ok|intros; apply never_throws_ret].
Qed.

Ltac not_ok_steps :=
  repeat (apply never_throws_bind;
          [first [apply unpack_raw_not_ok | apply unpack_int_not_ok
                 | apply unpack_long_not_ok | apply UnpackOpt_not_ok
                 | apply ESL_ALLOC_not_ok | apply MPI_Unpack_not_ok]
          |intros ?]);
  apply never_throws_ret.

Lemma p7_hit_MPIUnpack_not_ok (bytes : list Z) (n : Z) (comm : MPI_Comm) (hit : P7_HIT) :
  never_throws eslOK (p7_hit_MPIUnpack bytes n comm hit).
Proof. unfold p7_hit_MPIUnpack. not_ok_steps. Qed.

Lemma p7_dcl_MPIUnpack_not_ok (bytes : list Z) (n : Z) (comm : MPI_Comm) :
  never_throws eslOK (p7_dcl_MPIUnpack bytes n comm).
Proof. unfold p7_dcl_MPIUnpack. not_ok_steps. Qed.

Lemma unpack_buf_not_ok (A : Type) (u : list Z -> Comp unpackst status A) (pos : Z) :
  (forall bytes, never_throws eslOK (u bytes)) ->
  never_throws (Throw eslOK) (unpack_buf u pos).
Proof.
  intros Hu w. unfold unpack_buf.
  specialize (Hu (deref (buf w)) {| up_pos := pos; up_heap := heap w |}).
  destruct (u _ _) as [[e|a] s]; cbn [fst] in *; [|discriminate].
  intros H. apply Hu. now inversion H.
Qed.

Lemma probe_and_receive_not_ok (source tag : Z) (comm : MPI_Comm) :
  never_throws (Throw eslOK) (probe_and_receive source tag comm).
Proof.
  unfold probe_and_receive.
  apply never_throws_bind;
    [intros w; unfold MPI_Probe, probe_message;
     destruct (probes w) as [|[?|] ?]; cbn; try destruct (inbox w); discriminate
    |intros st].
  apply never_throws_bind.
  { intros w. unfold check_peer, throw, ret.
    repeat match goal with |- context [if ?c then _ else _] => destruct c end;
      discriminate. }
  intros _. apply never_throws_bind.
  { intros w. unfold grow_buffer, ESL_RALLOC, bind, modify.
    destruct (is_null (buf w) || _); [|discriminate].
    destruct (heap_alloc _ _) as [[|] h]; discriminate. }
  intros _. apply never_throws_bind;
    [intros w; unfold MPI_Recv, receive_message;
     destruct (recvs w) as [|[|] ?]; cbn; try destruct (inbox w); discriminate
    |intros _].
  apply never_throws_ret.
Qed.

Lemma ESL_ALLOC_obj_not_ok (size : Z) : never_throws (Throw eslOK) (ESL_ALLOC_obj size).
Proof.
  intros w. unfold ESL_ALLOC_obj. destruct (heap_alloc _ _) as [[|] h]; discriminate.
Qed.

Lemma p7_dcl_MPIRecv_not_ok (source tag : Z) (comm : MPI_Comm) :
  never_throws (Throw eslOK) (p7_dcl_MPIRecv source tag comm).
Proof.
  unfold p7_dcl_MPIRecv.
  apply never_throws_bind; [apply probe_and_receive_not_ok|intros _].
  apply never_throws_bind; [intros w; discriminate|intros w].
  apply unpack_buf_not_ok. intros bytes. apply p7_dcl_MPIUnpack_not_ok.
Qed.

Lemma recv_domains_not_ok (k : nat) (source tag : Z) (comm : MPI_Comm) :
  never_throws (Throw eslOK) (recv_domains k source tag comm).
Proof.
  induction k as [|k IH]; cbn [recv_domains]; [apply never_throws_ret|].
  apply never_throws_bind; [apply p7_dcl_MPIRecv_not_ok|intros d].
  apply never_throws_bind; [apply IH|intros r]. apply never_throws_ret.
Qed.

Lemma p7_hit_MPIRecv_not_ok (source tag : Z) (comm : MPI_Comm) (hit : P7_HIT) :
  never_throws (Throw eslOK) (p7_hit_MPIRecv source tag comm hit).
Proof.
  unfold p7_hit_MPIRecv.
  apply never_throws_bind; [apply probe_and_receive_not_ok|intros [[n s] t]].
  apply never_throws_bind;
    [apply unpack_buf_not_ok; intros; apply p7_hit_MPIUnpack_not_ok|intros h].
  apply never_throws_bind; [apply ESL_ALLOC_obj_not_ok|intros _].
  apply never_throws_bind; [apply recv_domains_not_ok|intros dcl].
  apply never_throws_ret.
Qed.

Lemma recv_hits_not_ok (k : nat) (source tag : Z) (comm : MPI_Comm) (th : P7_TOPHITS) :
  never_throws (Throw eslOK) (recv_hits k source tag comm th).
Proof.
  revert th. induction k as [|k IH]; intros th; cbn [recv_hits];
    [apply never_throws_ret|].
  apply never_throws_bind.
  { intros w. unfold p7_tophits_CreateNextHit.
    destruct (heap_alloc _ _) as [[|] h]; discriminate. }
  intros r. apply never_throws_bind; [apply p7_hit_MPIRecv_not_ok|intros h].
  apply IH.
Qed.

Lemma tophits_recv_fill_not_ok (th : P7_TOPHITS) (n source tag : Z) (comm : MPI_Comm) :
  never_throws (Throw eslOK) (tophits_recv_fill th n source tag comm).
Proof.
  unfold tophits_recv_fill. apply never_throws_bind.
  - apply unpack_buf_not_ok. intros bytes. not_ok_steps.
  - intros [[nhits nrep] ninc]. apply recv_hits_not_ok.
Qed.

(** ** Capacity and live collections along the receive functions *)

Ltac quiet_as R := apply (respects_weaken quiet); [exact R|].

Lemma p7_dcl_MPIRecv_capacity (source tag : Z) (comm : MPI_Comm) :
  respects capacity_grows (p7_dcl_MPIRecv source tag comm).
Proof.
  unfold p7_dcl_MPIRecv.
  apply (respects_bind _ capacity_grows_trans);
    [apply probe_and_receive_capacity|intros _].
  apply (respects_bind _ capacity_grows_trans);
    [apply respects_get, capacity_grows_refl|intros w].
  quiet_as quiet_capacity. apply unpack_buf_quiet.
Qed.

Lemma p7_dcl_MPIRecv_live (source tag : Z) (comm : MPI_Comm) :
  respects same_live (p7_dcl_MPIRecv source tag comm).
Proof.
  unfold p7_dcl_MPIRecv.
  apply (respects_bind _ same_live_trans); [apply probe_and_receive_live|intros _].
  apply (respects_bind _ same_live_trans);
    [apply respects_get, same_live_refl|intros w].
  quiet_as quiet_live. apply unpack_buf_quiet.
Qed.

Lemma recv_domains_capacity (k : nat) (source tag : Z) (comm : MPI_Comm) :
  respects capacity_grows (recv_domains k source tag comm).
Proof.
  induction k as [|k IH]; cbn [recv_domains];
    [apply respects_ret, capacity_grows_refl|].
  apply (respects_bind _ capacity_grows_trans); [apply p7_dcl_MPIRecv_capacity|intros d].
  apply (respects_bind _ capacity_grows_trans); [apply IH|intros r].
  apply respects_ret, capacity_grows_refl.
Qed.

Lemma recv_domains_live (k : nat) (source tag : Z) (comm : MPI_Comm) :
  respects same_live (recv_domains k source tag comm).
Proof.
  induction k as [|k IH]; cbn [recv_domains]; [apply respects_ret, same_live_refl|].
  apply (respects_bind _ same_live_trans); [apply p7_dcl_MPIRecv_live|intros d].
  apply (respects_bind _ same_live_trans); [apply IH|intros r].
  apply respects_ret, same_live_refl.
Qed.

Lemma p7_hit_MPIRecv_capacity (source tag : Z) (comm : MPI_Comm) (hit : P7_HIT) :
  respects capacity_grows (p7_hit_MPIRecv source tag comm hit).
Proof.
  unfold p7_hit_MPIRecv.
  apply (respects_bind _ capacity_grows_trans);
    [apply probe_and_receive_capacity|intros [[n s] t]].
  apply (respects_bind _ capacity_grows_trans);
    [quiet_as quiet_capacity; apply unpack_buf_quiet|intros h].
  apply (respects_bind _ capacity_grows_trans);
    [quiet_as quiet_capacity; apply ESL_ALLOC_obj_quiet|intros _].
  apply (respects_bind _ capacity_grows_trans); [apply recv_domains_capacity|intros dcl].
  apply respects_ret, capacity_grows_refl.
Qed.

Lemma p7_hit_MPIRecv_live (source tag : Z) (comm : MPI_Comm) (hit : P7_HIT) :
  respects same_live (p7_hit_MPIRecv source tag comm hit).
Proof.
  unfold p7_hit_MPIRecv.
  apply (respects_bind _ same_live_trans);
    [apply probe_and_receive_live|intros [[n s] t]].
  apply (respects_bind _ same_live_trans);
    [quiet_as quiet_live; apply unpack_buf_quiet|intros h].
  apply (respects_bind _ same_live_trans);
    [quiet_as quiet_live; apply ESL_ALLOC_obj_quiet|intros _].
  apply (respects_bind _ same_live_trans); [apply recv_domains_live|intros dcl].
  apply respects_ret, same_live_refl.
Qed.

Lemma recv_hits_capacity (k : nat) (source tag : Z) (comm : MPI_Comm) (th : P7_TOPHITS) :
  respects capacity_grows (recv_hits k source tag comm th).
Proof.
  revert th. induction k as [|k IH]; intros th; cbn [recv_hits];
    [apply respects_ret, capacity_grows_refl|].
  apply (respects_bind _ capacity_grows_trans);
    [quiet_as quiet_capacity; apply CreateNextHit_quiet|intros r].
  apply (respects_bind _ capacity_grows_trans); [apply p7_hit_MPIRecv_capacity|intros h].
  apply IH.
Qed.

Lemma recv_hits_live (k : nat) (source tag : Z) (comm : MPI_Comm) (th : P7_TOPHITS) :
  respects same_live (recv_hits k source tag comm th).
Proof.
  revert th. induction k as [|k IH]; intros th; cbn [recv_hits];
    [apply respects_ret, same_live_refl|].
  apply (respects_bind _ same_live_trans);
    [quiet_as quiet_live; apply CreateNextHit_quiet|intros r].
  apply (respects_bind _ same_live_trans); [apply p7_hit_MPIRecv_live|intros h].
  apply IH.
Qed.

Lemma tophits_recv_fill_capacity (th : P7_TOPHITS) (n source tag : Z) (comm : MPI_Comm) :
  respects capacity_grows (tophits_recv_fill th n source tag comm).
Proof.
  unfold tophits_recv_fill.
  apply (respects_bind _ capacity_grows_trans);
    [quiet_as quiet_capacity; apply unpack_buf_quiet|intros [[nhits nrep] ninc]].
  apply recv_hits_capacity.
Qed.

Lemma tophits_recv_fill_live (th : P7_TOPHITS) (n source tag : Z) (comm : MPI_Comm) :
  respects same_live (tophits_recv_fill th n source tag comm).
Proof.
  unfold tophits_recv_fill.
  apply (respects_bind _ same_live_trans);
    [quiet_as quiet_live; apply unpack_buf_quiet|intros [[nhits nrep] ninc]].
  apply recv_hits_live.
Qed.

Lemma is_quiet_capacity (w w' : world) :
  buf w' = buf w -> nalloc w' = nalloc w -> capacity_grows w w'.
Proof.
  unfold capacity_grows, buffer_ok. intros -> ->. intros H. split; [assumption|lia].
Qed.

Lemma p7_tophits_Create_capacity : respects capacity_grows p7_tophits_Create.
Proof.
  intros w. unfold p7_tophits_Create.
  destruct (heap_alloc _ _) as [[|] h]; now apply is_quiet_capacity.
Qed.

Lemma tophits_recv_ERROR_capacity (th : option P7_TOPHITS) (e : abort) :
  respects capacity_grows (tophits_recv_ERROR th e).
Proof.
  intros w. destruct e as [st|]; destruct th; now apply is_quiet_capacity.
Qed.

Lemma p7_tophits_MPIRecv_capacity (source tag : Z) (comm : MPI_Comm) :
  respects capacity_grows (p7_tophits_MPIRecv source tag comm).
Proof.
  unfold p7_tophits_MPIRecv.
  apply (respects_catch _ capacity_grows_trans).
  - unfold tophits_recv_open.
    apply (respects_bind _ capacity_grows_trans);
      [apply probe_and_receive_capacity|intros r].
    apply (respects_bind _ capacity_grows_trans);
      [apply p7_tophits_Create_capacity|intros [th|]];
      [apply respects_ret|apply respects_throw]; apply capacity_grows_refl.
  - apply tophits_recv_ERROR_capacity.
  - intros [th [[n s] t]]. apply (respects_catch _ capacity_grows_trans).
    + apply tophits_recv_fill_capacity.
    + apply tophits_recv_ERROR_capacity.
    + intros th'. apply respects_ret, capacity_grows_refl.
Qed.

Lemma p7_tophits_MPISend_capacity (th : P7_TOPHITS) (dest tag : Z) (comm : MPI_Comm) :
  respects capacity_grows (p7_tophits_MPISend th dest tag comm).
Proof.
  unfold p7_tophits_MPISend.
  apply (respects_bind _ capacity_grows_trans);
    [quiet_as quiet_capacity; apply tophits_buffer_size_quiet|intros n].
  apply (respects_bind _ capacity_grows_trans); [apply grow_buffer_capacity|intros _].
  apply (respects_bind _ capacity_grows_trans).
  { apply (respects_weaken sends_whole_buffer); [exact sends_capacity|].
    apply pack_buf_sends.
    repeat (apply (respects_bind _ same_length_trans);
            [apply MPI_Pack_same_length|intros _]).
    apply MPI_Pack_same_length. }
  intros _. apply (respects_bind _ capacity_grows_trans);
    [apply MPI_Send_capacity|intros _].
  destruct (th_N th =? 0); [apply respects_ret, capacity_grows_refl|].
  apply (respects_for_each _ capacity_grows_refl capacity_grows_trans).
  intros h. apply (respects_weaken sends_whole_buffer); [exact sends_capacity|].
  apply p7_hit_MPISend_whole.
Qed.

(** C8. Across every send and receive operation the recorded capacity stays
    the length of the buffer and never decreases, however the operation
    ends; the sizing block leaves the process untouched (no reallocation, same
    buffer, same capacity) when the buffer exists and the request does not
    exceed the capacity. *)
Theorem capacity_never_decreases :
  forall (th : P7_TOPHITS) (h : P7_HIT) (d : P7_DOMAIN) (dest source tag n : Z)
         (comm : MPI_Comm) (w : world),
    buffer_ok w ->
    (forall w', w' = snd (p7_tophits_MPISend th dest tag comm w)
                \/ w' = snd (p7_hit_MPISend h dest tag comm w)
                \/ w' = snd (p7_dcl_MPISend d dest tag comm w)
                \/ w' = snd (p7_tophits_MPIRecv source tag comm w)
                \/ w' = snd (p7_hit_MPIRecv source tag comm h w)
                \/ w' = snd (p7_dcl_MPIRecv source tag comm w)
                \/ w' = snd (grow_buffer n w) ->
                buffer_ok w' /\ nalloc w <= nalloc w')
    /\ (buf w <> None -> n <= nalloc w -> grow_buffer n w = (inr tt, w))
    /\ (snd (grow_buffer n w) <> w -> buf w = None \/ nalloc w < n).
Proof.
  intros th h d dest source tag n comm w Hw. split; [|split].
  - intros w' [->|[->|[->|[->|[->|[->| ->]]]]]].
    + exact (p7_tophits_MPISend_capacity th dest tag comm w Hw).
    + exact (sends_capacity _ _ (p7_hit_MPISend_whole h dest tag comm w) Hw).
    + exact (sends_capacity _ _ (p7_dcl_MPISend_whole d dest tag comm w) Hw).
    + exact (p7_tophits_MPIRecv_capacity source tag comm w Hw).
    + exact (p7_hit_MPIRecv_capacity source tag comm h w Hw).
    + exact (p7_dcl_MPIRecv_capacity source tag comm w Hw).
    + exact (grow_buffer_capacity n w Hw).
  - apply grow_buffer_noop.
  - intros Hchg. destruct (buf w) as [l|] eqn:Eb; [|now left]. right.
    destruct (Z_lt_le_dec (nalloc w) n) as [|Hle]; [assumption|].
    exfalso. apply Hchg. rewrite grow_buffer_noop; [reflexivity|congruence|assumption].
Qed.

Lemma capacity_never_decreases_witness :
  nalloc roomy_world <= nalloc (snd (p7_tophits_MPISend one_hit 0 7 tt roomy_world))
  /\ nalloc roomy_world <= nalloc (snd (p7_tophits_MPIRecv 3 7 tt roomy_world))
  /\ grow_buffer 100 roomy_world = (inr tt, roomy_world).
Proof.
  assert (Hw : buffer_ok roomy_world) by (vm_compute; reflexivity).
  destruct (capacity_never_decreases one_hit sample_hit sample_dcl 0 3 7 100 tt
              roomy_world Hw) as (Hall & Hnoop & _).
  split; [apply Hall; now left|].
  split; [apply Hall; right; right; right; now left|].
  apply Hnoop; [discriminate|vm_compute; discriminate].
Defined.


(** ** Failure of p7_tophits_MPIRecv *)

Lemma tophits_recv_open_cases (source tag : Z) (comm : MPI_Comm) (w : world) :
  match tophits_recv_open source tag comm w with
  | (inl e, w1) => th_live w1 = th_live w /\ e <> Throw eslOK
  | (inr _, w1) => th_live w1 = th_live w + 1
  end.
Proof.
  unfold tophits_recv_open, bind.
  pose proof (probe_and_receive_live source tag comm w) as Hl.
  pose proof (probe_and_receive_not_ok source tag comm w) as Hn.
  unfold same_live in Hl.
  destruct (probe_and_receive source tag comm w) as [[e|r] w1]; cbn [fst snd] in *.
  - split; [assumption|]. intros ->. now apply Hn.
  - unfold p7_tophits_Create. destruct (heap_alloc 1 (heap w1)) as [[|] h]; cbn.
    + now rewrite Hl.
    + split; [assumption|discriminate].
Qed.

(** X20. However p7_tophits_MPIRecv ends, it either returns [eslOK] with
    the collection it built, or it returns another status with [*ret_th]
    set to NULL and the collection it had created destroyed (as many
    collections are live as before the call), or it never returns because
    MPI_Probe waits for a message that does not come.  A path through the
    ERROR label never hands a collection back. *)
Lemma error_label_returns_nothing :
  forall (source tag : Z) (comm : MPI_Comm) (w : world),
    match p7_tophits_MPIRecv source tag comm w with
    | (inr (st, ret_th), w') =>
        (st = eslOK /\ ret_th <> None /\ th_live w' = th_live w + 1)
        \/ (st <> eslOK /\ ret_th = None /\ th_live w' = th_live w)
    | (inl Blocked, _) => True
    | (inl (Throw _), _) => False
    end.
Proof.
  intros source tag comm w. unfold p7_tophits_MPIRecv, catch.
  pose proof (tophits_recv_open_cases source tag comm w) as Ho.
  destruct (tophits_recv_open source tag comm w) as [[e|[th [[n s] t]]] w1].
  - destruct Ho as [Hl Hne]. destruct e as [st|]; cbn; [|exact I].
    right. repeat split; [congruence|assumption].
  - pose proof (tophits_recv_fill_live th n s t comm w1) as Hl.
    pose proof (tophits_recv_fill_not_ok th n s t comm w1) as Hn.
    unfold same_live in Hl.
    destruct (tophits_recv_fill th n s t comm w1) as [[e|th'] w2]; cbn [fst snd] in *.
    + destruct e as [st|]; cbn; [|exact I].
      right. repeat split; [congruence|lia].
    + cbn. left. repeat split; [discriminate|lia].
Qed.

(** The paths on the transfer of [one_hit]: success; an allocation
    failure while sizing the buffer, while creating the collection and while
    receiving the hit; a hit message cut short; and a channel that runs dry
    (no return). *)
Example receive_outcomes :
  recv_outcome (receiver [] one_hit_messages) = (inr (eslOK, Some 1), 1)
  /\ recv_outcome (receiver [false] one_hit_messages) = (inr (eslEMEM, None), 0)
  /\ recv_outcome (receiver [true; false] one_hit_messages) = (inr (eslEMEM, None), 0)
  /\ recv_outcome (receiver [true; true; true; false] one_hit_messages)
     = (inr (eslEMEM, None), 0)
  /\ recv_outcome (receiver [] (firstn 1 one_hit_messages
                                ++ map (truncated 20) (skipn 1 one_hit_messages)))
     = (inr (eslESYS, None), 0)
  /\ recv_outcome (receiver [] (firstn 2 one_hit_messages)) = (inl Blocked, 1).
Proof. vm_compute. repeat split. Qed.

(** C6. A failure of MPI_Recv does not reach the ERROR label of
    p7_tophits_MPIRecv, because the return code of the call is dropped.  On
    the transfer of [one_hit] into a buffer of 300 zero bytes: when no call
    fails, [one_hit] is handed back; when the receive of the envelope
    fails, the function returns [eslOK] and hands back an empty collection
    decoded from the zero bytes; when the receive of the hit message fails,
    it returns [eslOK] and hands back a collection whose one hit was decoded
    from the bytes of the envelope and has no name; when the receive of the
    domain message fails, it returns [eslOK] and hands back a hit whose
    domain was decoded from the bytes of the hit message. *)
Theorem receive_failure_goes_unreported :
  recv_result (deaf_world []) = inr (eslOK, Some one_hit)
  /\ recv_result (deaf_world [false]) = inr (eslOK, Some no_hits)
  /\ (exists th, recv_result (deaf_world [true; false]) = inr (eslOK, Some th)
                 /\ hit_names th = [None]
                 /\ hit_names one_hit = [Some [104; 105; 116; 49]])
  /\ (exists th, recv_result (deaf_world [true; true; false]) = inr (eslOK, Some th)
                 /\ map (fun h => map dcl_ienv (hit_dcl h)) (th_unsrt th) = [[0]]
                 /\ map (fun h => map dcl_ienv (hit_dcl h)) (th_unsrt one_hit) = [[5]]).
Proof.
  split; [vm_compute; reflexivity|]. split; [vm_compute; reflexivity|]. split.
  - eexists. split; [vm_compute; reflexivity|]. split; vm_compute; reflexivity.
  - eexists. split; [vm_compute; reflexivity|]. split; vm_compute; reflexivity.
Qed.


(** ** An unexpected peer *)

Lemma probe_and_receive_mismatch (source tag : Z) (comm : MPI_Comm) (w : world)
    (m : message) (rest : list message) :
  inbox w = m :: rest -> probes w = [] ->
  (tag <> MPI_ANY_TAG /\ msg_tag m <> tag)
  \/ (source <> MPI_ANY_SOURCE /\ msg_peer m <> source) ->
  probe_and_receive source tag comm w = (inl (Throw eslFAIL), w).
Proof.
  intros Hin Hpr Hbad.
  unfold probe_and_receive, bind at 1, MPI_Probe, probe_message. rewrite Hpr, Hin.
  unfold bind, check_peer, throw. cbn [MPI_TAG MPI_SOURCE].
  destruct (Z.eqb_spec tag MPI_ANY_TAG), (Z.eqb_spec (msg_tag m) tag),
    (Z.eqb_spec source MPI_ANY_SOURCE), (Z.eqb_spec (msg_peer m) source);
    cbn; try reflexivity; exfalso; tauto.
Qed.

Lemma unpack_buf_ok {A : Type} (u : list Z -> Comp unpackst status A)
    (data l : list Z) (a : A) (n : Z) (w : world) :
  buf w = Some (data ++ l) ->
  unpacks_to (data ++ l) n (u (data ++ l)) data a ->
  zlen data <= n -> n <= zlen (data ++ l) -> no_fault (heap w) ->
  exists h', unpack_buf u 0 w = (inr a, set_heap h' w) /\ no_fault h'.
Proof.
  intros Hb Hu Hfit Hn Hh. unfold unpack_buf. rewrite Hb. cbn [deref].
  destruct (Hu 0 (heap w) l) as (h' & E & Hh'); try assumption; try lia;
    [reflexivity|].
  rewrite E. cbn [up_heap]. eauto.
Qed.

Lemma p7_tophits_Create_ok (w : world) :
  no_fault (heap w) ->
  exists h',
    p7_tophits_Create w
    = (inr (Some {| th_unsrt := []; th_N := 0; th_nreported := 0; th_nincluded := 0 |}),
       set_th_live (th_live w + 1) (set_heap h' w))
    /\ no_fault h'.
Proof.
  intros Hh. unfold p7_tophits_Create.
  destruct (no_fault_alloc 1 (heap w) ltac:(lia) Hh) as (h' & E & Hh').
  rewrite E. eauto.
Qed.

Lemma p7_tophits_CreateNextHit_ok (th : P7_TOPHITS) (w : world) :
  no_fault (heap w) ->
  exists h',
    p7_tophits_CreateNextHit th w
    = (inr ({| th_unsrt := th_unsrt th ++ [blank_hit]; th_N := th_N th + 1;
               th_nreported := th_nreported th; th_nincluded := th_nincluded th |},
            blank_hit), set_heap h' w)
    /\ no_fault h'.
Proof.
  intros Hh. unfold p7_tophits_CreateNextHit.
  destruct (no_fault_alloc 1 (heap w) ltac:(lia) Hh) as (h' & E & Hh').
  rewrite E. eauto.
Qed.

Lemma envelope_unpack_wire (bytes : list Z) (n : Z) (comm : MPI_Comm) (th : P7_TOPHITS) :
  uint64_ok (th_N th) = true -> uint64_ok (th_nreported th) = true ->
  uint64_ok (th_nincluded th) = true ->
  unpacks_to bytes n
    (nhits <- unpack_raw bytes n MPI_LONG_LONG_INT comm ;;
     nreported <- unpack_raw bytes n MPI_LONG_LONG_INT comm ;;
     nincluded <- unpack_raw bytes n MPI_LONG_LONG_INT comm ;;
     ret (nhits, nreported, nincluded))
    (envelope_wire th) (th_N th, th_nreported th, th_nincluded th).
Proof.
  intros H1 H2 H3. unfold envelope_wire.
  rewrite <- (app_nil_r (encode MPI_LONG_LONG_INT [th_nincluded th])).
  repeat (eapply unpacks_bind; [now apply unpacks_uint64|cbv beta]).
  apply unpacks_ret.
Qed.

(** Receiving the envelope: the state in which p7_tophits_MPIRecv starts
    its loop over the hits. *)
Lemma tophits_recv_envelope (source tag : Z) (comm : MPI_Comm) (w : world)
    (m : message) (rest : list message) (th : P7_TOPHITS) :
  inbox w = m :: rest -> buffer_ok w -> no_fault (heap w) -> channel_ok w ->
  (tag = MPI_ANY_TAG \/ msg_tag m = tag) ->
  (source = MPI_ANY_SOURCE \/ msg_peer m = source) ->
  uint64_ok (th_N th) = true -> uint64_ok (th_nreported th) = true ->
  uint64_ok (th_nincluded th) = true ->
  (exists pad, msg_data m = envelope_wire th ++ pad) ->
  exists w2,
    p7_tophits_MPIRecv source tag comm w
    = catch (recv_hits (Z.to_nat (th_N th)) (msg_peer m) (msg_tag m) comm
               {| th_unsrt := []; th_N := 0; th_nreported := th_nreported th;
                  th_nincluded := th_nincluded th |})
            (tophits_recv_ERROR
               (Some {| th_unsrt := []; th_N := 0; th_nreported := 0;
                        th_nincluded := 0 |}))
            (fun th' => ret (eslOK, Some th')) w2
    /\ inbox w2 = rest /\ buffer_ok w2 /\ nalloc w <= nalloc w2
    /\ sent w2 = sent w /\ th_live w2 = th_live w + 1 /\ no_fault (heap w2)
    /\ channel_ok w2.
Proof.
  intros Hin Hw Hh Hch Htag Hsrc H1 H2 H3 (pad & Hdata).
  destruct (probe_and_receive_ok source tag comm w m rest Hin Hw Hh Hch Htag Hsrc)
    as (w1 & l & Ep & Hb1 & Hl1 & Hmono & Hi1 & Hs1 & _ & Ht1 & Hh1 & Hch1).
  destruct (p7_tophits_Create_ok w1 Hh1) as (h2 & Ec & Hh2).
  set (w2 := set_th_live (th_live w1 + 1) (set_heap h2 w1)) in *.
  assert (Hb2 : buf w2 = Some (envelope_wire th ++ (pad ++ l))).
  { cbn. rewrite Hb1, Hdata, <- app_assoc. reflexivity. }
  assert (Hlen : zlen (envelope_wire th ++ pad ++ l) = nalloc w1).
  { rewrite app_assoc, <- Hdata. exact Hl1. }
  assert (Hm : zlen (envelope_wire th) <= zlen (msg_data m) <= nalloc w1).
  { rewrite <- Hl1, Hdata, !zlen_app.
    pose proof (zlen_nonneg pad). pose proof (zlen_nonneg l). lia. }
  destruct (unpack_buf_ok
              (fun b => nhits <- unpack_raw b (zlen (msg_data m)) MPI_LONG_LONG_INT comm ;;
                        nreported <- unpack_raw b (zlen (msg_data m)) MPI_LONG_LONG_INT comm ;;
                        nincluded <- unpack_raw b (zlen (msg_data m)) MPI_LONG_LONG_INT comm ;;
                        ret (nhits, nreported, nincluded))
              (envelope_wire th) (pad ++ l) (th_N th, th_nreported th, th_nincluded th)
              (zlen (msg_data m)) w2 Hb2
              (envelope_unpack_wire _ _ comm th H1 H2 H3))
    as (h3 & Eu & Hh3); [lia|rewrite Hlen; lia|exact Hh2|].
  exists (set_heap h3 w2). split.
  - unfold p7_tophits_MPIRecv, catch at 1, tophits_recv_open, bind at 1.
    rewrite Ep. unfold bind at 1. rewrite Ec. unfold ret at 1.
    unfold catch, tophits_recv_fill, bind at 1.
    fold w2. rewrite Eu. reflexivity.
  - unfold channel_ok in *. cbn. unfold buffer_ok. cbn. rewrite Hb1. cbn.
    repeat split; auto; try tauto; lia.
Qed.

Lemma ESL_ALLOC_obj_ok (size : Z) (w : world) :
  0 <= size -> no_fault (heap w) ->
  exists h', ESL_ALLOC_obj size w = (inr tt, set_heap h' w) /\ no_fault h'.
Proof.
  intros Hs Hh. unfold ESL_ALLOC_obj.
  destruct (no_fault_alloc size (heap w) Hs Hh) as (h' & E & Hh').
  rewrite E. eauto.
Qed.

(** ** A collection without hits *)

Lemma tophits_buffer_size_empty (th : P7_TOPHITS) (comm : MPI_Comm) (w : world) :
  th_N th = 0 -> tophits_buffer_size th comm w = (inr 24, w).
Proof.
  intros HN. unfold tophits_buffer_size. rewrite HN. reflexivity.
Qed.

Lemma length_envelope_wire (th : P7_TOPHITS) : length (envelope_wire th) = 24%nat.
Proof. reflexivity. Qed.

Lemma p7_tophits_MPISend_empty (th : P7_TOPHITS) (dest tag : Z) (comm : MPI_Comm)
    (w : world) :
  th_N th = 0 -> buffer_ok w -> no_fault (heap w) -> hd true (link w) = true ->
  exists w',
    p7_tophits_MPISend th dest tag comm w = (inr tt, w')
    /\ sent w' = sent w ++ [ {| msg_peer := dest; msg_tag := tag;
                                msg_data := envelope_wire th |} ]
    /\ buffer_ok w' /\ nalloc w <= nalloc w'.
Proof.
  intros HN Hw Hh Hlink.
  destruct (grow_buffer_ok 24 w Hw Hh ltac:(lia))
    as (w1 & l & Eg & Hb & Hl & Hn & Hmono & _ & Hs & Hli & _ & _).
  pose proof (envelope_pack_wire th 24 comm l 0 ltac:(lia)
                ltac:(rewrite zlen_envelope_wire; lia) ltac:(lia)) as Ep.
  assert (Hwr : write l 0 (envelope_wire th) = envelope_wire th ++ skipn 24 l)
    by reflexivity.
  unfold p7_tophits_MPISend, bind at 1. rewrite tophits_buffer_size_empty by assumption.
  unfold bind at 1. rewrite Eg.
  unfold bind at 1, pack_buf. rewrite Hb. cbn [deref store]. rewrite Ep.
  cbn [pk_bytes pk_pos]. unfold bind, MPI_Send. cbn [link set_buf buf deref sent].
  rewrite Hli, HN, Hwr. cbn [Z.eqb].
  assert (Hf : firstn (Z.to_nat 24) (envelope_wire th ++ skipn 24 l) = envelope_wire th).
  { change (Z.to_nat 24) with (length (envelope_wire th) + 0)%nat.
    rewrite firstn_app_2. cbn [firstn]. apply app_nil_r. }
  rewrite Hf.
  assert (Hlen : zlen (envelope_wire th ++ skipn 24 l) = nalloc w1).
  { rewrite <- Hwr, zlen_write; [assumption|lia|rewrite zlen_envelope_wire; lia]. }
  destruct (link w) as [|[|] lk]; try discriminate;
    (eexists; split; [reflexivity|]; cbn; unfold buffer_ok; cbn;
     rewrite Hs; repeat split; auto).
Qed.

(** C7. For a collection without hits p7_tophits_MPISend sends exactly one
    message, the 24 bytes of [N], [nreported], [nincluded] as three 64-bit
    integers in that order, and returns [eslOK]; p7_tophits_MPIRecv on that
    message consumes it alone and returns an empty collection with the same
    two counters.  (The sender's buffer is allocated or large enough, no
    allocation, no send, no probe and no receive fails, and the receiver
    asked for this peer and tag or for any.) *)
Theorem empty_collection_is_one_envelope :
  forall (th : P7_TOPHITS) (dest tag source tag' peer : Z) (comm : MPI_Comm)
         (ws wr : world) (rest : list message),
    th_N th = 0 ->
    uint64_ok (th_nreported th) = true -> uint64_ok (th_nincluded th) = true ->
    buffer_ok ws -> no_fault (heap ws) -> hd true (link ws) = true ->
    buffer_ok wr -> no_fault (heap wr) -> channel_ok wr ->
    (tag' = MPI_ANY_TAG \/ tag = tag') -> (source = MPI_ANY_SOURCE \/ peer = source) ->
    inbox wr = {| msg_peer := peer; msg_tag := tag; msg_data := envelope_wire th |} :: rest ->
    exists ws' wr' th',
      p7_tophits_MPISend th dest tag comm ws = (inr tt, ws')
      /\ sent ws' = sent ws ++ [ {| msg_peer := dest; msg_tag := tag;
                                    msg_data := envelope_wire th |} ]
      /\ envelope_wire th
         = encode MPI_LONG_LONG_INT [0] ++ encode MPI_LONG_LONG_INT [th_nreported th]
           ++ encode MPI_LONG_LONG_INT [th_nincluded th]
      /\ zlen (envelope_wire th) = 24
      /\ p7_tophits_MPIRecv source tag' comm wr = (inr (eslOK, Some th'), wr')
      /\ th_unsrt th' = [] /\ th_N th' = 0
      /\ th_nreported th' = th_nreported th /\ th_nincluded th' = th_nincluded th
      /\ inbox wr' = rest.
Proof.
  intros th dest tag source tag' peer comm ws wr rest HN H2 H3 Hws Hhs Hlink Hwr Hhr
         Hch Htag Hsrc Hin.
  destruct (p7_tophits_MPISend_empty th dest tag comm ws HN Hws Hhs Hlink)
    as (ws' & Es & Hsent & _).
  destruct (tophits_recv_envelope source tag' comm wr _ rest th Hin Hwr Hhr Hch)
    as (w2 & Er & Hi2 & _); try assumption.
  { rewrite HN. reflexivity. }
  { exists []. cbn [msg_data]. now rewrite app_nil_r. }
  rewrite HN in Er. cbn [Z.to_nat recv_hits] in Er. unfold catch, ret in Er.
  exists ws', w2. eexists. split; [exact Es|]. split; [exact Hsent|].
  split; [unfold envelope_wire; now rewrite HN|].
  split; [reflexivity|]. split; [exact Er|]. cbn. repeat split. exact Hi2.
Qed.

Lemma empty_collection_is_one_envelope_witness :
  exists ws' wr' th',
    p7_tophits_MPISend no_hits 0 7 tt fresh_world = (inr tt, ws')
    /\ sent ws' = [ {| msg_peer := 0; msg_tag := 7; msg_data := envelope_wire no_hits |} ]
    /\ p7_tophits_MPIRecv MPI_ANY_SOURCE 7 tt envelope_world = (inr (eslOK, Some th'), wr')
    /\ th_unsrt th' = [] /\ th_nreported th' = 0 /\ th_nincluded th' = 0
    /\ inbox wr' = [].
Proof.
  destruct (empty_collection_is_one_envelope no_hits 0 7 MPI_ANY_SOURCE 7 0 tt
              fresh_world envelope_world []
              eq_refl eq_refl eq_refl eq_refl (Forall_nil _) eq_refl
              eq_refl (Forall_nil _) (conj eq_refl eq_refl)
              (or_intror eq_refl) (or_introl eq_refl) eq_refl)
    as (ws' & wr' & th' & Es & Hs & _ & _ & Er & Hu & _ & Hr & Hi & Hin).
  exists ws', wr', th'. repeat split; assumption.
Defined.


(** ** The offsets on the wire *)

Lemma wire_int_shift (l : list Z) (pos k : Z) :
  0 <= pos -> 0 <= k ->
  wire_int l (pos + k) = wire_int (skipn (Z.to_nat pos) l) k.
Proof.
  intros Hp Hk. unfold wire_int.
  replace (Z.to_nat (pos + k)) with (Z.to_nat k + Z.to_nat pos)%nat by lia.
  now rewrite skipn_skipn.
Qed.

Lemma wire_int_skip (t : MPI_Datatype) (v : Z) (rest : list Z) (k : Z) :
  Z.of_nat (type_size t) <= k ->
  wire_int (encode t [v] ++ rest) k = wire_int rest (k - Z.of_nat (type_size t)).
Proof.
  intros Hk. unfold wire_int.
  replace (Z.to_nat k) with (Z.to_nat (k - Z.of_nat (type_size t)) + type_size t)%nat by lia.
  rewrite <- skipn_skipn, skipn_app.
  assert (Hlen : length (encode t [v]) = type_size t)
    by (rewrite length_encode; cbn [length]; lia).
  rewrite Hlen, Nat.sub_diag.
  replace (skipn (type_size t) (encode t [v])) with (@nil Z)
    by (symmetry; apply skipn_all2; lia).
  reflexivity.
Qed.

Lemma wire_int_here (v : Z) (rest : list Z) :
  int_ok v = true -> wire_int (encode MPI_INT [v] ++ rest) 0 = v.
Proof.
  intros Hv. unfold wire_int, encode. cbn [flat_map type_size Z.to_nat skipn].
  rewrite app_nil_r.
  replace (firstn 4 (le_bytes 4 v ++ rest)) with (le_bytes 4 v).
  - rewrite le_val_le_bytes. now apply int_ok_sint.
  - rewrite firstn_app, length_le_bytes, Nat.sub_diag, firstn_O, app_nil_r.
    symmetry. apply firstn_all2. rewrite length_le_bytes. lia.
Qed.

Ltac skip_fields :=
  repeat match goal with
         | |- wire_int (encode ?t [?v] ++ ?r) ?k = _ =>
             let k' := eval vm_compute in (k - Z.of_nat (type_size t)) in
             rewrite (wire_int_skip t v r k) by (vm_compute; discriminate);
             change (k - Z.of_nat (type_size t)) with k'
         end.

Lemma stored_offsets_wire (d : P7_DOMAIN) (bytes : list Z) (pos : Z) :
  dcl_ok d = true -> 0 <= pos -> pos + zlen (dcl_wire d) <= zlen bytes ->
  stored_offsets (write bytes pos (dcl_wire d)) pos
  = map line_offset (ad_refs (dcl_ad d)).
Proof.
  intros Hok Hp Hfit. unfold dcl_ok, ad_ok in Hok. cbn [forallb ad_refs] in Hok.
  split_ok.
  assert (Hint : forall r, line_ok (ad_memsize (dcl_ad d)) r = true ->
                           int_ok (line_offset r) = true)
    by (intros r; now apply line_ok_int).
  unfold stored_offsets, ref_fields, ad_refs. cbn [map].
  rewrite !wire_int_shift by lia. rewrite skipn_write by assumption.
  unfold dcl_wire. cbn [concat]. rewrite <- !app_assoc.
  repeat (f_equal; [skip_fields; apply wire_int_here; auto|]).
  f_equal. skip_fields. apply wire_int_here. auto.
Qed.

(** C4. For the domain message p7_dcl_MPIPack writes for a well-formed
    domain, p7_dcl_MPIUnpack returns, for each of the thirteen references,
    NULL when the offset stored on the wire is -1, and otherwise the position
    at that offset in the pool it allocated: the offset lies inside the pool,
    the pool holds the original bytes, and the line read there is the
    original line. *)
Theorem decoded_references_follow_stored_offsets :
  forall (d : P7_DOMAIN) (bytes : list Z) (n pos : Z) (comm : MPI_Comm) (hp : list bool),
    dcl_ok d = true ->
    0 <= pos -> pos + zlen (dcl_wire d) <= n -> n <= zlen bytes -> no_fault hp ->
    exists packed pos' hp' d' pool,
      p7_dcl_MPIPack d n comm {| pk_bytes := bytes; pk_pos := pos |}
      = (inr tt, {| pk_bytes := packed; pk_pos := pos' |})
      /\ p7_dcl_MPIUnpack packed n comm {| up_pos := pos; up_heap := hp |}
         = (inr d', {| up_pos := pos'; up_heap := hp' |})
      /\ ad_mem (dcl_ad d') = Some pool /\ ad_mem (dcl_ad d) = Some pool
      /\ zlen pool = ad_memsize (dcl_ad d')
      /\ stored_offsets packed pos = map line_offset (ad_refs (dcl_ad d))
      /\ Forall2 (fun stored ref =>
                    (stored = -1 -> ref = None)
                    /\ (stored <> -1 ->
                        ref = Some stored
                        /\ 0 <= stored < zlen pool
                        /\ line_at (ad_mem (dcl_ad d')) stored
                           = line_at (ad_mem (dcl_ad d)) stored))
                 (stored_offsets packed pos) (ad_refs (dcl_ad d')).
Proof.
  intros d bytes n pos comm hp Hd Hp Hfit Hn Hhp.
  destruct (dcl_ok_memsize d Hd) as (Hmem & _ & pool & Epool).
  destruct (pack_then_unpack _ (p7_dcl_MPIPack d n comm)
              (fun b => p7_dcl_MPIUnpack b n comm) (dcl_wire d) d bytes n pos hp
              (p7_dcl_MPIPack_wire d n comm Hmem)
              (fun b => p7_dcl_MPIUnpack_wire b n comm d Hd) Hp Hfit Hn Hhp)
    as (hp' & E1 & E2 & _).
  exists (write bytes pos (dcl_wire d)), (pos + zlen (dcl_wire d)), hp', d, pool.
  rewrite stored_offsets_wire by (try assumption; lia).
  rewrite Epool in Hmem. cbn [pool_bytes] in Hmem.
  repeat split; try assumption; try (symmetry; assumption).
  unfold dcl_ok, ad_ok in Hd. cbn [forallb] in Hd. split_ok.
  match goal with H : forallb _ (ad_refs _) = true |- _ => rename H into Hrefs end.
  rewrite forallb_forall in Hrefs. rewrite Hmem in Hrefs.
  induction (ad_refs (dcl_ad d)) as [|r refs IH]; cbn [map]; constructor.
  - specialize (Hrefs r (or_introl eq_refl)).
    destruct r as [o|]; cbn [line_ok line_offset] in *.
    + apply in_range_spec in Hrefs. split; [lia|]. intros _. repeat split; lia.
    + split; [reflexivity|]. intros Hne. now elim Hne.
  - apply IH. intros x Hx. apply Hrefs. now right.
Qed.

Lemma decoded_references_follow_stored_offsets_witness :
  exists packed d',
    fst (p7_dcl_MPIPack sample_dcl 200 tt {| pk_bytes := repeat 0 200; pk_pos := 0 |})
    = inr tt
    /\ fst (p7_dcl_MPIUnpack packed 200 tt {| up_pos := 0; up_heap := [] |}) = inr d'
    /\ stored_offsets packed 0 = map line_offset (ad_refs (dcl_ad sample_dcl))
    /\ Forall2 (fun stored ref =>
                  (stored = -1 -> ref = None)
                  /\ (stored <> -1 -> ref = Some stored))
               (stored_offsets packed 0) (ad_refs (dcl_ad d')).
Proof.
  assert (Hd : dcl_ok sample_dcl = true) by (vm_compute; reflexivity).
  assert (Hfit : 0 + zlen (dcl_wire sample_dcl) <= 200) by (vm_compute; discriminate).
  assert (Hn : 200 <= zlen (repeat 0 200)) by (vm_compute; discriminate).
  destruct (decoded_references_follow_stored_offsets sample_dcl (repeat 0 200) 200 0 tt []
              Hd ltac:(lia) Hfit Hn (Forall_nil _))
    as (packed & pos' & hp' & d' & pool & E1 & E2 & _ & _ & _ & Hs & Hf).
  exists packed, d'. rewrite E1, E2. repeat split; try assumption.
  revert Hf. apply Forall2_impl. intros a b [H1 H2]. split; [assumption|].
  intros Hne. now destruct (H2 Hne).
Defined.


(** C9. A well-formed display with [memsize = 0] packs (into 148 bytes)
    and unpacks, when no allocation fails, to a display that owns a pool of
    length zero (not NULL) and in which each of the thirteen references is
    NULL. *)
Theorem empty_pool_round_trip :
  forall (d : P7_DOMAIN) (bytes : list Z) (n pos : Z) (comm : MPI_Comm) (hp : list bool),
    dcl_ok d = true -> ad_memsize (dcl_ad d) = 0 ->
    0 <= pos -> pos + 148 <= n -> n <= zlen bytes -> no_fault hp ->
    exists packed hp' d',
      p7_dcl_MPIPack d n comm {| pk_bytes := bytes; pk_pos := pos |}
      = (inr tt, {| pk_bytes := packed; pk_pos := pos + 148 |})
      /\ p7_dcl_MPIUnpack packed n comm {| up_pos := pos; up_heap := hp |}
         = (inr d', {| up_pos := pos + 148; up_heap := hp' |})
      /\ ad_mem (dcl_ad d') = Some []
      /\ ad_memsize (dcl_ad d') = 0
      /\ Forall (fun ref => ref = None) (ad_refs (dcl_ad d'))
      /\ d' = d.
Proof.
  intros d bytes n pos comm hp Hd Hzero Hp Hfit Hn Hhp.
  destruct (dcl_ok_memsize d Hd) as (Hmem & _ & pool & Epool).
  assert (Hlen : zlen (dcl_wire d) = 148) by (rewrite zlen_dcl_wire; lia).
  destruct (pack_then_unpack _ (p7_dcl_MPIPack d n comm)
              (fun b => p7_dcl_MPIUnpack b n comm) (dcl_wire d) d bytes n pos hp
              (p7_dcl_MPIPack_wire d n comm Hmem)
              (fun b => p7_dcl_MPIUnpack_wire b n comm d Hd) Hp
              ltac:(lia) Hn Hhp)
    as (hp' & E1 & E2 & _).
  rewrite Hlen in E1, E2.
  exists (write bytes pos (dcl_wire d)), hp', d.
  repeat split; try assumption.
  - rewrite Epool in *. cbn [pool_bytes] in Hmem.
    destruct pool; [reflexivity|]. unfold zlen in Hmem. cbn [length] in Hmem. lia.
  - unfold dcl_ok, ad_ok in Hd. cbn [forallb] in Hd. split_ok.
    match goal with H : forallb _ (ad_refs _) = true |- _ => rename H into Hrefs end.
    rewrite forallb_forall in Hrefs. apply Forall_forall. intros r Hr.
    specialize (Hrefs r Hr). destruct r as [o|]; [|reflexivity].
    cbn [line_ok] in Hrefs. apply in_range_spec in Hrefs. lia.
Qed.

Lemma empty_pool_round_trip_witness :
  exists packed hp' d',
    p7_dcl_MPIPack empty_dcl 148 tt {| pk_bytes := repeat 0 148; pk_pos := 0 |}
    = (inr tt, {| pk_bytes := packed; pk_pos := 0 + 148 |})
    /\ p7_dcl_MPIUnpack packed 148 tt {| up_pos := 0; up_heap := [] |}
       = (inr d', {| up_pos := 0 + 148; up_heap := hp' |})
    /\ ad_mem (dcl_ad d') = Some []
    /\ Forall (fun ref => ref = None) (ad_refs (dcl_ad d')).
Proof.
  assert (Hd : dcl_ok empty_dcl = true) by (vm_compute; reflexivity).
  assert (Hn : 148 <= zlen (repeat 0 148)) by (vm_compute; discriminate).
  destruct (empty_pool_round_trip empty_dcl (repeat 0 148) 148 0 tt []
              Hd eq_refl ltac:(lia) ltac:(lia) Hn (Forall_nil _))
    as (packed & hp' & d' & E1 & E2 & Hm & _ & Hr & _).
  exists packed, hp', d'. repeat split; assumption.
Defined.


(** ** Bytes read by the unpack functions *)

Section Reads.
Variables (bytes : list Z) (n : Z) (comm : MPI_Comm).

(** The bytes read by a sequence are the bytes read by its steps. *)
Lemma reads_bind {A B : Type} (m : Comp unpackst status A)
    (f : A -> Comp unpackst status B) (size1 : A -> Z) (size : B -> Z) :
  reads n m size1 -> (forall a, reads n (f a) (fun b => size b - size1 a)) ->
  reads n (bind m f) size.
Proof.
  intros Hm Hf s b s'. unfold bind.
  destruct (m s) as [[e|a] s1] eqn:Em; [discriminate|]. intros Ef.
  destruct (Hm _ _ _ Em) as (H1 & H2 & H3).
  destruct (Hf a _ _ _ Ef) as (H4 & H5 & H6).
  split; [lia|]. split; [lia|]. intros Hpos.
  destruct (Z.ltb_spec 0 (size1 a)) as [Ha|Ha];
    destruct (Z.ltb_spec 0 (size b - size1 a)) as [Hb|Hb]; lia.
Qed.

Lemma reads_ret {A : Type} (a : A) (size : A -> Z) :
  size a = 0 -> reads n (ret a) size.
Proof. intros H s a' s' E. inversion E; subst. lia. Qed.

Lemma length_decode (t : MPI_Datatype) (c : nat) (bs : list Z) :
  length (decode t c bs) = c.
Proof. revert bs. induction c as [|c IH]; intros bs; cbn; [reflexivity|now rewrite IH]. Qed.

(** MPI_Unpack reads [c] elements of the type or nothing at all. *)
Lemma reads_MPI_Unpack (c : Z) (t : MPI_Datatype) :
  reads n (MPI_Unpack bytes n c t comm) (fun vs => zlen vs * Z.of_nat (type_size t)).
Proof.
  intros s vs s'. unfold MPI_Unpack.
  destruct ((0 <=? c) && (0 <=? up_pos s) && (up_pos s + c * Z.of_nat (type_size t) <=? n)
            && (n <=? zlen bytes)) eqn:Ec; [|discriminate].
  intros E. inversion E; subst; clear E. cbn [up_pos].
  apply andb_true_iff in Ec. destruct Ec as [Ec _].
  apply andb_true_iff in Ec. destruct Ec as [Ec H3].
  apply andb_true_iff in Ec. destruct Ec as [H1 H2].
  apply Z.leb_le in H1, H2, H3.
  unfold zlen. rewrite length_decode, Z2Nat.id by assumption.
  split; [reflexivity|]. split; [nia|]. intros _. lia.
Qed.

Lemma reads_raw (t : MPI_Datatype) :
  reads n (unpack_raw bytes n t comm) (fun _ => Z.of_nat (type_size t)).
Proof.
  intros s v s'. unfold unpack_raw, bind, ret.
  destruct (MPI_Unpack bytes n 1 t comm s) as [[e|vs] s1] eqn:E; [discriminate|].
  intros E'. inversion E'; subst; clear E'.
  pose proof (reads_MPI_Unpack 1 t _ _ _ E) as (H1 & H2 & H3). cbv beta in *.
  assert (Hl : zlen vs = 1).
  { unfold MPI_Unpack in E.
    destruct ((0 <=? 1) && (0 <=? up_pos s) && (up_pos s + 1 * Z.of_nat (type_size t) <=? n)
              && (n <=? zlen bytes)); [|discriminate].
    inversion E; subst. reflexivity. }
  rewrite Hl in *. lia.
Qed.

Lemma reads_int : reads n (unpack_int bytes n comm) (fun _ => 4).
Proof.
  unfold unpack_int. eapply reads_bind; [apply (reads_raw MPI_INT)|].
  intros a. now apply reads_ret.
Qed.

Lemma reads_long : reads n (unpack_long bytes n comm) (fun _ => 8).
Proof.
  unfold unpack_long. eapply reads_bind; [apply (reads_raw MPI_LONG)|].
  intros a. now apply reads_ret.
Qed.

Lemma reads_float : reads n (unpack_raw bytes n MPI_FLOAT comm) (fun _ => 4).
Proof. apply (reads_raw MPI_FLOAT). Qed.

Lemma reads_double : reads n (unpack_raw bytes n MPI_DOUBLE comm) (fun _ => 8).
Proof. apply (reads_raw MPI_DOUBLE). Qed.

Lemma reads_alloc (size : Z) : reads n (ESL_ALLOC size) (fun _ => 0).
Proof.
  intros s a s'. unfold ESL_ALLOC.
  destruct (heap_alloc size (up_heap s)) as [[|] h]; [|discriminate].
  intros E. inversion E; subst. cbn. lia.
Qed.

Lemma reads_opt :
  reads n (esl_mpi_UnpackOpt bytes n comm) (fun s => zlen (opt_wire s)).
Proof.
  unfold esl_mpi_UnpackOpt. eapply reads_bind; [apply reads_int|].
  intros present. cbv beta. destruct (present =? 0).
  - apply reads_ret. reflexivity.
  - eapply reads_bind; [apply reads_int|]. intros len. cbv beta.
    eapply reads_bind; [apply reads_alloc|]. intros ?. cbv beta.
    eapply reads_bind; [apply reads_MPI_Unpack|]. intros s. cbv beta.
    apply reads_ret. rewrite zlen_opt_wire. cbn [type_size]. lia.
Qed.

(** The unpack functions read as many bytes as the record they return
    takes on the wire. *)
Lemma reads_hit (hit0 : P7_HIT) :
  reads n (p7_hit_MPIUnpack bytes n comm hit0) (fun h => zlen (hit_wire h)).
Proof.
  unfold p7_hit_MPIUnpack.
  repeat (eapply reads_bind;
          [first [apply reads_int | apply reads_float | apply reads_double | apply reads_opt]
          |intros ?; cbv beta]).
  apply reads_ret. rewrite zlen_hit_wire. cbn [hit_name hit_acc hit_desc type_size]. lia.
Qed.

Lemma reads_dcl :
  reads n (p7_dcl_MPIUnpack bytes n comm) (fun d => zlen (dcl_wire d)).
Proof.
  unfold p7_dcl_MPIUnpack.
  repeat (eapply reads_bind;
          [first [apply reads_int | apply reads_long | apply reads_float
                 | apply reads_double | apply reads_alloc | apply reads_MPI_Unpack]
          |intros ?; cbv beta]).
  apply reads_ret. rewrite zlen_dcl_wire. cbn [dcl_ad ad_mem pool_bytes type_size]. lia.
Qed.

End Reads.

(** ** Bytes written by the pack functions *)

Lemma writes_within_refl (n : Z) (b : packbuf) : writes_within n b b.
Proof. unfold writes_within. repeat split; lia. Qed.

Lemma writes_within_trans (n : Z) (a b c : packbuf) :
  writes_within n a b -> writes_within n b c -> writes_within n a c.
Proof.
  intros (L1 & S1 & P1) (L2 & S2 & P2). split; [congruence|]. split; [congruence|].
  intros Ha. destruct (P1 Ha) as [Hab Fab]. destruct (P2 ltac:(lia)) as [Hbc Fbc].
  split; [lia|].
  rewrite <- Fab.
  replace (Z.to_nat (pk_pos a)) with (Nat.min (Z.to_nat (pk_pos a)) (Z.to_nat (pk_pos b)))
    by lia.
  rewrite <- !firstn_firstn. now rewrite Fbc.
Qed.

Lemma firstn_write_before (bytes : list Z) (pos : Z) (data : list Z) :
  0 <= pos -> pos <= zlen bytes ->
  firstn (Z.to_nat pos) (write bytes pos data) = firstn (Z.to_nat pos) bytes.
Proof.
  intros Hp Hl. unfold write, zlen in *.
  rewrite firstn_app, length_firstn.
  replace (Z.to_nat pos - Nat.min (Z.to_nat pos) (length bytes))%nat with 0%nat by lia.
  rewrite firstn_O, app_nil_r, firstn_firstn. f_equal. lia.
Qed.

(** MPI_Pack writes at the position and below [n] only. *)
Lemma MPI_Pack_within (inbuf : list Z) (incount : Z) (t : MPI_Datatype)
    (n : Z) (comm : MPI_Comm) :
  respects (writes_within n) (MPI_Pack inbuf incount t n comm).
Proof.
  intros b. unfold MPI_Pack.
  match goal with |- context [if ?c then _ else _] => destruct c eqn:Hc end;
    cbn [snd]; [|apply writes_within_refl].
  rewrite !andb_true_iff, !Z.leb_le in Hc.
  destruct Hc as ((((H1 & H2) & H3) & H4) & H5).
  set (data := encode t (firstn (Z.to_nat incount) inbuf)) in *.
  pose proof (zlen_nonneg data) as Hd.
  unfold writes_within. cbn [pk_bytes pk_pos].
  split; [apply zlen_write; lia|]. split.
  - replace (Z.to_nat n)
      with (Z.to_nat (pk_pos b) + length data
            + (Z.to_nat n - Z.to_nat (pk_pos b) - length data))%nat
      by (unfold zlen in *; lia).
    apply skipn_write_past; lia.
  - intros _. split; [lia|]. apply firstn_write_before; lia.
Qed.

Lemma check_overflow_within (n : Z) : respects (writes_within n) (check_overflow n).
Proof.
  intros b. unfold check_overflow. destruct (pk_pos b >? n); apply writes_within_refl.
Qed.

Lemma PackOpt_within (s : option (list Z)) (n : Z) (comm : MPI_Comm) :
  respects (writes_within n) (esl_mpi_PackOpt s n comm).
Proof.
  destruct s; unfold esl_mpi_PackOpt;
    repeat (apply (respects_bind _ (writes_within_trans n)); [|intros _]);
    apply MPI_Pack_within.
Qed.

Lemma p7_hit_MPIPack_within (h : P7_HIT) (n : Z) (comm : MPI_Comm) :
  respects (writes_within n) (p7_hit_MPIPack h n comm).
Proof.
  unfold p7_hit_MPIPack.
  repeat (apply (respects_bind _ (writes_within_trans n));
          [first [apply MPI_Pack_within | apply PackOpt_within]|intros _]).
  apply check_overflow_within.
Qed.

Lemma p7_dcl_MPIPack_within (d : P7_DOMAIN) (n : Z) (comm : MPI_Comm) :
  respects (writes_within n) (p7_dcl_MPIPack d n comm).
Proof.
  unfold p7_dcl_MPIPack.
  repeat (apply (respects_bind _ (writes_within_trans n));
          [apply MPI_Pack_within|intros _]).
  apply check_overflow_within.
Qed.

(** After a successful MPI_Pack the position is at most [n]. *)
Lemma MPI_Pack_stops (inbuf : list Z) (incount : Z) (t : MPI_Datatype)
    (n : Z) (comm : MPI_Comm) :
  stops_below n (MPI_Pack inbuf incount t n comm).
Proof.
  intros b u b'. unfold MPI_Pack.
  match goal with |- context [if ?c then _ else _] => destruct c eqn:Hc end;
    [|discriminate].
  rewrite !andb_true_iff, !Z.leb_le in Hc. intros E. inversion E; subst. cbn. lia.
Qed.

Lemma stops_below_bind (n : Z) (m1 m2 : Comp packbuf status unit) :
  stops_below n m2 -> stops_below n (m1 ;;; m2).
Proof.
  intros H b u b'. unfold bind. destruct (m1 b) as [[e|a] b1]; [discriminate|].
  apply H.
Qed.

Lemma PackOpt_stops (s : option (list Z)) (n : Z) (comm : MPI_Comm) :
  stops_below n (esl_mpi_PackOpt s n comm).
Proof.
  destruct s; unfold esl_mpi_PackOpt; repeat apply stops_below_bind; apply MPI_Pack_stops.
Qed.

(** A failing MPI_Pack is reported as eslESYS and as nothing else. *)
Lemma MPI_Pack_only_ESYS (bad : status) (inbuf : list Z) (incount : Z) (t : MPI_Datatype)
    (n : Z) (comm : MPI_Comm) :
  bad <> eslESYS -> never_throws bad (MPI_Pack inbuf incount t n comm).
Proof.
  intros Hbad b. unfold MPI_Pack.
  match goal with |- context [if ?c then _ else _] => destruct c end; cbn; congruence.
Qed.

Lemma PackOpt_only_ESYS (bad : status) (s : option (list Z)) (n : Z) (comm : MPI_Comm) :
  bad <> eslESYS -> never_throws bad (esl_mpi_PackOpt s n comm).
Proof.
  intros Hbad. destruct s; unfold esl_mpi_PackOpt;
    repeat (apply never_throws_bind; [|intros _]); now apply MPI_Pack_only_ESYS.
Qed.

Lemma then_check_only_ESYS (bad : status) (m : Comp packbuf status unit) (n : Z) :
  stops_below n m -> never_throws bad m -> never_throws bad (m ;;; check_overflow n).
Proof.
  intros Hs Hm b. unfold bind. specialize (Hm b).
  destruct (m b) as [[e|u] b1] eqn:E; [exact Hm|].
  unfold check_overflow. specialize (Hs _ _ _ E).
  destruct (Z.gtb_spec (pk_pos b1) n); [lia|]. cbn. discriminate.
Qed.

Lemma p7_hit_MPIPack_only_ESYS (bad : status) (h : P7_HIT) (n : Z) (comm : MPI_Comm) :
  bad <> eslESYS -> never_throws bad (p7_hit_MPIPack h n comm).
Proof.
  intros Hbad. unfold p7_hit_MPIPack.
  repeat first [ apply then_check_only_ESYS;
                 [apply PackOpt_stops|now apply PackOpt_only_ESYS]
               | apply never_throws_bind;
                 [first [now apply MPI_Pack_only_ESYS | now apply PackOpt_only_ESYS]
                 |intros _] ].
Qed.

Lemma p7_dcl_MPIPack_only_ESYS (bad : status) (d : P7_DOMAIN) (n : Z) (comm : MPI_Comm) :
  bad <> eslESYS -> never_throws bad (p7_dcl_MPIPack d n comm).
Proof.
  intros Hbad. unfold p7_dcl_MPIPack.
  repeat first [ apply then_check_only_ESYS;
                 [apply MPI_Pack_stops|now apply MPI_Pack_only_ESYS]
               | apply never_throws_bind; [now apply MPI_Pack_only_ESYS|intros _] ].
Qed.

(** ** Sizes and statuses of the pack functions *)

Lemma hit_wire_min (h : P7_HIT) : 96 <= zlen (hit_wire h).
Proof.
  rewrite zlen_hit_wire, !zlen_opt_wire.
  destruct (hit_name h) as [a|], (hit_acc h) as [b|], (hit_desc h) as [c|];
    try pose proof (zlen_nonneg a); try pose proof (zlen_nonneg b);
    try pose proof (zlen_nonneg c); lia.
Qed.

Lemma dcl_wire_min (d : P7_DOMAIN) : 148 <= zlen (dcl_wire d).
Proof.
  rewrite zlen_dcl_wire. pose proof (zlen_nonneg (pool_bytes (ad_mem (dcl_ad d)))). lia.
Qed.

(** The status of a pack function that runs out of room. *)
Lemma pack_overflow_is_ESYS (m : Comp packbuf status unit) (n : Z) (data bytes : list Z)
    (pos : Z) :
  overflows m n data -> (forall bad, bad <> eslESYS -> never_throws bad m) ->
  0 <= pos -> n <= zlen bytes -> n < pos + zlen data ->
  fst (m {| pk_bytes := bytes; pk_pos := pos |}) = inl eslESYS.
Proof.
  intros Ho Hn Hp Hl Hover. destruct (Ho bytes pos Hp Hl Hover) as (e & b & E).
  rewrite E. cbn [fst]. destruct e; try reflexivity; exfalso;
    match type of E with _ = (inl ?e, _) =>
      apply (Hn e ltac:(discriminate) {| pk_bytes := bytes; pk_pos := pos |});
      rewrite E; reflexivity
    end.
Qed.

(** X1. p7_hit_MPIPackSize is exact. For a hit whose record fits an int it
    returns eslOK and a size [n] of at least 96 bytes, and p7_hit_MPIPack,
    started at a position [pos >= 0] of a buffer of at least [lim] bytes,
    succeeds and advances the position by exactly [n] when [pos + n <= lim],
    and returns eslESYS when [pos + n > lim]. *)
Theorem hit_pack_size_is_exact :
  forall (h : P7_HIT) (comm : MPI_Comm) (bytes : list Z) (pos lim : Z),
    zlen (hit_wire h) <= INT_MAX -> 0 <= pos -> lim <= zlen bytes ->
    exists n : Z,
      p7_hit_MPIPackSize h comm = (eslOK, n) /\ 96 <= n
      /\ (pos + n <= lim ->
          exists packed,
            p7_hit_MPIPack h lim comm {| pk_bytes := bytes; pk_pos := pos |}
            = (inr tt, {| pk_bytes := packed; pk_pos := pos + n |}))
      /\ (lim < pos + n ->
          fst (p7_hit_MPIPack h lim comm {| pk_bytes := bytes; pk_pos := pos |})
          = inl eslESYS).
Proof.
  intros h comm bytes pos lim Hmax Hpos Hlim. exists (zlen (hit_wire h)).
  split; [now apply p7_hit_MPIPackSize_exact|]. split; [apply hit_wire_min|]. split.
  - intros Hfit. eexists. now apply p7_hit_MPIPack_wire.
  - intros Hover. apply (pack_overflow_is_ESYS _ lim (hit_wire h)); try assumption.
    + apply p7_hit_MPIPack_overflows.
    + intros bad Hbad. now apply p7_hit_MPIPack_only_ESYS.
Qed.

Lemma hit_pack_size_is_exact_witness :
  exists n : Z,
    p7_hit_MPIPackSize sample_hit tt = (eslOK, n) /\ 96 <= n
    /\ fst (p7_hit_MPIPack sample_hit 108 tt {| pk_bytes := repeat 0 200; pk_pos := 0 |})
       = inl eslESYS.
Proof.
  assert (H1 : zlen (hit_wire sample_hit) <= INT_MAX) by (vm_compute; discriminate).
  assert (H2 : 0 <= 0) by lia.
  assert (H3 : 108 <= zlen (repeat 0 200)) by (vm_compute; discriminate).
  destruct (hit_pack_size_is_exact sample_hit tt (repeat 0 200) 0 108 H1 H2 H3)
    as (n & En & Hn & _ & Hover).
  exists n. split; [exact En|]. split; [exact Hn|]. apply Hover.
  assert (E : p7_hit_MPIPackSize sample_hit tt = (eslOK, 109)) by (vm_compute; reflexivity).
  rewrite E in En. inversion En. lia.
Defined.

(** X2. p7_dcl_MPIPackSize is four bytes short for every well-formed domain:
    it returns eslOK and [n = 144 + memsize], while p7_dcl_MPIPack advances
    the position by [n + 4] when that fits below [lim] and returns eslESYS
    when [pos + n + 4 > lim]. A buffer of exactly the computed size is
    therefore refused. *)
Theorem dcl_pack_size_is_four_short :
  forall (d : P7_DOMAIN) (comm : MPI_Comm) (bytes : list Z) (pos lim : Z),
    dcl_ok d = true -> 148 + ad_memsize (dcl_ad d) <= INT_MAX ->
    0 <= pos -> lim <= zlen bytes ->
    exists n : Z,
      p7_dcl_MPIPackSize d comm = (eslOK, n) /\ n = 144 + ad_memsize (dcl_ad d)
      /\ (pos + n + 4 <= lim ->
          exists packed,
            p7_dcl_MPIPack d lim comm {| pk_bytes := bytes; pk_pos := pos |}
            = (inr tt, {| pk_bytes := packed; pk_pos := pos + n + 4 |}))
      /\ (lim < pos + n + 4 ->
          fst (p7_dcl_MPIPack d lim comm {| pk_bytes := bytes; pk_pos := pos |})
          = inl eslESYS).
Proof.
  intros d comm bytes pos lim Hok Hmax Hpos Hlim.
  destruct (dcl_ok_memsize d Hok) as (Hm & Hm0 & _).
  assert (Hw : zlen (dcl_wire d) = 144 + ad_memsize (dcl_ad d) + 4)
    by (rewrite zlen_dcl_wire; lia).
  exists (144 + ad_memsize (dcl_ad d)).
  split; [apply p7_dcl_MPIPackSize_value; lia|]. split; [reflexivity|]. split.
  - intros Hfit. eexists.
    replace (pos + (144 + ad_memsize (dcl_ad d)) + 4) with (pos + zlen (dcl_wire d)) by lia.
    apply p7_dcl_MPIPack_wire; try assumption; lia.
  - intros Hover. apply (pack_overflow_is_ESYS _ lim (dcl_wire d)); try assumption; try lia.
    + now apply p7_dcl_MPIPack_overflows.
    + intros bad Hbad. now apply p7_dcl_MPIPack_only_ESYS.
Qed.

Lemma dcl_pack_size_is_four_short_witness :
  exists n : Z,
    p7_dcl_MPIPackSize sample_dcl tt = (eslOK, n) /\ n = 152
    /\ fst (p7_dcl_MPIPack sample_dcl 152 tt {| pk_bytes := repeat 0 152; pk_pos := 0 |})
       = inl eslESYS.
Proof.
  assert (H1 : dcl_ok sample_dcl = true) by (vm_compute; reflexivity).
  assert (H2 : 148 + ad_memsize (dcl_ad sample_dcl) <= INT_MAX) by (vm_compute; discriminate).
  assert (H3 : 0 <= 0) by lia.
  assert (H4 : 152 <= zlen (repeat 0 152)) by (vm_compute; discriminate).
  destruct (dcl_pack_size_is_four_short sample_dcl tt (repeat 0 152) 0 152 H1 H2 H3 H4)
    as (n & En & Hn & _ & Hover).
  assert (Hn' : n = 152) by (rewrite Hn; vm_compute; reflexivity).
  exists n. split; [exact En|]. split; [exact Hn'|]. apply Hover. lia.
Defined.

(** X3. On every input p7_hit_MPIPack and p7_dcl_MPIPack end in one of two
    ways: with success and the position at most [n], or with eslESYS. The
    closing test [*pos > n] never fires and eslEMEM is never returned,
    because MPI_Pack refuses a write that would pass [n]. *)
Theorem pack_returns_ok_or_ESYS :
  forall (h : P7_HIT) (d : P7_DOMAIN) (n : Z) (comm : MPI_Comm) (b : packbuf),
    let rh := p7_hit_MPIPack h n comm b in
    let rd := p7_dcl_MPIPack d n comm b in
    ((fst rh = inr tt /\ pk_pos (snd rh) <= n) \/ fst rh = inl eslESYS)
    /\ ((fst rd = inr tt /\ pk_pos (snd rd) <= n) \/ fst rd = inl eslESYS).
Proof.
  intros h d n comm b rh rd.
  assert (G : forall m : Comp packbuf status unit,
             (forall bad, bad <> eslESYS -> never_throws bad m) ->
             stops_below n m ->
             (fst (m b) = inr tt /\ pk_pos (snd (m b)) <= n) \/ fst (m b) = inl eslESYS).
  { intros m Hn Hs. destruct (m b) as [[e|[]] b'] eqn:E; cbn [fst snd].
    - right. destruct e; try reflexivity; exfalso;
        match type of E with _ = (inl ?e, _) =>
          apply (Hn e ltac:(discriminate) b); rewrite E; reflexivity
        end.
    - left. split; [reflexivity|]. eapply Hs. exact E. }
  split; apply G.
  - intros bad Hbad. now apply p7_hit_MPIPack_only_ESYS.
  - unfold p7_hit_MPIPack. repeat apply stops_below_bind.
    intros b0 u b'. unfold check_overflow. destruct (Z.gtb_spec (pk_pos b0) n);
      [discriminate|]. intros E. inversion E; subst. lia.
  - intros bad Hbad. now apply p7_dcl_MPIPack_only_ESYS.
  - unfold p7_dcl_MPIPack. repeat apply stops_below_bind.
    intros b0 u b'. unfold check_overflow. destruct (Z.gtb_spec (pk_pos b0) n);
      [discriminate|]. intros E. inversion E; subst. lia.
Qed.

(** X4. However they end, p7_hit_MPIPack and p7_dcl_MPIPack keep the length
    of the buffer, leave the bytes from [n] on and the bytes before the
    starting position as they were, and never move the position back. *)
Theorem pack_writes_within_bounds :
  forall (h : P7_HIT) (d : P7_DOMAIN) (n : Z) (comm : MPI_Comm) (b : packbuf),
    writes_within n b (snd (p7_hit_MPIPack h n comm b))
    /\ writes_within n b (snd (p7_dcl_MPIPack d n comm b)).
Proof.
  intros h d n comm b. split; [apply p7_hit_MPIPack_within|apply p7_dcl_MPIPack_within].
Qed.

(** ** Statuses of the unpack functions *)

Lemma MPI_Unpack_status (bad : status) (bytes : list Z) (n c : Z) (t : MPI_Datatype)
    (comm : MPI_Comm) :
  bad <> eslESYS -> never_throws bad (MPI_Unpack bytes n c t comm).
Proof.
  intros Hb s. unfold MPI_Unpack.
  match goal with |- context [if ?c then _ else _] => destruct c end; cbn; congruence.
Qed.

Lemma unpack_raw_status (bad : status) (bytes : list Z) (n : Z) (t : MPI_Datatype)
    (comm : MPI_Comm) :
  bad <> eslESYS -> never_throws bad (unpack_raw bytes n t comm).
Proof.
  intros Hb.
  apply never_throws_bind; [now apply MPI_Unpack_status|intros; apply never_throws_ret].
Qed.

Lemma unpack_int_status (bad : status) (bytes : list Z) (n : Z) (comm : MPI_Comm) :
  bad <> eslESYS -> never_throws bad (unpack_int bytes n comm).
Proof.
  intros Hb.
  apply never_throws_bind; [now apply unpack_raw_status|intros; apply never_throws_ret].
Qed.

Lemma unpack_long_status (bad : status) (bytes : list Z) (n : Z) (comm : MPI_Comm) :
  bad <> eslESYS -> never_throws bad (unpack_long bytes n comm).
Proof.
  intros Hb.
  apply never_throws_bind; [now apply unpack_raw_status|intros; apply never_throws_ret].
Qed.

Lemma ESL_ALLOC_status (bad : status) (size : Z) :
  bad <> eslEMEM -> never_throws bad (ESL_ALLOC size).
Proof.
  intros Hb s. unfold ESL_ALLOC. destruct (heap_alloc _ _) as [[|] h]; cbn; congruence.
Qed.

Lemma envelope_status (bad : status) (bytes : list Z) (n : Z) (comm : MPI_Comm) :
  bad <> eslESYS ->
  never_throws bad
    (nhits <- unpack_raw bytes n MPI_LONG_LONG_INT comm ;;
     nreported <- unpack_raw bytes n MPI_LONG_LONG_INT comm ;;
     nincluded <- unpack_raw bytes n MPI_LONG_LONG_INT comm ;;
     ret (nhits, nreported, nincluded)).
Proof.
  intros Hb.
  repeat (apply never_throws_bind; [now apply unpack_raw_status|intros ?]).
  apply never_throws_ret.
Qed.

Section Unpack_status.
Variable bad : status.
Hypothesis bad_ESYS : bad <> eslESYS.
Hypothesis bad_EMEM : bad <> eslEMEM.

Lemma UnpackOpt_status (bytes : list Z) (n : Z) (comm : MPI_Comm) :
  never_throws bad (esl_mpi_UnpackOpt bytes n comm).
Proof.
  unfold esl_mpi_UnpackOpt.
  apply never_throws_bind; [now apply unpack_int_status|intros present].
  destruct (present =? 0); [apply never_throws_ret|].
  apply never_throws_bind; [now apply unpack_int_status|intros len].
  apply never_throws_bind; [now apply ESL_ALLOC_status|intros _].
  apply never_throws_bind; [now apply MPI_Unpack_status|intros; apply never_throws_ret].
Qed.

Lemma p7_hit_MPIUnpack_status (bytes : list Z) (n : Z) (comm : MPI_Comm) (hit : P7_HIT) :
  never_throws bad (p7_hit_MPIUnpack bytes n comm hit).
Proof.
  unfold p7_hit_MPIUnpack.
  repeat (apply never_throws_bind;
          [first [now apply unpack_raw_status | now apply unpack_int_status
                 | apply UnpackOpt_status]
          |intros ?]);
  apply never_throws_ret.
Qed.

End Unpack_status.

(** A computation that throws neither of the other statuses throws
    eslESYS or eslEMEM. *)
Lemma status_ESYS_or_EMEM {S A : Type} (m : Comp S status A) (s : S) (e : status) (s' : S) :
  (forall bad, bad <> eslESYS -> bad <> eslEMEM -> never_throws bad m) ->
  m s = (inl e, s') -> e = eslESYS \/ e = eslEMEM.
Proof.
  intros Hn E. destruct e; auto; exfalso;
    match type of E with _ = (inl ?e, _) =>
      apply (Hn e ltac:(discriminate) ltac:(discriminate) s); rewrite E; reflexivity
    end.
Qed.

(** X5. On any buffer contents and from any state, p7_hit_MPIUnpack either
    fails with eslESYS or eslEMEM, or returns a record and advances the
    position by exactly the number of bytes p7_hit_MPIPack writes for that
    record, from a position that is not negative and without passing [n].
    Whenever p7_dcl_MPIUnpack returns a record, it has likewise advanced by
    exactly the number of bytes p7_dcl_MPIPack writes for it, within the
    same bounds. *)
Theorem unpack_consumes_what_pack_writes :
  forall (bytes : list Z) (n : Z) (comm : MPI_Comm) (hit0 : P7_HIT) (s : unpackst),
    match p7_hit_MPIUnpack bytes n comm hit0 s with
    | (inr h, s') =>
        up_pos s' = up_pos s + zlen (hit_wire h) /\ 0 <= up_pos s /\ up_pos s' <= n
    | (inl e, _) => e = eslESYS \/ e = eslEMEM
    end
    /\ match p7_dcl_MPIUnpack bytes n comm s with
       | (inr d, s') =>
           up_pos s' = up_pos s + zlen (dcl_wire d) /\ 0 <= up_pos s /\ up_pos s' <= n
       | (inl _, _) => True
       end.
Proof.
  intros bytes n comm hit0 s. split.
  - destruct (p7_hit_MPIUnpack bytes n comm hit0 s) as [[e|h] s'] eqn:E.
    + eapply status_ESYS_or_EMEM; [|exact E].
      intros bad H1 H2. now apply p7_hit_MPIUnpack_status.
    + destruct (reads_hit bytes n comm hit0 _ _ _ E) as (H1 & H2 & H3).
      pose proof (hit_wire_min h). split; [assumption|]. apply H3. lia.
  - destruct (p7_dcl_MPIUnpack bytes n comm s) as [[e|d] s'] eqn:E; [exact I|].
    destruct (reads_dcl bytes n comm _ _ _ E) as (H1 & H2 & H3).
    pose proof (dcl_wire_min d). split; [assumption|]. apply H3. lia.
Qed.

(** X6. A well-formed hit and a well-formed domain packed one after the
    other at [pos] are read back by p7_hit_MPIUnpack followed by
    p7_dcl_MPIUnpack from [pos]: the hit comes back with the domain list
    the caller's hit had, the domain as it was, packing and unpacking stop
    at the same byte, and the bytes before [pos] and the length of the
    buffer are unchanged. *)
Theorem consecutive_records_round_trip :
  forall (h hit0 : P7_HIT) (d : P7_DOMAIN) (bytes : list Z) (n pos : Z)
         (comm : MPI_Comm) (hp : list bool),
    hit_ok h = true -> dcl_ok d = true ->
    0 <= pos -> pos + zlen (hit_wire h) + zlen (dcl_wire d) <= n ->
    n <= zlen bytes -> no_fault hp ->
    exists packed hp',
      (p7_hit_MPIPack h n comm ;;; p7_dcl_MPIPack d n comm)
        {| pk_bytes := bytes; pk_pos := pos |}
      = (inr tt, {| pk_bytes := packed;
                    pk_pos := pos + zlen (hit_wire h) + zlen (dcl_wire d) |})
      /\ (h' <- p7_hit_MPIUnpack packed n comm hit0 ;;
          d' <- p7_dcl_MPIUnpack packed n comm ;;
          ret (h', d')) {| up_pos := pos; up_heap := hp |}
         = (inr (set_hit_dcl (hit_dcl hit0) h, d),
            {| up_pos := pos + zlen (hit_wire h) + zlen (dcl_wire d); up_heap := hp' |})
      /\ firstn (Z.to_nat pos) packed = firstn (Z.to_nat pos) bytes
      /\ zlen packed = zlen bytes.
Proof.
  intros h hit0 d bytes n pos comm hp Hh Hd Hpos Hfit Hn Hhp.
  destruct (dcl_ok_memsize d Hd) as (Hm & _ & _).
  pose proof (packs_to_bind _ _ n _ _ (p7_hit_MPIPack_wire h n comm)
                (p7_dcl_MPIPack_wire d n comm Hm)) as Hp.
  assert (Hu : forall packed,
             unpacks_to packed n
               (h' <- p7_hit_MPIUnpack packed n comm hit0 ;;
                d' <- p7_dcl_MPIUnpack packed n comm ;;
                ret (h', d'))
               (hit_wire h ++ dcl_wire d) (set_hit_dcl (hit_dcl hit0) h, d)).
  { intros packed. eapply unpacks_bind; [now apply p7_hit_MPIUnpack_wire|].
    rewrite <- (app_nil_r (dcl_wire d)).
    eapply unpacks_bind; [now apply p7_dcl_MPIUnpack_wire|]. apply unpacks_ret. }
  destruct (pack_then_unpack _ _ _ (hit_wire h ++ dcl_wire d) _ bytes n pos hp Hp Hu)
    as (hp' & E1 & E2 & _); try assumption; [rewrite zlen_app; lia|].
  rewrite zlen_app, Z.add_assoc in E1, E2.
  exists (write bytes pos (hit_wire h ++ dcl_wire d)), hp'.
  split; [exact E1|]. split; [exact E2|]. split.
  - apply firstn_write_before; pose proof (zlen_nonneg (hit_wire h ++ dcl_wire d));
      rewrite ?zlen_app in *; lia.
  - apply zlen_write; rewrite ?zlen_app; lia.
Qed.

Lemma consecutive_records_round_trip_witness :
  exists packed hp',
    (h' <- p7_hit_MPIUnpack packed 300 tt blank_hit ;;
     d' <- p7_dcl_MPIUnpack packed 300 tt ;;
     ret (h', d')) {| up_pos := 10; up_heap := [] |}
    = (inr (set_hit_dcl (hit_dcl blank_hit) sample_hit, sample_dcl),
       {| up_pos := 10 + zlen (hit_wire sample_hit) + zlen (dcl_wire sample_dcl);
          up_heap := hp' |})
    /\ firstn (Z.to_nat 10) packed = firstn (Z.to_nat 10) (repeat 7 300).
Proof.
  assert (H1 : hit_ok sample_hit = true) by (vm_compute; reflexivity).
  assert (H2 : dcl_ok sample_dcl = true) by (vm_compute; reflexivity).
  assert (H3 : 0 <= 10) by lia.
  assert (H4 : 10 + zlen (hit_wire sample_hit) + zlen (dcl_wire sample_dcl) <= 300)
    by (vm_compute; discriminate).
  assert (H5 : 300 <= zlen (repeat 7 300)) by (vm_compute; discriminate).
  destruct (consecutive_records_round_trip sample_hit blank_hit sample_dcl (repeat 7 300)
              300 10 tt [] H1 H2 H3 H4 H5 (Forall_nil _))
    as (packed & hp' & _ & E & F & _).
  exists packed, hp'. split; [exact E|exact F].
Defined.

(** ** Receiving the records of a transfer *)

Lemma carries_pad (frame : list Z) (m : message) :
  carries frame m -> exists pad, msg_data m = frame ++ pad.
Proof.
  intros H. exists (skipn (length frame) (msg_data m)).
  unfold carries in H. rewrite <- H at 1. symmetry. apply firstn_skipn.
Qed.

(** A ready receiver that finds a message carrying the record of a
    well-formed domain gets that domain and stays ready. *)
Lemma p7_dcl_MPIRecv_ok (source tag : Z) (comm : MPI_Comm) (w : world)
    (m : message) (rest : list message) (d : P7_DOMAIN) :
  inbox w = m :: rest -> ready w -> from_peer source tag m ->
  dcl_ok d = true -> carries (dcl_wire d) m ->
  exists w1,
    p7_dcl_MPIRecv source tag comm w = (inr d, w1)
    /\ inbox w1 = rest /\ ready w1 /\ sent w1 = sent w /\ th_live w1 = th_live w
    /\ nalloc w <= nalloc w1.
Proof.
  intros Hin (Hw & Hh & Hch) (Htag & Hsrc) Hok Hc.
  destruct (carries_pad _ _ Hc) as (pad & Hdata).
  destruct (probe_and_receive_ok source tag comm w m rest Hin Hw Hh Hch Htag Hsrc)
    as (w1 & l & Ep & Hb1 & Hl1 & Hmono & Hi1 & Hs1 & _ & Ht1 & Hh1 & Hch1).
  assert (Hb1' : buf w1 = Some (dcl_wire d ++ (pad ++ l)))
    by (rewrite Hb1, Hdata, <- app_assoc; reflexivity).
  assert (Hlen : zlen (dcl_wire d ++ pad ++ l) = nalloc w1)
    by (rewrite app_assoc, <- Hdata; exact Hl1).
  destruct (unpack_buf_ok (fun b => p7_dcl_MPIUnpack b (nalloc w1) comm)
              (dcl_wire d) (pad ++ l) d (nalloc w1) w1 Hb1'
              (p7_dcl_MPIUnpack_wire _ _ comm d Hok))
    as (h2 & Eu & Hh2);
    [rewrite <- Hlen, zlen_app; pose proof (zlen_nonneg (pad ++ l)); lia
    |rewrite Hlen; lia|exact Hh1|].
  exists (set_heap h2 w1). split.
  - unfold p7_dcl_MPIRecv, bind at 1. rewrite Ep. unfold bind, get. exact Eu.
  - unfold ready, buffer_ok, channel_ok in *. cbn. rewrite Hb1. cbn.
    repeat split; auto; try tauto.
Qed.

(** The loop of p7_hit_MPIRecv over the domains of a hit. *)
Lemma recv_domains_ok (source tag : Z) (comm : MPI_Comm) (ds : list P7_DOMAIN) :
  forall (w : world) (ms rest : list message),
    inbox w = ms ++ rest -> ready w -> Forall (from_peer source tag) ms ->
    forallb dcl_ok ds = true -> Forall2 carries (map dcl_wire ds) ms ->
    exists w1,
      recv_domains (length ds) source tag comm w = (inr ds, w1)
      /\ inbox w1 = rest /\ ready w1 /\ sent w1 = sent w /\ th_live w1 = th_live w
      /\ nalloc w <= nalloc w1.
Proof.
  induction ds as [|d ds IH]; intros w ms rest Hin Hr Hfrom Hok Hc.
  - inversion Hc; subst. exists w. cbn [app] in Hin.
    split; [reflexivity|]. split; [assumption|]. split; [assumption|].
    repeat split; lia.
  - cbn [map] in Hc. inversion Hc as [|f m fs ms' Hcm Hcs]; subst.
    inversion Hfrom as [|? ? Hfm Hfs]; subst.
    cbn [forallb] in Hok. apply andb_true_iff in Hok. destruct Hok as [Hd Hds].
    destruct (p7_dcl_MPIRecv_ok source tag comm w m (ms' ++ rest) d Hin Hr Hfm Hd Hcm)
      as (w1 & E1 & Hi1 & Hr1 & Hs1 & Ht1 & Hn1).
    destruct (IH w1 ms' rest Hi1 Hr1 Hfs Hds Hcs) as (w2 & E2 & Hi2 & Hr2 & Hs2 & Ht2 & Hn2).
    exists w2. split.
    + cbn [length recv_domains]. unfold bind at 1. rewrite E1.
      unfold bind, ret. rewrite E2. reflexivity.
    + split; [assumption|]. split; [assumption|].
      repeat split; try congruence; lia.
Qed.

Lemma hit_ok_parts (h : P7_HIT) :
  hit_ok h = true ->
  hit_ndom h = zlen (hit_dcl h) /\ forallb dcl_ok (hit_dcl h) = true.
Proof.
  intros H. unfold hit_ok in H. split_ok.
  split; [now apply Z.eqb_eq|assumption].
Qed.

Lemma set_hit_dcl_twice (h : P7_HIT) (d : list P7_DOMAIN) :
  set_hit_dcl (hit_dcl h) (set_hit_dcl d h) = h.
Proof. destruct h. reflexivity. Qed.

(** p7_hit_MPIRecv pins the source and tag of the hit message for the
    domain messages that follow it. *)
Lemma p7_hit_MPIRecv_ok (source tag : Z) (comm : MPI_Comm) (w : world)
    (m : message) (ms rest : list message) (h hit0 : P7_HIT) :
  inbox w = m :: ms ++ rest -> ready w -> from_peer source tag m ->
  Forall (from_peer (msg_peer m) (msg_tag m)) ms ->
  hit_ok h = true -> Forall2 carries (hit_frames h) (m :: ms) ->
  exists w1,
    p7_hit_MPIRecv source tag comm hit0 w = (inr h, w1)
    /\ inbox w1 = rest /\ ready w1 /\ sent w1 = sent w /\ th_live w1 = th_live w
    /\ nalloc w <= nalloc w1.
Proof.
  intros Hin (Hw & Hh & Hch) (Htag & Hsrc) Hfrom Hok Hc.
  unfold hit_frames in Hc. inversion Hc as [|f m' fs ms' Hcm Hcs]; subst.
  destruct (hit_ok_parts h Hok) as (Hnd & Hds).
  destruct (carries_pad _ _ Hcm) as (pad & Hdata).
  destruct (probe_and_receive_ok source tag comm w m (ms ++ rest) Hin Hw Hh Hch Htag Hsrc)
    as (w1 & l & Ep & Hb1 & Hl1 & Hmono & Hi1 & Hs1 & _ & Ht1 & Hh1 & Hch1).
  assert (Hb1' : buf w1 = Some (hit_wire h ++ (pad ++ l)))
    by (rewrite Hb1, Hdata, <- app_assoc; reflexivity).
  assert (Hm : zlen (hit_wire h) <= zlen (msg_data m) <= nalloc w1).
  { rewrite <- Hl1, Hdata, !zlen_app.
    pose proof (zlen_nonneg pad). pose proof (zlen_nonneg l). lia. }
  destruct (unpack_buf_ok
              (fun b => p7_hit_MPIUnpack b (zlen (msg_data m)) comm hit0)
              (hit_wire h) (pad ++ l) (set_hit_dcl (hit_dcl hit0) h)
              (zlen (msg_data m)) w1 Hb1'
              (p7_hit_MPIUnpack_wire _ _ comm h hit0 Hok))
    as (h2 & Eu & Hh2);
    [lia|rewrite app_assoc, <- Hdata, Hl1; lia|exact Hh1|].
  destruct (ESL_ALLOC_obj_ok (sizeof_P7_DOMAIN * hit_ndom h) (set_heap h2 w1))
    as (h3 & Ea & Hh3);
    [unfold sizeof_P7_DOMAIN; rewrite Hnd; pose proof (zlen_nonneg (hit_dcl h)); lia
    |exact Hh2|].
  set (w3 := set_heap h3 (set_heap h2 w1)) in *.
  assert (Hr3 : ready w3).
  { unfold ready, buffer_ok, channel_ok in *. cbn. rewrite Hb1. cbn. tauto. }
  destruct (recv_domains_ok (msg_peer m) (msg_tag m) comm (hit_dcl h) w3 ms rest)
    as (w4 & Er & Hi4 & Hr4 & Hs4 & Ht4 & Hn4); try assumption.
  exists w4. split.
  - unfold p7_hit_MPIRecv, bind at 1. rewrite Ep.
    unfold bind at 1. rewrite Eu.
    unfold bind at 1. cbn [hit_ndom set_hit_dcl]. rewrite Ea. fold w3.
    rewrite Hnd. unfold zlen. rewrite Nat2Z.id.
    unfold bind, ret. rewrite Er. f_equal. f_equal. destruct h; reflexivity.
  - cbn in Hs4, Ht4, Hn4. split; [assumption|]. split; [assumption|].
    repeat split; try congruence; lia.
Qed.

Lemma from_peer_same (source tag : Z) (m m' : message) :
  msg_peer m' = msg_peer m -> msg_tag m' = msg_tag m ->
  from_peer (msg_peer m) (msg_tag m) m'.
Proof. intros Hp Ht. split; right; assumption. Qed.

Lemma accepts_from (source tag p t : Z) (m : message) :
  accepts source tag p t -> same_origin p t m -> from_peer source tag m.
Proof. intros [H1 H2] [Hp Ht]. unfold from_peer. rewrite Hp, Ht. tauto. Qed.

Lemma accepts_pinned (p t : Z) : accepts p t p t.
Proof. split; right; reflexivity. Qed.

Lemma same_origin_from (p t : Z) (m : message) (ms : list message) :
  same_origin p t m -> Forall (same_origin p t) ms ->
  Forall (from_peer (msg_peer m) (msg_tag m)) ms.
Proof.
  intros [Hp Ht] H. rewrite Hp, Ht.
  eapply Forall_impl; [|exact H]. intros m' Hm'.
  apply (accepts_from p t p t); [apply accepts_pinned|assumption].
Qed.

(** The loop of p7_tophits_MPIRecv over the hits of a collection. *)
Lemma recv_hits_ok (source tag p t : Z) (comm : MPI_Comm) (hs : list P7_HIT) :
  forall (th0 : P7_TOPHITS) (w : world) (ms rest : list message),
    inbox w = ms ++ rest -> ready w -> accepts source tag p t ->
    Forall (same_origin p t) ms ->
    forallb hit_ok hs = true -> Forall2 carries (flat_map hit_frames hs) ms ->
    exists w1,
      recv_hits (length hs) source tag comm th0 w
      = (inr {| th_unsrt := th_unsrt th0 ++ hs; th_N := th_N th0 + zlen hs;
                th_nreported := th_nreported th0; th_nincluded := th_nincluded th0 |}, w1)
      /\ inbox w1 = rest /\ ready w1 /\ sent w1 = sent w /\ th_live w1 = th_live w
      /\ nalloc w <= nalloc w1.
Proof.
  induction hs as [|h hs IH]; intros th0 w ms rest Hin Hr Hacc Hfrom Hok Hc.
  - inversion Hc; subst. exists w. cbn [app] in Hin.
    split.
    + cbn [length recv_hits]. unfold ret. rewrite app_nil_r.
      change (zlen (@nil P7_HIT)) with 0. rewrite Z.add_0_r. destruct th0; reflexivity.
    + split; [assumption|]. split; [assumption|]. repeat split; lia.
  - cbn [flat_map] in Hc. apply Forall2_app_inv_l in Hc.
    destruct Hc as (ms1 & ms2 & Hc1 & Hc2 & ->).
    apply Forall_app in Hfrom. destruct Hfrom as [Hf1 Hf2].
    cbn [forallb] in Hok. apply andb_true_iff in Hok. destruct Hok as [Hh Hhs].
    destruct ms1 as [|m ms1]; [inversion Hc1|].
    inversion Hf1 as [|? ? Hfm Hfms]; subst.
    destruct Hr as (Hw & Hhp & Hch).
    destruct (p7_tophits_CreateNextHit_ok th0 w Hhp) as (h1 & Ec & Hh1).
    assert (Hr1 : ready (set_heap h1 w)) by (unfold ready, buffer_ok, channel_ok in *; cbn; tauto).
    destruct (p7_hit_MPIRecv_ok source tag comm (set_heap h1 w) m ms1 (ms2 ++ rest) h blank_hit)
      as (w2 & Eh & Hi2 & Hr2 & Hs2 & Ht2 & Hn2); try assumption.
    { cbn. rewrite Hin, <- app_assoc. reflexivity. }
    { eapply accepts_from; eassumption. }
    { eapply same_origin_from; eassumption. }
    destruct (IH (store_hit h {| th_unsrt := th_unsrt th0 ++ [blank_hit]; th_N := th_N th0 + 1;
                                 th_nreported := th_nreported th0;
                                 th_nincluded := th_nincluded th0 |})
                 w2 ms2 rest Hi2 Hr2 Hacc Hf2 Hhs Hc2)
      as (w3 & Er & Hi3 & Hr3 & Hs3 & Ht3 & Hn3).
    exists w3. split.
    + cbn [length recv_hits]. unfold bind at 1. rewrite Ec. cbn [fst snd].
      unfold bind. rewrite Eh, Er. f_equal. f_equal.
      unfold store_hit. cbn [th_unsrt th_N th_nreported th_nincluded].
      rewrite removelast_last, <- app_assoc. cbn [app].
      f_equal. unfold zlen. cbn [length]. lia.
    + cbn in Hs2, Ht2, Hn2. split; [assumption|]. split; [assumption|].
      repeat split; try congruence; lia.
Qed.

Lemma th_ok_parts (th : P7_TOPHITS) :
  th_ok th = true ->
  uint64_ok (th_N th) = true /\ uint64_ok (th_nreported th) = true
  /\ uint64_ok (th_nincluded th) = true
  /\ th_N th = zlen (th_unsrt th) /\ forallb hit_ok (th_unsrt th) = true.
Proof.
  intros H. unfold th_ok in H. split_ok. repeat split; try assumption.
  now apply Z.eqb_eq.
Qed.

Lemma p7_tophits_MPIRecv_ok (source tag : Z) (comm : MPI_Comm) (w : world)
    (m : message) (ms rest : list message) (th : P7_TOPHITS) :
  inbox w = m :: ms ++ rest -> ready w -> from_peer source tag m ->
  Forall (same_origin (msg_peer m) (msg_tag m)) ms ->
  th_ok th = true -> Forall2 carries (tophits_frames th) (m :: ms) ->
  exists w1,
    p7_tophits_MPIRecv source tag comm w = (inr (eslOK, Some th), w1)
    /\ inbox w1 = rest /\ ready w1 /\ sent w1 = sent w /\ th_live w1 = th_live w + 1
    /\ nalloc w <= nalloc w1.
Proof.
  intros Hin (Hw & Hh & Hch) (Htag & Hsrc) Hfrom Hok Hc.
  destruct (th_ok_parts th Hok) as (H1 & H2 & H3 & HN & Hhs).
  unfold tophits_frames in Hc. inversion Hc as [|f m' fs ms' Hcm Hcs]; subst.
  destruct (tophits_recv_envelope source tag comm w m (ms ++ rest) th
              Hin Hw Hh Hch Htag Hsrc H1 H2 H3 (carries_pad _ _ Hcm))
    as (w2 & E & Hi2 & Hw2 & Hn2 & Hs2 & Ht2 & Hh2 & Hch2).
  destruct (recv_hits_ok (msg_peer m) (msg_tag m) (msg_peer m) (msg_tag m) comm
              (th_unsrt th)
              {| th_unsrt := []; th_N := 0; th_nreported := th_nreported th;
                 th_nincluded := th_nincluded th |} w2 ms rest)
    as (w3 & Er & Hi3 & Hr3 & Hs3 & Ht3 & Hn3); try assumption.
  { unfold ready. tauto. }
  { apply accepts_pinned. }
  exists w3. split.
  - rewrite E. unfold catch. rewrite HN. unfold zlen at 1. rewrite Nat2Z.id, Er.
    unfold ret. f_equal. f_equal. f_equal. cbn [th_unsrt th_N th_nreported th_nincluded app].
    rewrite <- HN. destruct th; reflexivity.
  - split; [assumption|]. split; [assumption|].
    repeat split; try congruence; lia.
Qed.

(** ** A stray message inside a transfer *)

Section Stray.
Variables (p t : Z) (comm : MPI_Comm) (m : message) (rest : list message).
Hypothesis stray :
  (t <> MPI_ANY_TAG /\ msg_tag m <> t) \/ (p <> MPI_ANY_SOURCE /\ msg_peer m <> p).

Lemma p7_dcl_MPIRecv_stray (w : world) :
  inbox w = m :: rest -> probes w = [] ->
  p7_dcl_MPIRecv p t comm w = (inl (Throw eslFAIL), w).
Proof.
  intros Hin Hpr. unfold p7_dcl_MPIRecv, bind.
  now rewrite (probe_and_receive_mismatch p t comm w m rest Hin Hpr stray).
Qed.

Lemma p7_hit_MPIRecv_head_stray (hit0 : P7_HIT) (w : world) :
  inbox w = m :: rest -> probes w = [] ->
  p7_hit_MPIRecv p t comm hit0 w = (inl (Throw eslFAIL), w).
Proof.
  intros Hin Hpr. unfold p7_hit_MPIRecv, bind.
  now rewrite (probe_and_receive_mismatch p t comm w m rest Hin Hpr stray).
Qed.

Lemma pinned_from (ms : list message) :
  Forall (same_origin p t) ms -> Forall (from_peer p t) ms.
Proof.
  intros H. eapply Forall_impl; [|exact H]. intros m' Hm'.
  apply (accepts_from p t p t); [apply accepts_pinned|assumption].
Qed.

(** The loop over the domains of a hit meets the stray message after [k]
    domain messages. *)
Lemma recv_domains_stray (ds : list P7_DOMAIN) :
  forall (k : nat) (w : world) (ms : list message),
    (k < length ds)%nat -> inbox w = ms ++ m :: rest -> ready w ->
    Forall (same_origin p t) ms -> forallb dcl_ok ds = true ->
    Forall2 carries (firstn k (map dcl_wire ds)) ms ->
    exists w1,
      recv_domains (length ds) p t comm w = (inl (Throw eslFAIL), w1)
      /\ inbox w1 = m :: rest /\ th_live w1 = th_live w.
Proof.
  induction ds as [|d ds IH]; intros k w ms Hk Hin Hr Ho Hok Hc;
    [cbn [length] in Hk; lia|].
  cbn [forallb] in Hok. apply andb_true_iff in Hok. destruct Hok as [Hd Hds].
  cbn [length recv_domains]. destruct k as [|k].
  - cbn [firstn] in Hc. inversion Hc; subst. cbn [app] in Hin.
    destruct Hr as (_ & _ & Hpr & _).
    exists w. unfold bind. rewrite (p7_dcl_MPIRecv_stray w Hin Hpr). auto.
  - cbn [map firstn] in Hc. inversion Hc as [|f m1 fs ms' Hcm Hcs]; subst.
    inversion Ho as [|? ? Ho1 Hos]; subst.
    destruct (p7_dcl_MPIRecv_ok p t comm w m1 (ms' ++ m :: rest) d Hin Hr
                (accepts_from p t p t m1 (accepts_pinned p t) Ho1) Hd Hcm)
      as (w1 & E1 & Hi1 & Hr1 & _ & Ht1 & _).
    cbn [length] in Hk.
    destruct (IH k w1 ms' ltac:(lia) Hi1 Hr1 Hos Hds Hcs) as (w2 & E2 & Hi2 & Ht2).
    exists w2. unfold bind at 1. rewrite E1. unfold bind. rewrite E2.
    split; [reflexivity|]. split; [assumption|congruence].
Qed.

(** p7_hit_MPIRecv meets the stray message after the hit message and
    [k - 1] of its domain messages. *)
Lemma p7_hit_MPIRecv_stray (source0 tag0 : Z) (hit0 h : P7_HIT) (k : nat) (w : world)
    (ms : list message) :
  (1 <= k < length (hit_frames h))%nat ->
  inbox w = ms ++ m :: rest -> ready w -> accepts source0 tag0 p t ->
  Forall (same_origin p t) ms -> hit_ok h = true ->
  Forall2 carries (firstn k (hit_frames h)) ms ->
  exists w1,
    p7_hit_MPIRecv source0 tag0 comm hit0 w = (inl (Throw eslFAIL), w1)
    /\ inbox w1 = m :: rest /\ th_live w1 = th_live w.
Proof.
  intros Hk Hin (Hw & Hh & Hch) Hacc Ho Hok Hc.
  destruct k as [|k]; [lia|].
  unfold hit_frames in Hc, Hk. cbn [firstn length] in Hc, Hk.
  rewrite length_map in Hk.
  inversion Hc as [|f m0 fs ms' Hcm Hcs]; subst.
  inversion Ho as [|? ? Ho0 Hos]; subst.
  destruct (accepts_from source0 tag0 p t m0 Hacc Ho0) as [Htag Hsrc].
  destruct Ho0 as [Hp0 Ht0].
  destruct (hit_ok_parts h Hok) as (Hnd & Hds).
  destruct (carries_pad _ _ Hcm) as (pad & Hdata).
  cbn [app] in Hin.
  destruct (probe_and_receive_ok source0 tag0 comm w m0 (ms' ++ m :: rest)
              Hin Hw Hh Hch Htag Hsrc)
    as (w1 & l & Ep & Hb1 & Hl1 & Hmono & Hi1 & Hs1 & _ & Ht1 & Hh1 & Hch1).
  assert (Hb1' : buf w1 = Some (hit_wire h ++ (pad ++ l)))
    by (rewrite Hb1, Hdata, <- app_assoc; reflexivity).
  assert (Hm : zlen (hit_wire h) <= zlen (msg_data m0) <= nalloc w1).
  { rewrite <- Hl1, Hdata, !zlen_app.
    pose proof (zlen_nonneg pad). pose proof (zlen_nonneg l). lia. }
  destruct (unpack_buf_ok
              (fun b => p7_hit_MPIUnpack b (zlen (msg_data m0)) comm hit0)
              (hit_wire h) (pad ++ l) (set_hit_dcl (hit_dcl hit0) h)
              (zlen (msg_data m0)) w1 Hb1'
              (p7_hit_MPIUnpack_wire _ _ comm h hit0 Hok))
    as (h2 & Eu & Hh2);
    [lia|rewrite app_assoc, <- Hdata, Hl1; lia|exact Hh1|].
  destruct (ESL_ALLOC_obj_ok (sizeof_P7_DOMAIN * hit_ndom h) (set_heap h2 w1))
    as (h3 & Ea & Hh3);
    [unfold sizeof_P7_DOMAIN; rewrite Hnd; pose proof (zlen_nonneg (hit_dcl h)); lia
    |exact Hh2|].
  set (w3 := set_heap h3 (set_heap h2 w1)) in *.
  assert (Hr3 : ready w3).
  { unfold ready, buffer_ok, channel_ok in *. cbn. rewrite Hb1. cbn. tauto. }
  destruct (recv_domains_stray (hit_dcl h) k w3 ms' ltac:(lia) Hi1 Hr3 Hos Hds Hcs)
    as (w4 & Er & Hi4 & Ht4).
  exists w4. split.
  - unfold p7_hit_MPIRecv, bind at 1. rewrite Ep.
    unfold bind at 1. rewrite Eu.
    unfold bind at 1. cbn [hit_ndom set_hit_dcl]. rewrite Ea. fold w3.
    rewrite Hnd. unfold zlen. rewrite Nat2Z.id.
    unfold bind. rewrite Hp0, Ht0, Er. reflexivity.
  - split; [assumption|]. cbn in Ht4. congruence.
Qed.

(** The loop over the hits of a collection meets the stray message after
    [k] messages of hits and domains. *)
Lemma recv_hits_stray (hs : list P7_HIT) :
  forall (k : nat) (th0 : P7_TOPHITS) (w : world) (ms : list message),
    (k < length (flat_map hit_frames hs))%nat ->
    inbox w = ms ++ m :: rest -> ready w ->
    Forall (same_origin p t) ms -> forallb hit_ok hs = true ->
    Forall2 carries (firstn k (flat_map hit_frames hs)) ms ->
    exists w1,
      recv_hits (length hs) p t comm th0 w = (inl (Throw eslFAIL), w1)
      /\ inbox w1 = m :: rest /\ th_live w1 = th_live w.
Proof.
  induction hs as [|h hs IH]; intros k th0 w ms Hk Hin Hr Ho Hok Hc;
    [cbn in Hk; lia|].
  cbn [forallb] in Hok. apply andb_true_iff in Hok. destruct Hok as [Hh Hhs].
  cbn [flat_map] in Hc, Hk. rewrite length_app in Hk.
  destruct Hr as (Hw & Hhp & Hch).
  destruct (p7_tophits_CreateNextHit_ok th0 w Hhp) as (h1 & Ec & Hh1).
  assert (Hr1 : ready (set_heap h1 w))
    by (unfold ready, buffer_ok, channel_ok in *; cbn; tauto).
  cbn [length recv_hits]. unfold bind at 1. rewrite Ec. cbn [fst snd].
  destruct (Nat.lt_ge_cases k (length (hit_frames h))) as [Hlt|Hge].
  - rewrite firstn_app in Hc.
    replace (k - length (hit_frames h))%nat with 0%nat in Hc by lia.
    rewrite firstn_O, app_nil_r in Hc.
    destruct k as [|k].
    + cbn [firstn] in Hc. inversion Hc; subst. cbn [app] in Hin.
      exists (set_heap h1 w). unfold bind.
      rewrite (p7_hit_MPIRecv_head_stray blank_hit (set_heap h1 w) Hin (proj1 Hch)).
      auto.
    + destruct (p7_hit_MPIRecv_stray p t blank_hit h (S k) (set_heap h1 w) ms
                  ltac:(lia) Hin Hr1 (accepts_pinned p t) Ho Hh Hc)
        as (w2 & Eh & Hi2 & Ht2).
      exists w2. unfold bind. rewrite Eh. auto.
  - rewrite firstn_app, firstn_all2 in Hc by lia.
    apply Forall2_app_inv_l in Hc. destruct Hc as (ms1 & ms2 & Hc1 & Hc2 & ->).
    apply Forall_app in Ho. destruct Ho as [Ho1 Ho2].
    destruct ms1 as [|m0 ms1]; [inversion Hc1|].
    inversion Ho1 as [|? ? Hom Homs]; subst.
    destruct (p7_hit_MPIRecv_ok p t comm (set_heap h1 w) m0 ms1 (ms2 ++ m :: rest)
                h blank_hit)
      as (w2 & Eh & Hi2 & Hr2 & _ & Ht2 & _); try assumption.
    { cbn. rewrite Hin, <- app_assoc. reflexivity. }
    { eapply accepts_from; [apply accepts_pinned|eassumption]. }
    { eapply same_origin_from; eassumption. }
    destruct (IH (k - length (hit_frames h))%nat
                 (store_hit h {| th_unsrt := th_unsrt th0 ++ [blank_hit];
                                 th_N := th_N th0 + 1;
                                 th_nreported := th_nreported th0;
                                 th_nincluded := th_nincluded th0 |})
                 w2 ms2 ltac:(lia) Hi2 Hr2 Ho2 Hhs Hc2)
      as (w3 & Er & Hi3 & Ht3).
    exists w3. unfold bind. rewrite Eh, Er.
    split; [reflexivity|]. split; [assumption|]. cbn in Ht2. congruence.
Qed.

(** p7_tophits_MPIRecv meets the stray message after the envelope and
    [k - 1] messages of hits and domains: it destroys the collection it was
    building and returns [eslFAIL]. *)
Lemma p7_tophits_MPIRecv_stray (source0 tag0 : Z) (th : P7_TOPHITS) (k : nat) (w : world)
    (ms : list message) :
  (1 <= k < length (tophits_frames th))%nat ->
  inbox w = ms ++ m :: rest -> ready w -> accepts source0 tag0 p t ->
  Forall (same_origin p t) ms -> th_ok th = true ->
  Forall2 carries (firstn k (tophits_frames th)) ms ->
  exists w1,
    p7_tophits_MPIRecv source0 tag0 comm w = (inr (eslFAIL, None), w1)
    /\ inbox w1 = m :: rest /\ th_live w1 = th_live w.
Proof.
  intros Hk Hin (Hw & Hh & Hch) Hacc Ho Hok Hc.
  destruct k as [|k]; [lia|].
  unfold tophits_frames in Hc, Hk. cbn [firstn length] in Hc, Hk.
  inversion Hc as [|f m0 fs ms' Hcm Hcs]; subst.
  inversion Ho as [|? ? Ho0 Hos]; subst.
  destruct (accepts_from source0 tag0 p t m0 Hacc Ho0) as [Htag Hsrc].
  destruct Ho0 as [Hp0 Ht0].
  destruct (th_ok_parts th Hok) as (H1 & H2 & H3 & HN & Hhs).
  cbn [app] in Hin.
  destruct (tophits_recv_envelope source0 tag0 comm w m0 (ms' ++ m :: rest) th
              Hin Hw Hh Hch Htag Hsrc H1 H2 H3 (carries_pad _ _ Hcm))
    as (w2 & E & Hi2 & Hw2 & _ & _ & Ht2 & Hh2 & Hch2).
  destruct (recv_hits_stray (th_unsrt th) k
              {| th_unsrt := []; th_N := 0; th_nreported := th_nreported th;
                 th_nincluded := th_nincluded th |} w2 ms' ltac:(lia) Hi2
              (conj Hw2 (conj Hh2 Hch2)) Hos Hhs Hcs)
    as (w3 & Er & Hi3 & Ht3).
  exists (set_th_live (th_live w3 - 1) w3). split.
  - rewrite E, Hp0, Ht0. unfold catch. rewrite HN. unfold zlen. rewrite Nat2Z.id, Er.
    reflexivity.
  - split; [exact Hi3|]. cbn. lia.
Qed.

End Stray.

(** C5. A message that MPI_Probe reports and whose tag or source differs
    from the one the receive function was given (and that is not the
    wildcard) makes each of the three receive functions fail with [eslFAIL],
    which is neither the channel-failure nor the allocation-failure status,
    and leaves the message in the channel.  The tag and source that the
    first message of a transfer resolved are the ones every later message
    of the transfer is held to: once the messages of the first [k >= 1]
    records of a collection (the envelope, then hits and domains in the
    order in which they are sent) have been accepted, and the next message
    differs from their source or tag, p7_tophits_MPIRecv destroys the
    collection it was building and returns [eslFAIL] with a NULL
    collection; in the same way p7_hit_MPIRecv fails with [eslFAIL] after
    the hit message and any number of its domain messages.  In both cases
    the stray message stays in the channel. *)
Theorem unexpected_peer_fails :
  forall (source tag : Z) (comm : MPI_Comm) (hit : P7_HIT) (w : world)
         (m : message) (rest : list message),
    inbox w = m :: rest -> channel_ok w ->
    (tag <> MPI_ANY_TAG /\ msg_tag m <> tag)
    \/ (source <> MPI_ANY_SOURCE /\ msg_peer m <> source) ->
    p7_dcl_MPIRecv source tag comm w = (inl (Throw eslFAIL), w)
    /\ p7_hit_MPIRecv source tag comm hit w = (inl (Throw eslFAIL), w)
    /\ p7_tophits_MPIRecv source tag comm w = (inr (eslFAIL, None), w)
    /\ eslFAIL <> eslESYS /\ eslFAIL <> eslEMEM /\ eslFAIL <> eslOK
    /\ (forall (source0 tag0 : Z) (w0 : world) (ms : list message)
               (th : P7_TOPHITS) (k : nat),
           inbox w0 = ms ++ m :: rest -> ready w0 ->
           accepts source0 tag0 source tag -> Forall (same_origin source tag) ms ->
           th_ok th = true -> (1 <= k < length (tophits_frames th))%nat ->
           Forall2 carries (firstn k (tophits_frames th)) ms ->
           exists w', p7_tophits_MPIRecv source0 tag0 comm w0 = (inr (eslFAIL, None), w')
                      /\ inbox w' = m :: rest /\ th_live w' = th_live w0)
    /\ (forall (source0 tag0 : Z) (w0 : world) (ms : list message)
               (h : P7_HIT) (k : nat),
           inbox w0 = ms ++ m :: rest -> ready w0 ->
           accepts source0 tag0 source tag -> Forall (same_origin source tag) ms ->
           hit_ok h = true -> (1 <= k < length (hit_frames h))%nat ->
           Forall2 carries (firstn k (hit_frames h)) ms ->
           exists w', p7_hit_MPIRecv source0 tag0 comm hit w0 = (inl (Throw eslFAIL), w')
                      /\ inbox w' = m :: rest).
Proof.
  intros source tag comm hit w m rest Hin [Hpr Hre] Hbad.
  split; [now apply (p7_dcl_MPIRecv_stray source tag comm m rest Hbad)|].
  split; [now apply (p7_hit_MPIRecv_head_stray source tag comm m rest Hbad)|].
  split.
  { unfold p7_tophits_MPIRecv, catch, tophits_recv_open, bind.
    now rewrite (probe_and_receive_mismatch source tag comm w m rest Hin Hpr Hbad). }
  do 3 (split; [discriminate|]). split.
  - intros source0 tag0 w0 ms th k Hin0 Hr0 Hacc Ho Hok Hk Hc.
    exact (p7_tophits_MPIRecv_stray source tag comm m rest Hbad source0 tag0 th k w0 ms
             Hk Hin0 Hr0 Hacc Ho Hok Hc).
  - intros source0 tag0 w0 ms h k Hin0 Hr0 Hacc Ho Hok Hk Hc.
    destruct (p7_hit_MPIRecv_stray source tag comm m rest Hbad source0 tag0 hit h k w0 ms
                Hk Hin0 Hr0 Hacc Ho Hok Hc) as (w' & E & Hi & _).
    exists w'. split; assumption.
Qed.

Lemma unexpected_peer_fails_witness :
  p7_dcl_MPIRecv 3 7 tt stray_world = (inl (Throw eslFAIL), stray_world)
  /\ p7_hit_MPIRecv 3 7 tt blank_hit stray_world = (inl (Throw eslFAIL), stray_world)
  /\ p7_tophits_MPIRecv 3 7 tt stray_world = (inr (eslFAIL, None), stray_world)
  /\ (exists w', p7_tophits_MPIRecv MPI_ANY_SOURCE MPI_ANY_TAG tt crossed_world
                  = (inr (eslFAIL, None), w')
                  /\ th_live w' = th_live crossed_world)
  /\ (exists w', p7_tophits_MPIRecv MPI_ANY_SOURCE MPI_ANY_TAG tt late_stray_world
                  = (inr (eslFAIL, None), w')
                  /\ inbox w' = [stray_message]
                  /\ th_live w' = th_live late_stray_world).
Proof.
  assert (Hbad : (7 <> MPI_ANY_TAG /\ msg_tag stray_message <> 7)
                 \/ (3 <> MPI_ANY_SOURCE /\ msg_peer stray_message <> 3))
    by (right; split; discriminate).
  assert (Hok : th_ok one_hit = true) by (vm_compute; reflexivity).
  assert (Hacc : accepts MPI_ANY_SOURCE MPI_ANY_TAG 3 7)
    by (split; left; reflexivity).
  assert (Hr1 : ready crossed_world).
  { split; [vm_compute; reflexivity|]. split; [constructor|split; reflexivity]. }
  assert (Hr2 : ready late_stray_world).
  { split; [vm_compute; reflexivity|]. split; [constructor|split; reflexivity]. }
  assert (Hk1 : (1 <= 1 < length (tophits_frames one_hit))%nat) by (vm_compute; lia).
  assert (Hk2 : (1 <= 2 < length (tophits_frames one_hit))%nat) by (vm_compute; lia).
  assert (Ho1 : Forall (same_origin 3 7)
                  [ {| msg_peer := 3; msg_tag := 7; msg_data := envelope_wire one_hit |} ])
    by (repeat constructor).
  assert (Hc1 : Forall2 carries (firstn 1 (tophits_frames one_hit))
                  [ {| msg_peer := 3; msg_tag := 7; msg_data := envelope_wire one_hit |} ]).
  { repeat constructor. }
  assert (Ho2 : Forall (same_origin 3 7) (firstn 2 one_hit_messages))
    by (vm_compute; repeat constructor).
  assert (Hc2 : Forall2 carries (firstn 2 (tophits_frames one_hit))
                  (firstn 2 one_hit_messages))
    by (vm_compute; repeat constructor).
  destruct (unexpected_peer_fails 3 7 tt blank_hit stray_world stray_message []
              eq_refl (conj eq_refl eq_refl) Hbad)
    as (Hd & Hh & Ht & _ & _ & _ & Hpin & _).
  split; [exact Hd|]. split; [exact Hh|]. split; [exact Ht|]. split.
  - destruct (Hpin MPI_ANY_SOURCE MPI_ANY_TAG crossed_world
                [ {| msg_peer := 3; msg_tag := 7; msg_data := envelope_wire one_hit |} ]
                one_hit 1%nat
                eq_refl Hr1 Hacc Ho1 Hok Hk1 Hc1) as (w' & E & _ & Hl).
    exists w'. split; assumption.
  - destruct (Hpin MPI_ANY_SOURCE MPI_ANY_TAG late_stray_world
                (firstn 2 one_hit_messages) one_hit 2%nat
                eq_refl Hr2 Hacc Ho2 Hok Hk2 Hc2) as (w' & E & Hi & Hl).
    exists w'. split; [exact E|]. split; assumption.
Defined.

(** ** Sending over a link that may fail *)

Lemma no_fault_clear (c : nat) (l : list bool) : no_fault l -> clear_for c l.
Proof.
  unfold no_fault, clear_for. revert c.
  induction l as [|b l IH]; intros c H; [rewrite firstn_nil; constructor|].
  inversion H; subst. destruct c as [|c]; cbn [firstn]; constructor; auto.
Qed.

Lemma clear_for_S (c : nat) (l : list bool) :
  clear_for (S c) l -> hd true l = true /\ clear_for c (tl l).
Proof.
  unfold clear_for. destruct l as [|b l]; cbn [firstn hd tl].
  - intros _. split; [reflexivity|]. destruct c; constructor.
  - intros H. inversion H; subst. split; [reflexivity|assumption].
Qed.

Lemma clear_for_app (a b : nat) (l : list bool) :
  clear_for (a + b) l -> clear_for a l /\ clear_for b (skipn a l).
Proof.
  revert l. induction a as [|a IH]; intros l H.
  - split; [constructor|exact H].
  - destruct l as [|x l].
    + split; [constructor|]. cbn [skipn]. unfold clear_for. rewrite firstn_nil. constructor.
    + unfold clear_for in *. cbn [Nat.add firstn skipn] in *. inversion H; subst.
      destruct (IH l) as [H1 H2]; [assumption|]. split; [now constructor|assumption].
Qed.



Lemma skipn_tl {A : Type} (k : nat) (l : list A) : skipn k (tl l) = skipn (S k) l.
Proof. destruct l; [now rewrite !skipn_nil|reflexivity]. Qed.

Lemma carries_app (frame pad : list Z) (p t : Z) :
  carries frame {| msg_peer := p; msg_tag := t; msg_data := frame ++ pad |}.
Proof.
  unfold carries. cbn [msg_data].
  rewrite firstn_app, Nat.sub_diag, firstn_O, app_nil_r. apply firstn_all.
Qed.


Lemma dcl_fits (d : P7_DOMAIN) (n : Z) :
  zlen (dcl_wire d) <= n -> 0 < zlen (dcl_wire d) <= n.
Proof.
  rewrite zlen_dcl_wire. pose proof (zlen_nonneg (pool_bytes (ad_mem (dcl_ad d)))). lia.
Qed.

Lemma hit_fits (h : P7_HIT) (n : Z) :
  zlen (hit_wire h) <= n -> 0 < zlen (hit_wire h) <= n.
Proof.
  rewrite zlen_hit_wire.
  pose proof (zlen_nonneg (opt_wire (hit_name h))).
  pose proof (zlen_nonneg (opt_wire (hit_acc h))).
  pose proof (zlen_nonneg (opt_wire (hit_desc h))). lia.
Qed.

(** A domain whose record fits the buffer goes out as one message, on a
    link whose next send succeeds. *)
Lemma p7_dcl_MPISend_ok (d : P7_DOMAIN) (dest tag : Z) (comm : MPI_Comm) (w : world) :
  dcl_ok d = true -> buffer_ok w -> zlen (dcl_wire d) <= nalloc w ->
  hd true (link w) = true ->
  exists w1 m,
    p7_dcl_MPISend d dest tag comm w = (inr tt, w1)
    /\ sent w1 = sent w ++ [m] /\ same_origin dest tag m /\ carries (dcl_wire d) m
    /\ nalloc w1 = nalloc w /\ buffer_ok w1 /\ link w1 = tl (link w).
Proof.
  intros Hok Hw Hfit Hl.
  destruct (dcl_ok_memsize d Hok) as (Hm & _ & _).
  destruct (pack_and_send_message (fun n => p7_dcl_MPIPack d n comm) (dcl_wire d)
              dest tag comm w Hw (p7_dcl_MPIPack_wire d (nalloc w) comm Hm)
              (dcl_fits d _ Hfit) Hl)
    as (w1 & E & Hs & Hn & Hw1 & Hl1).
  exists w1. eexists. split; [exact E|]. split; [exact Hs|].
  split; [split; reflexivity|]. split; [apply carries_app|]. auto.
Qed.


Lemma send_domains_ok (dest tag : Z) (comm : MPI_Comm) (ds : list P7_DOMAIN) :
  forall w : world,
    forallb dcl_ok ds = true -> buffer_ok w ->
    Forall (fun f => zlen f <= nalloc w) (map dcl_wire ds) ->
    clear_for (length ds) (link w) ->
    exists w1 ms,
      for_each ds (fun dcl => p7_dcl_MPISend dcl dest tag comm) w = (inr tt, w1)
      /\ sent w1 = sent w ++ ms /\ Forall (same_origin dest tag) ms
      /\ Forall2 carries (map dcl_wire ds) ms
      /\ nalloc w1 = nalloc w /\ buffer_ok w1 /\ link w1 = skipn (length ds) (link w).
Proof.
  induction ds as [|d ds IH]; intros w Hok Hw Hfit Hl.
  - exists w, []. cbn. rewrite app_nil_r. repeat split; auto; constructor.
  - cbn [forallb] in Hok. apply andb_true_iff in Hok. destruct Hok as [Hd Hds].
    cbn [map] in Hfit. inversion Hfit as [|? ? Hf1 Hf2]; subst.
    cbn [length] in Hl. destruct (clear_for_S _ _ Hl) as [Hhd Htl].
    destruct (p7_dcl_MPISend_ok d dest tag comm w Hd Hw Hf1 Hhd)
      as (w1 & m & E1 & Hs1 & Ho1 & Hc1 & Hn1 & Hw1 & Hl1).
    rewrite <- Hn1 in Hf2. rewrite <- Hl1 in Htl.
    destruct (IH w1 Hds Hw1 Hf2 Htl) as (w2 & ms & E2 & Hs2 & Ho2 & Hc2 & Hn2 & Hw2 & Hl2).
    exists w2, (m :: ms). split.
    + cbn [for_each]. unfold bind. rewrite E1. exact E2.
    + rewrite Hs2, Hs1, <- app_assoc, Hl2, Hl1, skipn_tl. cbn [map length].
      split; [reflexivity|]. split; [now constructor|]. split; [now constructor|].
      split; [congruence|]. split; [assumption|reflexivity].
Qed.


Lemma p7_hit_MPISend_ok (h : P7_HIT) (dest tag : Z) (comm : MPI_Comm) (w : world) :
  hit_ok h = true -> buffer_ok w ->
  Forall (fun f => zlen f <= nalloc w) (hit_frames h) ->
  clear_for (length (hit_frames h)) (link w) ->
  exists w1 ms,
    p7_hit_MPISend h dest tag comm w = (inr tt, w1)
    /\ sent w1 = sent w ++ ms /\ Forall (same_origin dest tag) ms
    /\ Forall2 carries (hit_frames h) ms
    /\ nalloc w1 = nalloc w /\ buffer_ok w1
    /\ link w1 = skipn (length (hit_frames h)) (link w).
Proof.
  intros Hok Hw Hfit Hl. unfold hit_frames in *. cbn [length] in *.
  rewrite length_map in *.
  inversion Hfit as [|? ? Hf1 Hf2]; subst.
  destruct (hit_ok_parts h Hok) as (Hnd & Hds).
  destruct (clear_for_S _ _ Hl) as [Hhd Htl].
  destruct (pack_and_send_message (fun n => p7_hit_MPIPack h n comm) (hit_wire h)
              dest tag comm w Hw (p7_hit_MPIPack_wire h (nalloc w) comm)
              (hit_fits h _ Hf1) Hhd)
    as (w1 & E & Hs & Hn & Hw1 & Hl1).
  rewrite <- Hn in Hf2. rewrite <- Hl1 in Htl.
  destruct (send_domains_ok dest tag comm (hit_dcl h) w1 Hds Hw1 Hf2 Htl)
    as (w2 & ms & E2 & Hs2 & Ho2 & Hc2 & Hn2 & Hw2 & Hl2).
  exists w2. eexists. split.
  - rewrite p7_hit_MPISend_split. unfold bind at 1. rewrite E.
    rewrite Hnd. unfold zlen. rewrite Nat2Z.id, firstn_all. exact E2.
  - rewrite Hs2, Hs, <- app_assoc, Hl2, Hl1, skipn_tl. cbn [app].
    split; [reflexivity|]. split; [constructor; [split; reflexivity|assumption]|].
    split; [constructor; [apply carries_app|assumption]|].
    split; [congruence|]. split; [assumption|reflexivity].
Qed.


Lemma send_hits_ok (dest tag : Z) (comm : MPI_Comm) (hs : list P7_HIT) :
  forall w : world,
    forallb hit_ok hs = true -> buffer_ok w ->
    Forall (fun f => zlen f <= nalloc w) (flat_map hit_frames hs) ->
    clear_for (length (flat_map hit_frames hs)) (link w) ->
    exists w1 ms,
      for_each hs (fun hit => p7_hit_MPISend hit dest tag comm) w = (inr tt, w1)
      /\ sent w1 = sent w ++ ms /\ Forall (same_origin dest tag) ms
      /\ Forall2 carries (flat_map hit_frames hs) ms
      /\ nalloc w1 = nalloc w /\ buffer_ok w1
      /\ link w1 = skipn (length (flat_map hit_frames hs)) (link w).
Proof.
  induction hs as [|h hs IH]; intros w Hok Hw Hfit Hl.
  - exists w, []. cbn. rewrite app_nil_r. repeat split; auto; constructor.
  - cbn [forallb] in Hok. apply andb_true_iff in Hok. destruct Hok as [Hh Hhs].
    cbn [flat_map] in *. apply Forall_app in Hfit. destruct Hfit as [Hf1 Hf2].
    rewrite length_app in *. destruct (clear_for_app _ _ _ Hl) as [Hl1 Hl2].
    destruct (p7_hit_MPISend_ok h dest tag comm w Hh Hw Hf1 Hl1)
      as (w1 & ms1 & E1 & Hs1 & Ho1 & Hc1 & Hn1 & Hw1 & Hk1).
    rewrite <- Hn1 in Hf2. rewrite <- Hk1 in Hl2.
    destruct (IH w1 Hhs Hw1 Hf2 Hl2) as (w2 & ms2 & E2 & Hs2 & Ho2 & Hc2 & Hn2 & Hw2 & Hk2).
    exists w2, (ms1 ++ ms2). split.
    + cbn [for_each]. unfold bind. rewrite E1. exact E2.
    + rewrite Hs2, Hs1, <- app_assoc, Hk2, Hk1, skipn_skipn.
      split; [reflexivity|]. split; [apply Forall_app; split; assumption|].
      split; [apply Forall2_app; assumption|].
      split; [congruence|]. split; [assumption|]. f_equal. lia.
Qed.


Lemma largest_pool_inner (ds : list P7_DOMAIN) :
  forall acc : Z * option P7_DOMAIN,
    let r := fold_left
               (fun (a : Z * option P7_DOMAIN) d =>
                  if fst a <=? ad_memsize (dcl_ad d)
                  then (ad_memsize (dcl_ad d), Some d) else a) ds acc in
    snd r = snd acc \/ exists d, In d ds /\ snd r = Some d.
Proof.
  induction ds as [|d ds IH]; intros acc; cbn [fold_left]; [now left|].
  match goal with |- context [fold_left ?f ds ?a] => destruct (IH a) as [H|(d' & Hin & H)] end.
  - destruct (fst acc <=? ad_memsize (dcl_ad d)); cbn [snd] in H.
    + right. exists d. split; [now left|assumption].
    + now left.
  - right. exists d'. split; [now right|assumption].
Qed.

Lemma largest_pool_in (th : P7_TOPHITS) (d : P7_DOMAIN) :
  snd (largest_pool th) = Some d ->
  exists h, In h (firstn (Z.to_nat (th_N th)) (th_unsrt th))
            /\ In d (firstn (Z.to_nat (hit_ndom h)) (hit_dcl h)).
Proof.
  unfold largest_pool.
  assert (H : forall hs acc,
             snd (fold_left
                    (fun acc hit =>
                       fold_left
                         (fun (a : Z * option P7_DOMAIN) d =>
                            if fst a <=? ad_memsize (dcl_ad d)
                            then (ad_memsize (dcl_ad d), Some d) else a)
                         (firstn (Z.to_nat (hit_ndom hit)) (hit_dcl hit)) acc) hs acc)
             = Some d ->
             snd acc = Some d
             \/ exists h, In h hs /\ In d (firstn (Z.to_nat (hit_ndom h)) (hit_dcl h))).
  { induction hs as [|h hs IH]; intros acc; cbn [fold_left]; [now left|].
    intros E. destruct (IH _ E) as [E'|(h' & Hin & Hd)].
    - destruct (largest_pool_inner (firstn (Z.to_nat (hit_ndom h)) (hit_dcl h)) acc)
        as [Hs|(d' & Hin & Hs)]; cbv zeta in Hs.
      + left. congruence.
      + right. exists h. split; [now left|]. congruence.
    - right. exists h'. split; [now right|assumption]. }
  intros E. destruct (H _ _ E) as [E'|E']; [discriminate|exact E'].
Qed.

Lemma firstn_zlen {A : Type} (l : list A) : firstn (Z.to_nat (zlen l)) l = l.
Proof. unfold zlen. rewrite Nat2Z.id. apply firstn_all. Qed.

(** The sizing pass of p7_tophits_MPISend asks for at least the envelope
    and the first hit's record, and for no more than the largest record
    of the transfer. *)
Lemma tophits_buffer_size_fits (th : P7_TOPHITS) (comm : MPI_Comm) (w : world) (cap : Z) :
  th_ok th = true -> cap <= INT_MAX ->
  Forall (fun f => zlen f <= cap) (tophits_frames th) ->
  exists n,
    tophits_buffer_size th comm w = (inr n, w) /\ 24 <= n <= cap
    /\ (0 < th_N th -> zlen (hit_wire (hd blank_hit (th_unsrt th))) <= n).
Proof.
  intros Hok Hcap Hfit.
  destruct (th_ok_parts th Hok) as (_ & _ & _ & HN & Hhs).
  unfold tophits_frames in Hfit. inversion Hfit as [|? ? He Hf]; subst.
  rewrite zlen_envelope_wire in He.
  unfold tophits_buffer_size.
  change (MPI_Pack_size 3 MPI_LONG_LONG_INT comm) with (Some 24).
  destruct (Z.gtb_spec (th_N th) 0) as [Hpos|Hzero].
  - destruct (th_unsrt th) as [|h0 hs] eqn:Eu;
      [change (zlen (@nil P7_HIT)) with 0 in HN; lia|].
    cbn [hd flat_map] in *. apply Forall_app in Hf. destruct Hf as [Hf0 Hf1].
    unfold hit_frames in Hf0. inversion Hf0 as [|? ? Hh0 _]; subst.
    unfold bind at 1. unfold bind at 1.
    rewrite (p7_hit_MPIPackSize_exact h0 comm) by lia. cbn [size_of]. unfold ret at 1.
    destruct (snd (largest_pool th)) as [d|] eqn:El.
    + destruct (largest_pool_in th d El) as (h & Hh & Hd).
      rewrite HN, Eu, firstn_zlen in Hh.
      assert (Hhok : hit_ok h = true).
      { rewrite forallb_forall in Hhs. now apply Hhs. }
      destruct (hit_ok_parts h Hhok) as (Hnd & Hds).
      rewrite Hnd, firstn_zlen in Hd.
      assert (Hdok : dcl_ok d = true) by (rewrite forallb_forall in Hds; now apply Hds).
      assert (Hdfit : zlen (dcl_wire d) <= cap).
      { assert (Hall : Forall (fun f => zlen f <= cap) (flat_map hit_frames (h0 :: hs))).
        { cbn [flat_map]. apply Forall_app. split; assumption. }
        rewrite Forall_forall in Hall. apply Hall.
        apply in_flat_map. exists h. split; [assumption|].
        unfold hit_frames. right. now apply in_map. }
      destruct (dcl_ok_memsize d Hdok) as (Hm & Hm0 & _).
      rewrite zlen_dcl_wire, <- Hm in Hdfit.
      unfold bind at 1. rewrite (p7_dcl_MPIPackSize_value d comm) by lia.
      cbn [size_of]. unfold ret, bind.
      eexists. split; [reflexivity|].
      split; [|intros _];
        repeat match goal with
               | |- context [if ?a >? ?b then _ else _] => destruct (Z.gtb_spec a b)
               | H : context [if ?a >? ?b then _ else _] |- _ => destruct (Z.gtb_spec a b)
               end; lia.
    + unfold ret, bind. eexists. split; [reflexivity|].
      split; [|intros _];
        repeat match goal with
               | |- context [if ?a >? ?b then _ else _] => destruct (Z.gtb_spec a b)
               | H : context [if ?a >? ?b then _ else _] |- _ => destruct (Z.gtb_spec a b)
               end; lia.
  - unfold ret, bind. eexists. split; [reflexivity|]. split; [cbn; lia|lia].
Qed.

Lemma carries_firstn (frame rest : list Z) (n : Z) (p t : Z) :
  zlen frame <= n ->
  carries frame {| msg_peer := p; msg_tag := t;
                   msg_data := firstn (Z.to_nat n) (frame ++ rest) |}.
Proof.
  intros Hn. unfold carries. cbn [msg_data]. rewrite firstn_firstn.
  replace (Nat.min (length frame) (Z.to_nat n)) with (length frame)
    by (unfold zlen in Hn; lia).
  rewrite firstn_app, Nat.sub_diag, firstn_O, app_nil_r. apply firstn_all.
Qed.

Lemma p7_tophits_MPISend_split (th : P7_TOPHITS) (dest tag : Z) (comm : MPI_Comm)
    (w : world) :
  p7_tophits_MPISend th dest tag comm w
  = bind (n <- tophits_buffer_size th comm ;;
          grow_buffer n ;;;
          _ <- pack_buf (MPI_Pack [th_N th] 1 MPI_LONG_LONG_INT n comm ;;;
                         MPI_Pack [th_nreported th] 1 MPI_LONG_LONG_INT n comm ;;;
                         MPI_Pack [th_nincluded th] 1 MPI_LONG_LONG_INT n comm) 0 ;;
          MPI_Send n dest tag comm)
         (fun _ => if th_N th =? 0 then ret tt
                   else for_each (firstn (Z.to_nat (th_N th)) (th_unsrt th))
                                 (fun hit => p7_hit_MPISend hit dest tag comm)) w.
Proof.
  unfold p7_tophits_MPISend, bind.
  destruct (tophits_buffer_size th comm w) as [[e|n0] w0]; [reflexivity|].
  destruct (grow_buffer n0 w0) as [[e|u] w1]; [reflexivity|].
  destruct (pack_buf _ 0 w1) as [[e|p] w2]; [reflexivity|].
  destruct (MPI_Send n0 dest tag comm w2) as [[e|u'] w3]; reflexivity.
Qed.

(** The envelope of a transfer from a buffer that is large enough: sized,
    packed and sent, or packed and not sent when MPI_Send fails. *)
Lemma envelope_send (th : P7_TOPHITS) (dest tag : Z) (comm : MPI_Comm) (w : world) :
  th_ok th = true -> buffer_ok w -> nalloc w <= INT_MAX ->
  Forall (fun f => zlen f <= nalloc w) (tophits_frames th) ->
  exists w1 m,
    (n <- tophits_buffer_size th comm ;;
     grow_buffer n ;;;
     _ <- pack_buf (MPI_Pack [th_N th] 1 MPI_LONG_LONG_INT n comm ;;;
                    MPI_Pack [th_nreported th] 1 MPI_LONG_LONG_INT n comm ;;;
                    MPI_Pack [th_nincluded th] 1 MPI_LONG_LONG_INT n comm) 0 ;;
     MPI_Send n dest tag comm) w
    = (match link w with false :: _ => inl (Throw eslESYS) | _ => inr tt end, w1)
    /\ sent w1 = match link w with false :: _ => sent w | _ => sent w ++ [m] end
    /\ same_origin dest tag m /\ carries (envelope_wire th) m
    /\ nalloc w1 = nalloc w /\ buffer_ok w1 /\ link w1 = tl (link w).
Proof.
  intros Hok Hw Hcap Hfit.
  destruct (tophits_buffer_size_fits th comm w (nalloc w) Hok Hcap Hfit)
    as (n & En & Hn & _).
  unfold tophits_frames in *. inversion Hfit as [|? ? He Hf]; subst.
  unfold buffer_ok in Hw.
  destruct (buf w) as [l|] eqn:Eb; cbn [deref] in Hw;
    [|change (zlen (@nil Z)) with 0 in Hw; lia].
  assert (Hg : grow_buffer n w = (inr tt, w))
    by (apply grow_buffer_noop; [congruence|lia]).
  pose proof (envelope_pack_wire th n comm l 0 ltac:(lia)
                ltac:(rewrite zlen_envelope_wire; lia) ltac:(lia)) as Ep.
  assert (Hwr : write l 0 (envelope_wire th) = envelope_wire th ++ skipn 24 l)
    by reflexivity.
  assert (Hlen : zlen (write l 0 (envelope_wire th)) = nalloc w)
    by (rewrite zlen_write; rewrite ?zlen_envelope_wire; lia).
  set (m := {| msg_peer := dest; msg_tag := tag;
               msg_data := firstn (Z.to_nat n) (write l 0 (envelope_wire th)) |}).
  assert (Hcm : carries (envelope_wire th) m).
  { unfold m. rewrite Hwr. apply carries_firstn. rewrite zlen_envelope_wire. lia. }
  unfold bind at 1. rewrite En. unfold bind at 1. rewrite Hg.
  unfold bind at 1, pack_buf. rewrite Eb. cbn [deref store]. rewrite Ep.
  cbn [pk_bytes pk_pos]. unfold MPI_Send. cbn [link set_buf buf deref sent].
  fold m.
  destruct (link w) as [|[|] lk]; (eexists; exists m; split; [reflexivity|]);
    cbn; unfold buffer_ok; cbn; repeat split; auto.
Qed.

(** A whole transfer from a buffer that holds each of its records. *)
Lemma p7_tophits_MPISend_ok (th : P7_TOPHITS) (dest tag : Z) (comm : MPI_Comm) (w : world) :
  th_ok th = true -> buffer_ok w -> nalloc w <= INT_MAX ->
  Forall (fun f => zlen f <= nalloc w) (tophits_frames th) ->
  clear_for (length (tophits_frames th)) (link w) ->
  exists w1 ms,
    p7_tophits_MPISend th dest tag comm w = (inr tt, w1)
    /\ sent w1 = sent w ++ ms /\ Forall (same_origin dest tag) ms
    /\ Forall2 carries (tophits_frames th) ms
    /\ nalloc w1 = nalloc w /\ buffer_ok w1.
Proof.
  intros Hok Hw Hcap Hfit Hl.
  destruct (envelope_send th dest tag comm w Hok Hw Hcap Hfit)
    as (w1 & m & E1 & Hs1 & Ho1 & Hc1 & Hn1 & Hw1 & Hl1).
  destruct (th_ok_parts th Hok) as (_ & _ & _ & HN & Hhs).
  unfold tophits_frames in *. inversion Hfit as [|? ? He Hf]; subst.
  cbn [length] in Hl. destruct (clear_for_S _ _ Hl) as [Hhd Htl].
  rewrite <- Hn1 in Hf. rewrite <- Hl1 in Htl.
  destruct (send_hits_ok dest tag comm (th_unsrt th) w1 Hhs Hw1 Hf Htl)
    as (w2 & ms & E2 & Hs2 & Ho2 & Hc2 & Hn2 & Hw2 & Hl2).
  assert (Hloop : (if th_N th =? 0 then ret tt
                   else for_each (firstn (Z.to_nat (th_N th)) (th_unsrt th))
                                 (fun hit => p7_hit_MPISend hit dest tag comm)) w1
                  = (inr tt, w2)).
  { rewrite HN, firstn_zlen.
    destruct (Z.eqb_spec (zlen (th_unsrt th)) 0) as [Hz|Hz]; [|exact E2].
    destruct (th_unsrt th); [exact E2|discriminate]. }
  exists w2, (m :: ms). split.
  - rewrite p7_tophits_MPISend_split. unfold bind at 1. rewrite E1.
    destruct (link w) as [|[|] ?]; try discriminate; exact Hloop.
  - rewrite Hs2.
    assert (Hs1' : sent w1 = sent w ++ [m])
      by (destruct (link w) as [|[|] ?]; try discriminate; exact Hs1).
    rewrite Hs1', <- app_assoc. cbn [app].
    split; [reflexivity|]. split; [now constructor|]. split; [now constructor|].
    split; [congruence|assumption].
Qed.


(** From a process that owns no buffer yet, p7_tophits_MPISend behaves as
    from the buffer its sizing block allocates. *)
Lemma p7_tophits_MPISend_fresh (th : P7_TOPHITS) (dest tag : Z) (comm : MPI_Comm)
    (w : world) (h0 : P7_HIT) (hs : list P7_HIT) :
  th_ok th = true -> th_unsrt th = h0 :: hs ->
  buf w = None -> nalloc w = 0 -> no_fault (heap w) ->
  zlen (hit_wire h0) <= INT_MAX ->
  Forall (fun f => zlen f <= zlen (hit_wire h0)) (tophits_frames th) ->
  exists w1,
    p7_tophits_MPISend th dest tag comm w = p7_tophits_MPISend th dest tag comm w1
    /\ buffer_ok w1 /\ nalloc w1 = zlen (hit_wire h0)
    /\ sent w1 = sent w /\ link w1 = link w.
Proof.
  intros Hok Hu Hb Hn Hh Hmax Hfit.
  destruct (th_ok_parts th Hok) as (_ & _ & _ & HN & _).
  assert (Hpos : 0 < th_N th).
  { rewrite HN, Hu. unfold zlen. cbn [length]. lia. }
  assert (Hsize : forall w0, tophits_buffer_size th comm w0 = (inr (zlen (hit_wire h0)), w0)).
  { intros w0.
    destruct (tophits_buffer_size_fits th comm w0 _ Hok Hmax Hfit) as (n & En & Hn1 & Hn2).
    specialize (Hn2 Hpos). rewrite Hu in Hn2. cbn [hd] in Hn2.
    replace (zlen (hit_wire h0)) with n by lia. exact En. }
  assert (Hw : buffer_ok w) by (unfold buffer_ok; rewrite Hb, Hn; reflexivity).
  pose proof (hit_fits h0 _ (Z.le_refl _)) as [Hp _].
  destruct (grow_buffer_ok (zlen (hit_wire h0)) w Hw Hh ltac:(lia))
    as (w1 & l & Eg & Hb1 & Hl1 & Hge & _ & _ & Hs1 & Hli1 & _).
  assert (Hn1 : nalloc w1 = zlen (hit_wire h0)).
  { revert Eg. unfold grow_buffer, ESL_RALLOC, bind, modify. rewrite Hb. cbn [is_null orb].
    destruct (heap_alloc (zlen (hit_wire h0)) (heap w)) as [[|] hp]; [|discriminate].
    intros E. inversion E; subst. reflexivity. }
  exists w1. split; [|split; [|split; [|split]]]; try assumption.
  - unfold p7_tophits_MPISend, bind at 1. rewrite (Hsize w).
    unfold bind at 1. rewrite Eg.
    symmetry. unfold bind at 1. rewrite (Hsize w1).
    unfold bind at 1. rewrite grow_buffer_noop by (try lia; congruence). reflexivity.
  - unfold buffer_ok. rewrite Hb1. exact Hl1.
Qed.

(** ** A transfer from sender to receiver *)

Lemma carries_delivered (src : Z) (fs : list (list Z)) (ms : list message) :
  Forall2 carries fs ms -> Forall2 carries fs (map (delivered src) ms).
Proof. induction 1; cbn [map]; constructor; assumption. Qed.

Lemma same_origin_delivered (src dest tag : Z) (ms : list message) :
  Forall (same_origin dest tag) ms ->
  Forall (same_origin src tag) (map (delivered src) ms).
Proof.
  induction 1 as [|m ms [_ Ht] _ IH]; cbn [map]; constructor; [|assumption].
  split; [reflexivity|exact Ht].
Qed.

(** X7. A well-formed collection sent by p7_tophits_MPISend from a buffer
    that holds each of its records, over a link that carries its messages,
    arrives whole. The send succeeds with one message per record (the
    envelope, then each hit followed by its domains), all addressed to
    [dest] with [tag], at unchanged capacity; and every ready receiver that
    finds these messages at the head of its channel and asks for their
    source and tag, or for any, gets eslOK and the same collection from
    p7_tophits_MPIRecv, with exactly these messages taken and one more
    live collection. *)
Theorem tophits_transfer_round_trip :
  forall (th : P7_TOPHITS) (dest tag : Z) (comm : MPI_Comm) (ws : world),
    th_ok th = true -> buffer_ok ws -> nalloc ws <= INT_MAX ->
    Forall (fun frame => zlen frame <= nalloc ws) (tophits_frames th) ->
    clear_for (length (tophits_frames th)) (link ws) ->
    exists (ws' : world) (ms : list message),
      p7_tophits_MPISend th dest tag comm ws = (inr tt, ws')
      /\ sent ws' = sent ws ++ ms
      /\ Forall2 carries (tophits_frames th) ms
      /\ Forall (same_origin dest tag) ms
      /\ nalloc ws' = nalloc ws
      /\ forall (source tag' src : Z) (wr : world) (rest : list message),
           ready wr -> accepts source tag' src tag ->
           inbox wr = map (delivered src) ms ++ rest ->
           exists wr',
             p7_tophits_MPIRecv source tag' comm wr = (inr (eslOK, Some th), wr')
             /\ inbox wr' = rest /\ th_live wr' = th_live wr + 1.
Proof.
  intros th dest tag comm ws Hok Hw Hcap Hfit Hl.
  destruct (p7_tophits_MPISend_ok th dest tag comm ws Hok Hw Hcap Hfit Hl)
    as (ws' & ms & Es & Hs & Ho & Hc & Hn & _).
  exists ws', ms. split; [exact Es|]. split; [exact Hs|].
  split; [exact Hc|]. split; [exact Ho|]. split; [exact Hn|].
  intros source tag' src wr rest Hr Hacc Hin.
  pose proof (carries_delivered src _ _ Hc) as Hc'.
  pose proof (same_origin_delivered src _ _ _ Ho) as Ho'.
  destruct (map (delivered src) ms) as [|m ms'] eqn:Em;
    [unfold tophits_frames in Hc'; inversion Hc'|].
  inversion Ho' as [|? ? [Hp Ht] Ho'']; subst.
  destruct (p7_tophits_MPIRecv_ok source tag' comm wr m ms' rest th)
    as (wr' & Er & Hi & _ & _ & Hlive & _); try assumption.
  exists wr'. auto.
Qed.

Lemma tophits_transfer_round_trip_witness :
  exists (ws' : world) (ms : list message),
    p7_tophits_MPISend one_hit 3 7 tt roomy_world = (inr tt, ws')
    /\ sent ws' = sent roomy_world ++ ms
    /\ Forall2 carries (tophits_frames one_hit) ms
    /\ exists wr',
         p7_tophits_MPIRecv MPI_ANY_SOURCE 7 tt
           (set_inbox (map (delivered 0) ms ++ []) fresh_world)
         = (inr (eslOK, Some one_hit), wr')
         /\ inbox wr' = [].
Proof.
  assert (H1 : th_ok one_hit = true) by (vm_compute; reflexivity).
  assert (H2 : buffer_ok roomy_world) by (vm_compute; reflexivity).
  assert (H3 : nalloc roomy_world <= INT_MAX) by (vm_compute; discriminate).
  assert (H4 : Forall (fun frame => zlen frame <= nalloc roomy_world)
                 (tophits_frames one_hit)).
  { repeat constructor; vm_compute; discriminate. }
  assert (H5 : clear_for (length (tophits_frames one_hit)) (link roomy_world))
    by (vm_compute; constructor).
  destruct (tophits_transfer_round_trip one_hit 3 7 tt roomy_world H1 H2 H3 H4 H5)
    as (ws' & ms & Es & Hs & Hc & _ & _ & Hrecv).
  exists ws', ms. split; [exact Es|]. split; [exact Hs|]. split; [exact Hc|].
  destruct (Hrecv MPI_ANY_SOURCE 7 0 (set_inbox (map (delivered 0) ms ++ []) fresh_world) [])
    as (wr' & Er & Hi & _).
  - split; [reflexivity|]. split; [constructor|]. split; reflexivity.
  - split; [right; reflexivity|left; reflexivity].
  - reflexivity.
  - exists wr'. split; assumption.
Defined.

(** X8. A well-formed hit sent by p7_hit_MPISend from a buffer that holds
    each of its records, over a link that carries its messages, goes out as
    [1 + ndom] messages; and every ready receiver that finds them at the
    head of its channel and asks for their source and tag, or for any, gets
    the same hit from p7_hit_MPIRecv, with exactly these messages taken. *)
Theorem hit_transfer_round_trip :
  forall (h hit0 : P7_HIT) (dest tag : Z) (comm : MPI_Comm) (ws : world),
    hit_ok h = true -> buffer_ok ws ->
    Forall (fun frame => zlen frame <= nalloc ws) (hit_frames h) ->
    clear_for (length (hit_frames h)) (link ws) ->
    exists (ws' : world) (ms : list message),
      p7_hit_MPISend h dest tag comm ws = (inr tt, ws')
      /\ sent ws' = sent ws ++ ms
      /\ zlen ms = 1 + hit_ndom h
      /\ forall (source tag' src : Z) (wr : world) (rest : list message),
           ready wr -> accepts source tag' src tag ->
           inbox wr = map (delivered src) ms ++ rest ->
           exists wr',
             p7_hit_MPIRecv source tag' comm hit0 wr = (inr h, wr')
             /\ inbox wr' = rest.
Proof.
  intros h hit0 dest tag comm ws Hok Hw Hfit Hl.
  destruct (p7_hit_MPISend_ok h dest tag comm ws Hok Hw Hfit Hl)
    as (ws' & ms & Es & Hs & Ho & Hc & _).
  destruct (hit_ok_parts h Hok) as (Hnd & _).
  exists ws', ms. split; [exact Es|]. split; [exact Hs|]. split.
  { apply Forall2_length in Hc. unfold hit_frames in Hc. cbn [length] in Hc.
    rewrite length_map in Hc. unfold zlen in *. lia. }
  intros source tag' src wr rest Hr Hacc Hin.
  pose proof (carries_delivered src _ _ Hc) as Hc'.
  pose proof (same_origin_delivered src _ _ _ Ho) as Ho'.
  destruct (map (delivered src) ms) as [|m ms'] eqn:Em;
    [unfold hit_frames in Hc'; inversion Hc'|].
  inversion Ho' as [|? ? Hm Ho'']; subst.
  destruct (p7_hit_MPIRecv_ok source tag' comm wr m ms' rest h hit0)
    as (wr' & Er & Hi & _); try assumption.
  - eapply accepts_from; eassumption.
  - eapply same_origin_from; eassumption.
  - exists wr'. auto.
Qed.

Lemma hit_transfer_round_trip_witness :
  exists (ws' : world) (ms : list message),
    p7_hit_MPISend sample_hit 3 7 tt roomy_world = (inr tt, ws')
    /\ zlen ms = 2
    /\ exists wr',
         p7_hit_MPIRecv 0 MPI_ANY_TAG tt blank_hit
           (set_inbox (map (delivered 0) ms ++ []) fresh_world)
         = (inr sample_hit, wr').
Proof.
  assert (H1 : hit_ok sample_hit = true) by (vm_compute; reflexivity).
  assert (H2 : buffer_ok roomy_world) by (vm_compute; reflexivity).
  assert (H4 : Forall (fun frame => zlen frame <= nalloc roomy_world)
                 (hit_frames sample_hit)).
  { repeat constructor; vm_compute; discriminate. }
  assert (H5 : clear_for (length (hit_frames sample_hit)) (link roomy_world))
    by (vm_compute; constructor).
  destruct (hit_transfer_round_trip sample_hit blank_hit 3 7 tt roomy_world H1 H2 H4 H5)
    as (ws' & ms & Es & _ & Hlen & Hrecv).
  exists ws', ms. split; [exact Es|]. split; [exact Hlen|].
  destruct (Hrecv 0 MPI_ANY_TAG 0 (set_inbox (map (delivered 0) ms ++ []) fresh_world) [])
    as (wr' & Er & _).
  - split; [reflexivity|]. split; [constructor|]. split; reflexivity.
  - split; [left; reflexivity|right; reflexivity].
  - reflexivity.
  - exists wr'. exact Er.
Defined.



(** X10. When no record of the transfer is larger than the record of the
    first hit, a process that owns no buffer gets from p7_tophits_MPISend a
    buffer of exactly the size of that record; if neither the allocation
    nor a send fails, the transfer succeeds with one message per record and
    leaves that size as the recorded capacity. *)
Theorem transfer_from_unallocated_buffer :
  forall (th : P7_TOPHITS) (h0 : P7_HIT) (hs : list P7_HIT) (dest tag : Z)
         (comm : MPI_Comm) (w : world),
    th_ok th = true -> th_unsrt th = h0 :: hs ->
    buf w = None -> nalloc w = 0 -> no_fault (heap w) ->
    clear_for (length (tophits_frames th)) (link w) ->
    zlen (hit_wire h0) <= INT_MAX ->
    Forall (fun frame => zlen frame <= zlen (hit_wire h0)) (tophits_frames th) ->
    exists (w' : world) (ms : list message),
      p7_tophits_MPISend th dest tag comm w = (inr tt, w')
      /\ nalloc w' = zlen (hit_wire h0)
      /\ sent w' = sent w ++ ms
      /\ Forall2 carries (tophits_frames th) ms.
Proof.
  intros th h0 hs dest tag comm w Hok Hu Hb Hn Hh Hl Hmax Hfit.
  destruct (p7_tophits_MPISend_fresh th dest tag comm w h0 hs Hok Hu Hb Hn Hh Hmax Hfit)
    as (w1 & E & Hw1 & Hn1 & Hs1 & Hl1).
  rewrite <- Hn1 in Hfit, Hmax. rewrite <- Hl1 in Hl.
  destruct (p7_tophits_MPISend_ok th dest tag comm w1 Hok Hw1 Hmax Hfit Hl)
    as (w2 & ms & E2 & Hs2 & _ & Hc & Hn2 & _).
  exists w2, ms. rewrite E. split; [exact E2|]. split; [congruence|].
  split; [congruence|exact Hc].
Qed.

Lemma transfer_from_unallocated_buffer_witness :
  exists (w' : world) (ms : list message),
    p7_tophits_MPISend long_first 3 7 tt fresh_world = (inr tt, w')
    /\ nalloc w' = 200
    /\ sent w' = ms /\ length ms = 4%nat.
Proof.
  assert (H1 : th_ok long_first = true) by (vm_compute; reflexivity).
  assert (H2 : clear_for (length (tophits_frames long_first)) (link fresh_world))
    by (vm_compute; constructor).
  assert (H3 : zlen (hit_wire long_name_hit) <= INT_MAX) by (vm_compute; discriminate).
  assert (H4 : Forall (fun frame => zlen frame <= zlen (hit_wire long_name_hit))
                 (tophits_frames long_first)).
  { repeat constructor; vm_compute; discriminate. }
  destruct (transfer_from_unallocated_buffer long_first long_name_hit [sample_hit] 3 7 tt
              fresh_world H1 eq_refl eq_refl eq_refl (Forall_nil _) H2 H3 H4)
    as (w' & ms & E & Hn & Hs & Hc).
  exists w', ms. split; [exact E|]. split; [rewrite Hn; vm_compute; reflexivity|].
  split; [exact Hs|]. apply Forall2_length in Hc. rewrite <- Hc. reflexivity.
Defined.

(** ** Relations kept along the send and receive functions *)

Section Receive_invariant.
Variable R : world -> world -> Prop.
Hypothesis R_refl : forall w, R w w.
Hypothesis R_trans : forall a b c, R a b -> R b c -> R a c.
Hypothesis R_probe : forall source tag comm, respects R (MPI_Probe source tag comm).
Hypothesis R_recv : forall n source tag comm, respects R (MPI_Recv n source tag comm).
Hypothesis R_grow : forall n, respects R (grow_buffer n).
Hypothesis R_unpack :
  forall (A : Type) (u : list Z -> Comp unpackst status A) pos, respects R (unpack_buf u pos).
Hypothesis R_alloc : forall size, respects R (ESL_ALLOC_obj size).
Hypothesis R_create : respects R p7_tophits_Create.
Hypothesis R_next : forall th, respects R (p7_tophits_CreateNextHit th).
Hypothesis R_destroy : forall th, respects R (p7_tophits_Destroy th).

Lemma check_peer_keeps (source tag : Z) (st : MPI_Status) :
  respects R (check_peer source tag st).
Proof.
  intros w. unfold check_peer.
  repeat match goal with |- context [if ?c then _ else _] => destruct c end; apply R_refl.
Qed.

Lemma probe_and_receive_keeps (source tag : Z) (comm : MPI_Comm) :
  respects R (probe_and_receive source tag comm).
Proof.
  unfold probe_and_receive.
  apply (respects_bind _ R_trans); [apply R_probe|intros st].
  apply (respects_bind _ R_trans); [apply check_peer_keeps|intros _].
  apply (respects_bind _ R_trans); [apply R_grow|intros _].
  apply (respects_bind _ R_trans); [apply R_recv|intros _].
  apply respects_ret, R_refl.
Qed.

Lemma p7_dcl_MPIRecv_keeps (source tag : Z) (comm : MPI_Comm) :
  respects R (p7_dcl_MPIRecv source tag comm).
Proof.
  unfold p7_dcl_MPIRecv.
  apply (respects_bind _ R_trans); [apply probe_and_receive_keeps|intros _].
  apply (respects_bind _ R_trans); [apply respects_get, R_refl|intros w].
  apply R_unpack.
Qed.

Lemma recv_domains_keeps (k : nat) (source tag : Z) (comm : MPI_Comm) :
  respects R (recv_domains k source tag comm).
Proof.
  induction k as [|k IH]; cbn [recv_domains]; [apply respects_ret, R_refl|].
  apply (respects_bind _ R_trans); [apply p7_dcl_MPIRecv_keeps|intros d].
  apply (respects_bind _ R_trans); [apply IH|intros r].
  apply respects_ret, R_refl.
Qed.

Lemma p7_hit_MPIRecv_keeps (source tag : Z) (comm : MPI_Comm) (hit : P7_HIT) :
  respects R (p7_hit_MPIRecv source tag comm hit).
Proof.
  unfold p7_hit_MPIRecv.
  apply (respects_bind _ R_trans); [apply probe_and_receive_keeps|intros [[n s] t]].
  apply (respects_bind _ R_trans); [apply R_unpack|intros h].
  apply (respects_bind _ R_trans); [apply R_alloc|intros _].
  apply (respects_bind _ R_trans); [apply recv_domains_keeps|intros dcl].
  apply respects_ret, R_refl.
Qed.

Lemma recv_hits_keeps (k : nat) (source tag : Z) (comm : MPI_Comm) (th : P7_TOPHITS) :
  respects R (recv_hits k source tag comm th).
Proof.
  revert th. induction k as [|k IH]; intros th; cbn [recv_hits];
    [apply respects_ret, R_refl|].
  apply (respects_bind _ R_trans); [apply R_next|intros r].
  apply (respects_bind _ R_trans); [apply p7_hit_MPIRecv_keeps|intros h].
  apply IH.
Qed.

Lemma tophits_recv_ERROR_keeps (th : option P7_TOPHITS) (e : abort) :
  respects R (tophits_recv_ERROR th e).
Proof.
  destruct e as [st|]; cbn [tophits_recv_ERROR]; [|apply respects_throw, R_refl].
  apply (respects_bind _ R_trans); [|intros _; apply respects_ret, R_refl].
  destruct th; [apply R_destroy|apply respects_ret, R_refl].
Qed.

Lemma p7_tophits_MPIRecv_keeps (source tag : Z) (comm : MPI_Comm) :
  respects R (p7_tophits_MPIRecv source tag comm).
Proof.
  unfold p7_tophits_MPIRecv.
  apply (respects_catch _ R_trans).
  - unfold tophits_recv_open.
    apply (respects_bind _ R_trans); [apply probe_and_receive_keeps|intros r].
    apply (respects_bind _ R_trans); [apply R_create|intros [th|]];
      [apply respects_ret|apply respects_throw]; apply R_refl.
  - apply tophits_recv_ERROR_keeps.
  - intros [th [[n s] t]]. apply (respects_catch _ R_trans).
    + unfold tophits_recv_fill.
      apply (respects_bind _ R_trans); [apply R_unpack|intros [[nhits nrep] ninc]].
      apply recv_hits_keeps.
    + apply tophits_recv_ERROR_keeps.
    + intros th'. apply respects_ret, R_refl.
Qed.

End Receive_invariant.

Section Send_invariant.
Variable R : world -> world -> Prop.
Variables (dest tag : Z) (comm : MPI_Comm).
Hypothesis R_refl : forall w, R w w.
Hypothesis R_trans : forall a b c, R a b -> R b c -> R a c.
Hypothesis R_send : forall n, respects R (MPI_Send n dest tag comm).
Hypothesis R_grow : forall n, respects R (grow_buffer n).
Hypothesis R_pack : forall p pos, respects R (pack_buf p pos).

Lemma p7_dcl_MPISend_keeps (d : P7_DOMAIN) : respects R (p7_dcl_MPISend d dest tag comm).
Proof.
  unfold p7_dcl_MPISend.
  apply (respects_bind _ R_trans); [apply respects_get, R_refl|intros w].
  apply (respects_bind _ R_trans); [apply R_pack|intros _]. apply R_send.
Qed.

Lemma p7_hit_MPISend_keeps (h : P7_HIT) : respects R (p7_hit_MPISend h dest tag comm).
Proof.
  unfold p7_hit_MPISend.
  apply (respects_bind _ R_trans); [apply respects_get, R_refl|intros w].
  apply (respects_bind _ R_trans); [apply R_pack|intros _].
  apply (respects_bind _ R_trans); [apply R_send|intros _].
  apply (respects_for_each _ R_refl R_trans). intros d. apply p7_dcl_MPISend_keeps.
Qed.

Lemma size_of_keeps (r : status * Z) : respects R (size_of r).
Proof. intros w. destruct r as [[| | |] n]; apply R_refl. Qed.

Lemma tophits_buffer_size_keeps (th : P7_TOPHITS) :
  respects R (tophits_buffer_size th comm).
Proof.
  unfold tophits_buffer_size.
  apply (respects_bind _ R_trans).
  - destruct (th_N th >? 0); [|apply respects_ret, R_refl].
    apply (respects_bind _ R_trans); [apply size_of_keeps|intros n].
    destruct (snd (largest_pool th)); [|apply respects_ret, R_refl].
    apply (respects_bind _ R_trans); [apply size_of_keeps|intros sz].
    apply respects_ret, R_refl.
  - intros n. destruct (MPI_Pack_size _ _ _);
      [apply respects_ret|apply respects_throw]; apply R_refl.
Qed.

Lemma p7_tophits_MPISend_keeps (th : P7_TOPHITS) :
  respects R (p7_tophits_MPISend th dest tag comm).
Proof.
  unfold p7_tophits_MPISend.
  apply (respects_bind _ R_trans); [apply tophits_buffer_size_keeps|intros n].
  apply (respects_bind _ R_trans); [apply R_grow|intros _].
  apply (respects_bind _ R_trans); [apply R_pack|intros _].
  apply (respects_bind _ R_trans); [apply R_send|intros _].
  destruct (th_N th =? 0); [apply respects_ret, R_refl|].
  apply (respects_for_each _ R_refl R_trans). intros h. apply p7_hit_MPISend_keeps.
Qed.

End Send_invariant.

Lemma sends_to_refl (dest tag : Z) (w : world) : sends_to dest tag w w.
Proof.
  unfold sends_to. repeat split. exists []. split; [now rewrite app_nil_r|constructor].
Qed.

Lemma sends_to_trans (dest tag : Z) (a b c : world) :
  sends_to dest tag a b -> sends_to dest tag b c -> sends_to dest tag a c.
Proof.
  intros (I1 & T1 & n1 & S1 & F1) (I2 & T2 & n2 & S2 & F2).
  split; [congruence|]. split; [congruence|].
  exists (n1 ++ n2). split; [rewrite S2, S1; symmetry; apply app_assoc|].
  apply Forall_app. split; assumption.
Qed.

Lemma MPI_Send_sends_to (n dest tag : Z) (comm : MPI_Comm) :
  respects (sends_to dest tag) (MPI_Send n dest tag comm).
Proof.
  intros w. unfold MPI_Send.
  destruct (link w) as [|[|] l]; cbn [snd]; unfold sends_to; cbn;
    repeat split;
    first [ eexists; split; [reflexivity|]; constructor; [split; reflexivity|constructor]
          | exists []; split; [now rewrite app_nil_r|constructor] ].
Qed.

Lemma grow_buffer_sends_to (dest tag n : Z) : respects (sends_to dest tag) (grow_buffer n).
Proof.
  intros w. unfold grow_buffer, ESL_RALLOC, bind, modify.
  destruct (is_null (buf w) || (n >? nalloc w)); [|apply sends_to_refl].
  destruct (heap_alloc n (heap w)) as [[|] h]; cbn [snd]; unfold sends_to; cbn;
    repeat split; exists []; (split; [now rewrite app_nil_r|constructor]).
Qed.

Lemma pack_buf_sends_to (dest tag : Z) (p : Comp packbuf status unit) (pos : Z) :
  respects (sends_to dest tag) (pack_buf p pos).
Proof.
  intros w. unfold pack_buf. destruct (p _) as [[e|u] b]; cbn [snd]; unfold sends_to; cbn;
    repeat split; exists []; (split; [now rewrite app_nil_r|constructor]).
Qed.

Lemma sends_nothing_refl (w : world) : sends_nothing w w.
Proof. split; reflexivity. Qed.

Lemma sends_nothing_trans (a b c : world) :
  sends_nothing a b -> sends_nothing b c -> sends_nothing a c.
Proof. intros [S1 L1] [S2 L2]. split; congruence. Qed.

Lemma MPI_Probe_silent (source tag : Z) (comm : MPI_Comm) :
  respects sends_nothing (MPI_Probe source tag comm).
Proof.
  intros w. unfold MPI_Probe, probe_message.
  destruct (probes w) as [|[st|] p]; cbn; try destruct (inbox w); split; reflexivity.
Qed.

Lemma MPI_Recv_silent (n source tag : Z) (comm : MPI_Comm) :
  respects sends_nothing (MPI_Recv n source tag comm).
Proof.
  intros w. unfold MPI_Recv, receive_message.
  destruct (recvs w) as [|[|] r]; cbn [inbox set_recvs]; destruct (inbox w);
    split; reflexivity.
Qed.

Lemma grow_buffer_silent (n : Z) : respects sends_nothing (grow_buffer n).
Proof.
  intros w. unfold grow_buffer, ESL_RALLOC, bind, modify.
  destruct (is_null (buf w) || (n >? nalloc w)); [|apply sends_nothing_refl].
  destruct (heap_alloc n (heap w)) as [[|] h]; split; reflexivity.
Qed.

Lemma unpack_buf_silent (A : Type) (u : list Z -> Comp unpackst status A) (pos : Z) :
  respects sends_nothing (unpack_buf u pos).
Proof.
  intros w. unfold unpack_buf. destruct (u _ _) as [[e|a] s]; split; reflexivity.
Qed.

Lemma ESL_ALLOC_obj_silent (size : Z) : respects sends_nothing (ESL_ALLOC_obj size).
Proof.
  intros w. unfold ESL_ALLOC_obj. destruct (heap_alloc _ _) as [[|] h]; split; reflexivity.
Qed.

Lemma Create_silent : respects sends_nothing p7_tophits_Create.
Proof.
  intros w. unfold p7_tophits_Create. destruct (heap_alloc _ _) as [[|] h];
    split; reflexivity.
Qed.

Lemma CreateNextHit_silent (th : P7_TOPHITS) :
  respects sends_nothing (p7_tophits_CreateNextHit th).
Proof.
  intros w. unfold p7_tophits_CreateNextHit. destruct (heap_alloc _ _) as [[|] h];
    split; reflexivity.
Qed.

Lemma Destroy_silent (th : P7_TOPHITS) : respects sends_nothing (p7_tophits_Destroy th).
Proof. intros w. split; reflexivity. Qed.

(** X11. However they end, p7_tophits_MPISend, p7_hit_MPISend and
    p7_dcl_MPISend address every message they send to [dest] with [tag],
    append them to what was sent before, and touch neither the channel of
    incoming messages nor the live collections. *)
Theorem sends_go_to_destination :
  forall (th : P7_TOPHITS) (h : P7_HIT) (d : P7_DOMAIN) (dest tag : Z)
         (comm : MPI_Comm) (w : world),
    sends_to dest tag w (snd (p7_tophits_MPISend th dest tag comm w))
    /\ sends_to dest tag w (snd (p7_hit_MPISend h dest tag comm w))
    /\ sends_to dest tag w (snd (p7_dcl_MPISend d dest tag comm w)).
Proof.
  intros th h d dest tag comm w.
  pose proof (sends_to_refl dest tag) as Hr.
  pose proof (sends_to_trans dest tag) as Ht.
  pose proof (fun n => MPI_Send_sends_to n dest tag comm) as Hs.
  pose proof (grow_buffer_sends_to dest tag) as Hg.
  pose proof (pack_buf_sends_to dest tag) as Hp.
  split; [|split].
  - now apply p7_tophits_MPISend_keeps.
  - now apply p7_hit_MPISend_keeps.
  - now apply p7_dcl_MPISend_keeps.
Qed.

(** X12. However they end, p7_tophits_MPIRecv, p7_hit_MPIRecv and
    p7_dcl_MPIRecv send nothing and attempt no send: the messages the
    process has sent and its outgoing link are as before the call. *)
Theorem receives_never_send :
  forall (source tag : Z) (comm : MPI_Comm) (hit : P7_HIT) (w : world),
    sends_nothing w (snd (p7_tophits_MPIRecv source tag comm w))
    /\ sends_nothing w (snd (p7_hit_MPIRecv source tag comm hit w))
    /\ sends_nothing w (snd (p7_dcl_MPIRecv source tag comm w)).
Proof.
  intros source tag comm hit w.
  split; [|split].
  - apply (p7_tophits_MPIRecv_keeps sends_nothing sends_nothing_refl sends_nothing_trans
             MPI_Probe_silent MPI_Recv_silent grow_buffer_silent
             unpack_buf_silent ESL_ALLOC_obj_silent Create_silent
             CreateNextHit_silent Destroy_silent).
  - apply (p7_hit_MPIRecv_keeps sends_nothing sends_nothing_refl sends_nothing_trans
             MPI_Probe_silent MPI_Recv_silent grow_buffer_silent
             unpack_buf_silent ESL_ALLOC_obj_silent).
  - apply (p7_dcl_MPIRecv_keeps sends_nothing sends_nothing_refl sends_nothing_trans
             MPI_Probe_silent MPI_Recv_silent grow_buffer_silent
             unpack_buf_silent).
Qed.

(** A message that is the one asked for passes the tests on tag and
    source. *)

(** ** Messages taken by a receive *)

Lemma consumed_zero (w w' : world) : inbox w' = inbox w -> consumed 0 w w'.
Proof. intros H. exists []. rewrite H. split; reflexivity. Qed.

Lemma consumed_add (j k : nat) (a b c : world) :
  consumed j a b -> consumed k b c -> consumed (j + k) a c.
Proof.
  intros (t1 & H1 & L1) (t2 & H2 & L2). exists (t1 ++ t2).
  rewrite H1, H2, app_assoc, length_app. split; [reflexivity|lia].
Qed.

Lemma grow_buffer_channel (n : Z) (w : world) :
  inbox (snd (grow_buffer n w)) = inbox w
  /\ probes (snd (grow_buffer n w)) = probes w
  /\ recvs (snd (grow_buffer n w)) = recvs w.
Proof.
  unfold grow_buffer, ESL_RALLOC, bind, modify.
  destruct (is_null (buf w) || (n >? nalloc w)); [|auto].
  destruct (heap_alloc n (heap w)) as [[|] h]; auto.
Qed.

(** Each probe-and-receive that returns has taken one message. *)
Lemma probe_and_receive_takes_one (source tag : Z) (comm : MPI_Comm) (w w' : world)
    (r : Z * Z * Z) :
  channel_ok w -> probe_and_receive source tag comm w = (inr r, w') ->
  consumed 1 w w' /\ channel_ok w'.
Proof.
  intros [Hp Hr]. unfold probe_and_receive, bind at 1, MPI_Probe, probe_message.
  rewrite Hp. destruct (inbox w) as [|m rest] eqn:Ein; [discriminate|].
  unfold bind at 1, check_peer.
  repeat match goal with |- context [if ?c then _ else _] => destruct c end;
    try (unfold throw; discriminate).
  unfold ret at 1. unfold bind at 1.
  destruct (grow_buffer_channel (MPI_Get_count
              {| MPI_SOURCE := msg_peer m; MPI_TAG := msg_tag m;
                 st_count := zlen (msg_data m) |}) w) as (Gi & Gp & Gr).
  destruct (grow_buffer _ w) as [[e|u] w1]; [discriminate|]. cbn [snd] in *.
  unfold bind, MPI_Recv, receive_message, ret. rewrite Gr, Hr, Gi, Ein.
  intros E. inversion E; subst; clear E. split.
  - exists [m]. cbn. rewrite Ein. split; reflexivity.
  - split; cbn; congruence.
Qed.

Lemma unpack_buf_channel (A : Type) (u : list Z -> Comp unpackst status A) (pos : Z)
    (w : world) :
  inbox (snd (unpack_buf u pos w)) = inbox w
  /\ (channel_ok w -> channel_ok (snd (unpack_buf u pos w))).
Proof. unfold unpack_buf. destruct (u _ _) as [[e|a] s]; cbn; auto. Qed.

Lemma p7_dcl_MPIRecv_takes_one (source tag : Z) (comm : MPI_Comm) (w w' : world)
    (d : P7_DOMAIN) :
  channel_ok w -> p7_dcl_MPIRecv source tag comm w = (inr d, w') ->
  consumed 1 w w' /\ channel_ok w'.
Proof.
  intros Hch. unfold p7_dcl_MPIRecv, bind at 1.
  destruct (probe_and_receive source tag comm w) as [[e|r] w1] eqn:Ep; [discriminate|].
  destruct (probe_and_receive_takes_one _ _ _ _ _ _ Hch Ep) as (Hc1 & Hch1).
  unfold bind, get.
  match goal with |- context [unpack_buf ?u ?p w1] =>
    destruct (unpack_buf_channel _ u p w1) as (Ui & Uc);
    destruct (unpack_buf u p w1) as [[e|a] w2] end; [discriminate|].
  cbn [snd] in *. intros E. inversion E; subst; clear E.
  split; [|auto]. replace 1%nat with (1 + 0)%nat by reflexivity.
  eapply consumed_add; [exact Hc1|now apply consumed_zero].
Qed.

Lemma recv_domains_takes (k : nat) (source tag : Z) (comm : MPI_Comm) :
  forall (w w' : world) (ds : list P7_DOMAIN),
    channel_ok w -> recv_domains k source tag comm w = (inr ds, w') ->
    length ds = k /\ consumed k w w' /\ channel_ok w'.
Proof.
  induction k as [|k IH]; intros w w' ds Hch; cbn [recv_domains].
  - unfold ret. intros E. inversion E; subst.
    split; [reflexivity|]. split; [now apply consumed_zero|assumption].
  - unfold bind at 1.
    destruct (p7_dcl_MPIRecv source tag comm w) as [[e|d] w1] eqn:Ed; [discriminate|].
    destruct (p7_dcl_MPIRecv_takes_one _ _ _ _ _ _ Hch Ed) as (Hc1 & Hch1).
    unfold bind at 1.
    destruct (recv_domains k source tag comm w1) as [[e|r] w2] eqn:Er; [discriminate|].
    destruct (IH _ _ _ Hch1 Er) as (Hl & Hc2 & Hch2).
    unfold ret. intros E. inversion E; subst; clear E.
    split; [reflexivity|]. split; [|assumption].
    change (S (length r)) with (1 + length r)%nat. eapply consumed_add; eassumption.
Qed.

Lemma ESL_ALLOC_obj_channel (size : Z) (w w' : world) :
  ESL_ALLOC_obj size w = (inr tt, w') ->
  0 <= size /\ inbox w' = inbox w /\ (channel_ok w -> channel_ok w').
Proof.
  unfold ESL_ALLOC_obj. destruct (heap_alloc size (heap w)) as [[|] h] eqn:Ea;
    [|discriminate].
  intros E. inversion E; subst. split; [eapply heap_alloc_true; eassumption|]. auto.
Qed.

Lemma p7_hit_MPIRecv_takes (source tag : Z) (comm : MPI_Comm) (hit0 h : P7_HIT)
    (w w' : world) :
  channel_ok w -> p7_hit_MPIRecv source tag comm hit0 w = (inr h, w') ->
  consistent_hit h /\ consumed (1 + length (hit_dcl h)) w w' /\ channel_ok w'.
Proof.
  intros Hch. unfold p7_hit_MPIRecv, bind at 1.
  destruct (probe_and_receive source tag comm w) as [[e|[[n s] t]] w1] eqn:Ep;
    [discriminate|].
  destruct (probe_and_receive_takes_one _ _ _ _ _ _ Hch Ep) as (Hc1 & Hch1).
  unfold bind at 1.
  match goal with |- context [unpack_buf ?u ?p w1] =>
    destruct (unpack_buf_channel _ u p w1) as (Ui & Uc);
    destruct (unpack_buf u p w1) as [[e|h1] w2] end; [discriminate|].
  cbn [snd] in *. unfold bind at 1.
  destruct (ESL_ALLOC_obj (sizeof_P7_DOMAIN * hit_ndom h1) w2) as [[e|[]] w3] eqn:Ea;
    [discriminate|].
  destruct (ESL_ALLOC_obj_channel _ _ _ Ea) as (Hn & Ai & Ac).
  unfold bind at 1.
  destruct (recv_domains (Z.to_nat (hit_ndom h1)) s t comm w3) as [[e|ds] w4] eqn:Er;
    [discriminate|].
  destruct (recv_domains_takes _ _ _ _ _ _ _ (Ac (Uc Hch1)) Er) as (Hl & Hc2 & Hch4).
  unfold ret. intros E. inversion E; subst; clear E.
  unfold sizeof_P7_DOMAIN in Hn. split; [|split; [|assumption]].
  - unfold consistent_hit.
    assert (Hd : hit_dcl (set_hit_dcl ds h1) = ds) by (destruct h1; reflexivity).
    assert (Hnd : hit_ndom (set_hit_dcl ds h1) = hit_ndom h1) by (destruct h1; reflexivity).
    rewrite Hd, Hnd. unfold zlen. lia.
  - assert (Hd : hit_dcl (set_hit_dcl ds h1) = ds) by (destruct h1; reflexivity).
    rewrite Hd, Hl. eapply consumed_add; [exact Hc1|].
    destruct Hc2 as (tk & Htk & Ltk). exists tk. split; [congruence|assumption].
Qed.

Lemma recv_hits_takes (k : nat) (source tag : Z) (comm : MPI_Comm) :
  forall (th0 th : P7_TOPHITS) (w w' : world),
    channel_ok w -> recv_hits k source tag comm th0 w = (inr th, w') ->
    exists hs,
      th_unsrt th = th_unsrt th0 ++ hs /\ length hs = k
      /\ th_N th = th_N th0 + Z.of_nat k
      /\ th_nreported th = th_nreported th0 /\ th_nincluded th = th_nincluded th0
      /\ Forall consistent_hit hs
      /\ consumed (length (flat_map hit_frames hs)) w w' /\ channel_ok w'.
Proof.
  induction k as [|k IH]; intros th0 th w w' Hch; cbn [recv_hits].
  - unfold ret. intros E. inversion E; subst. exists [].
    rewrite app_nil_r. cbn [length flat_map].
    split; [reflexivity|]. split; [reflexivity|]. split; [lia|].
    split; [reflexivity|]. split; [reflexivity|]. split; [constructor|].
    split; [now apply consumed_zero|assumption].
  - unfold bind at 1, p7_tophits_CreateNextHit.
    destruct (heap_alloc 1 (heap w)) as [[|] hp]; [|discriminate].
    cbn [fst snd]. unfold bind at 1.
    destruct (p7_hit_MPIRecv source tag comm blank_hit (set_heap hp w)) as [[e|h] w1] eqn:Eh;
      [discriminate|].
    assert (Hch0 : channel_ok (set_heap hp w)) by exact Hch.
    destruct (p7_hit_MPIRecv_takes _ _ _ _ _ _ _ Hch0 Eh) as (Hcons & Hc1 & Hch1).
    intros Er. destruct (IH _ _ _ _ Hch1 Er) as (hs & Hu & Hl & HN & Hr & Hi & Hf & Hc2 & Hch2).
    unfold store_hit in *. cbn [th_unsrt th_N th_nreported th_nincluded] in *.
    rewrite removelast_last in Hu.
    exists (h :: hs). rewrite Hu, <- app_assoc. cbn [app length flat_map].
    split; [reflexivity|]. split; [congruence|]. split; [lia|].
    split; [assumption|]. split; [assumption|]. split; [now constructor|].
    split; [|assumption].
    rewrite length_app. unfold hit_frames at 1. cbn [length]. rewrite length_map.
    eapply consumed_add; [|exact Hc2].
    destruct Hc1 as (tk & Htk & Ltk). exists tk. split; [exact Htk|exact Ltk].
Qed.

Lemma tophits_recv_ERROR_none (th0 : option P7_TOPHITS) (e : abort) (w w' : world)
    (st : status) (th : P7_TOPHITS) :
  tophits_recv_ERROR th0 e w <> (inr (st, Some th), w').
Proof.
  destruct e as [s|]; cbn [tophits_recv_ERROR]; [|discriminate].
  unfold bind. destruct th0; cbn; discriminate.
Qed.

Lemma tophits_recv_open_takes (source tag : Z) (comm : MPI_Comm) (w w' : world)
    (th0 : P7_TOPHITS) (r : Z * Z * Z) :
  channel_ok w -> tophits_recv_open source tag comm w = (inr (th0, r), w') ->
  th_unsrt th0 = [] /\ th_N th0 = 0 /\ consumed 1 w w' /\ channel_ok w'.
Proof.
  intros Hch. unfold tophits_recv_open, bind at 1.
  destruct (probe_and_receive source tag comm w) as [[e|r1] w1] eqn:Ep; [discriminate|].
  destruct (probe_and_receive_takes_one _ _ _ _ _ _ Hch Ep) as (Hc1 & Hch1).
  unfold bind, p7_tophits_Create.
  destruct (heap_alloc 1 (heap w1)) as [[|] hp]; [|discriminate].
  unfold ret. intros E. inversion E; subst; clear E.
  split; [reflexivity|]. split; [reflexivity|]. split; [|exact Hch1].
  destruct Hc1 as (tk & Htk & Ltk). exists tk. split; [exact Htk|exact Ltk].
Qed.

(** X13. A collection that p7_tophits_MPIRecv hands back with eslOK, over a
    channel on which no MPI_Probe or MPI_Recv fails, is consistent whatever
    the messages held: [N] is the number of hits, every hit counts as many
    domains as it holds, and the receiver took exactly one message per
    record (one envelope, and for each hit one message and one per
    domain). *)
Theorem received_collection_is_consistent :
  forall (source tag : Z) (comm : MPI_Comm) (w w' : world) (th : P7_TOPHITS),
    channel_ok w ->
    p7_tophits_MPIRecv source tag comm w = (inr (eslOK, Some th), w') ->
    th_N th = zlen (th_unsrt th)
    /\ Forall consistent_hit (th_unsrt th)
    /\ consumed (length (tophits_frames th)) w w'.
Proof.
  intros source tag comm w w' th Hch. unfold p7_tophits_MPIRecv, catch at 1.
  destruct (tophits_recv_open source tag comm w) as [[e|[th0 [[n s] t]]] w1] eqn:Eo.
  { intros E. exfalso. eapply tophits_recv_ERROR_none. exact E. }
  destruct (tophits_recv_open_takes _ _ _ _ _ _ _ Hch Eo) as (Hu0 & HN0 & Hc1 & Hch1).
  unfold catch.
  destruct (tophits_recv_fill th0 n s t comm w1) as [[e|th1] w2] eqn:Ef.
  { intros E. exfalso. eapply tophits_recv_ERROR_none. exact E. }
  unfold ret. intros E. inversion E; subst; clear E.
  unfold tophits_recv_fill, bind in Ef.
  match type of Ef with context [unpack_buf ?u ?p w1] =>
    destruct (unpack_buf_channel _ u p w1) as (Ui & Uc);
    destruct (unpack_buf u p w1) as [[e|[[nhits nrep] ninc]] w3] end; [discriminate|].
  cbn [snd] in *.
  destruct (recv_hits_takes _ _ _ _ _ _ _ _ (Uc Hch1) Ef)
    as (hs & Hu & Hl & HN & _ & _ & Hf & Hc2 & _).
  cbn [th_unsrt th_N] in Hu, HN. rewrite Hu0 in Hu. rewrite HN0 in HN. cbn [app] in Hu.
  rewrite Hu. split; [unfold zlen; lia|]. split; [exact Hf|].
  unfold tophits_frames. cbn [length]. rewrite Hu.
  change (S (length (flat_map hit_frames hs)))
    with (1 + length (flat_map hit_frames hs))%nat.
  eapply consumed_add; [exact Hc1|].
  destruct Hc2 as (tk & Htk & Ltk). exists tk. split; [congruence|exact Ltk].
Qed.

Lemma received_collection_is_consistent_witness :
  th_N one_hit = zlen (th_unsrt one_hit)
  /\ Forall consistent_hit (th_unsrt one_hit)
  /\ consumed (length (tophits_frames one_hit)) (receiver [] one_hit_messages)
       (snd (p7_tophits_MPIRecv MPI_ANY_SOURCE MPI_ANY_TAG tt (receiver [] one_hit_messages))).
Proof.
  assert (H1 : channel_ok (receiver [] one_hit_messages)) by (split; reflexivity).
  assert (H2 : p7_tophits_MPIRecv MPI_ANY_SOURCE MPI_ANY_TAG tt (receiver [] one_hit_messages)
               = (inr (eslOK, Some one_hit),
                  snd (p7_tophits_MPIRecv MPI_ANY_SOURCE MPI_ANY_TAG tt
                         (receiver [] one_hit_messages))))
    by (vm_compute; reflexivity).
  exact (received_collection_is_consistent MPI_ANY_SOURCE MPI_ANY_TAG tt _ _ one_hit H1 H2).
Defined.

(** ** Allocation failure while receiving *)

Lemma check_peer_passes (source tag : Z) (m : message) (w : world) :
  from_peer source tag m ->
  check_peer source tag {| MPI_SOURCE := msg_peer m; MPI_TAG := msg_tag m;
                           st_count := zlen (msg_data m) |} w = (inr tt, w).
Proof.
  intros [Htag Hsrc]. unfold check_peer. cbn [MPI_TAG MPI_SOURCE].
  assert (Ht : negb (tag =? MPI_ANY_TAG) && negb (msg_tag m =? tag) = false).
  { destruct Htag as [->| ->]; [now rewrite Z.eqb_refl|].
    rewrite Z.eqb_refl. apply andb_false_r. }
  assert (Hs : negb (source =? MPI_ANY_SOURCE) && negb (msg_peer m =? source) = false).
  { destruct Hsrc as [->| ->]; [now rewrite Z.eqb_refl|].
    rewrite Z.eqb_refl. apply andb_false_r. }
  now rewrite Ht, Hs.
Qed.

(** The buffer has to grow and the allocation fails: the receive stops
    before MPI_Recv is called. *)
Lemma probe_and_receive_no_memory (source tag : Z) (comm : MPI_Comm) (w : world)
    (m : message) (rest : list message) (h : list bool) :
  inbox w = m :: rest -> probes w = [] -> from_peer source tag m ->
  buf w = None \/ nalloc w < zlen (msg_data m) -> heap w = false :: h ->
  probe_and_receive source tag comm w = (inl (Throw eslEMEM), set_heap h w).
Proof.
  intros Hin Hp Hfrom Hsmall Hh.
  unfold probe_and_receive, bind at 1, MPI_Probe, probe_message. rewrite Hp, Hin.
  unfold bind at 1. rewrite check_peer_passes by assumption.
  unfold bind at 1, grow_buffer. cbn [MPI_Get_count st_count].
  assert (Hc : is_null (buf w) || (zlen (msg_data m) >? nalloc w) = true).
  { destruct Hsmall as [->|Hlt]; [reflexivity|].
    destruct (Z.gtb_spec (zlen (msg_data m)) (nalloc w)); [apply orb_true_r|lia]. }
  rewrite Hc. unfold bind, ESL_RALLOC, heap_alloc. rewrite Hh.
  pose proof (zlen_nonneg (msg_data m)).
  destruct (Z.ltb_spec (zlen (msg_data m)) 0); [lia|reflexivity].
Qed.

(** X14. When the working buffer has to grow for the message at the head of
    the channel and that allocation fails, each receive function fails with
    eslEMEM (p7_tophits_MPIRecv returns it with a NULL collection) and the
    message stays in the channel; the buffer and its recorded capacity are
    as before. *)
Theorem receive_without_memory_leaves_message :
  forall (source tag : Z) (comm : MPI_Comm) (hit : P7_HIT) (w : world)
         (m : message) (rest : list message) (h : list bool),
    inbox w = m :: rest -> probes w = [] -> from_peer source tag m ->
    buf w = None \/ nalloc w < zlen (msg_data m) -> heap w = false :: h ->
    p7_dcl_MPIRecv source tag comm w = (inl (Throw eslEMEM), set_heap h w)
    /\ p7_hit_MPIRecv source tag comm hit w = (inl (Throw eslEMEM), set_heap h w)
    /\ p7_tophits_MPIRecv source tag comm w = (inr (eslEMEM, None), set_heap h w)
    /\ inbox (set_heap h w) = m :: rest
    /\ buf (set_heap h w) = buf w /\ nalloc (set_heap h w) = nalloc w.
Proof.
  intros source tag comm hit w m rest h Hin Hp Hfrom Hsmall Hh.
  pose proof (probe_and_receive_no_memory source tag comm w m rest h Hin Hp Hfrom Hsmall Hh)
    as E.
  split; [|split; [|split]].
  - unfold p7_dcl_MPIRecv, bind. now rewrite E.
  - unfold p7_hit_MPIRecv, bind. now rewrite E.
  - unfold p7_tophits_MPIRecv, catch, tophits_recv_open, bind. now rewrite E.
  - repeat split. exact Hin.
Qed.

Lemma receive_without_memory_leaves_message_witness :
  p7_tophits_MPIRecv MPI_ANY_SOURCE 7 tt starved_world
  = (inr (eslEMEM, None), set_heap [] starved_world)
  /\ inbox (set_heap [] starved_world) = one_hit_messages.
Proof.
  assert (H1 : inbox starved_world = hd stray_message one_hit_messages :: tl one_hit_messages)
    by (vm_compute; reflexivity).
  assert (H3 : from_peer MPI_ANY_SOURCE 7 (hd stray_message one_hit_messages)).
  { split; [right; vm_compute; reflexivity|left; reflexivity]. }
  destruct (receive_without_memory_leaves_message MPI_ANY_SOURCE 7 tt blank_hit starved_world
              (hd stray_message one_hit_messages) (tl one_hit_messages) []
              H1 eq_refl H3 (or_introl eq_refl) eq_refl)
    as (_ & _ & E & _).
  split; [exact E|reflexivity].
Defined.

(** ** Statuses of the send functions *)

Lemma pack_buf_status (bad : status) (p : Comp packbuf status unit) (pos : Z) :
  never_throws bad p -> never_throws (Throw bad) (pack_buf p pos).
Proof.
  intros Hp w. unfold pack_buf.
  specialize (Hp {| pk_bytes := deref (buf w); pk_pos := pos |}).
  destruct (p _) as [[e|u] b]; cbn [fst] in *; [|discriminate].
  intros H. apply Hp. now inversion H.
Qed.

Lemma pack_buf_returns (p : Comp packbuf status unit) (pos : Z) :
  never_throws Blocked (pack_buf p pos).
Proof. intros w. unfold pack_buf. destruct (p _) as [[e|u] b]; discriminate. Qed.

Lemma MPI_Send_status (e : abort) (n dest tag : Z) (comm : MPI_Comm) :
  e <> Throw eslESYS -> never_throws e (MPI_Send n dest tag comm).
Proof.
  intros He w. unfold MPI_Send. destruct (link w) as [|[|] l]; cbn; congruence.
Qed.

Lemma never_throws_get {S E : Type} (bad : E) : never_throws bad (@get S E).
Proof. intros s. discriminate. Qed.

Lemma never_throws_for_each {S E A : Type} (bad : E) (l : list A)
    (body : A -> Comp S E unit) :
  (forall x, never_throws bad (body x)) -> never_throws bad (for_each l body).
Proof.
  intros H. induction l as [|x l IH]; cbn [for_each]; [apply never_throws_ret|].
  apply never_throws_bind; [apply H|intros _; exact IH].
Qed.

Section Send_status.
Variable e : abort.
Hypothesis e_ESYS : e <> Throw eslESYS.
Variables (dest tag : Z) (comm : MPI_Comm).

Lemma pack_buf_hit_status (h : P7_HIT) (n pos : Z) :
  never_throws e (pack_buf (p7_hit_MPIPack h n comm) pos).
Proof.
  destruct e as [bad|]; [|apply pack_buf_returns].
  apply pack_buf_status, p7_hit_MPIPack_only_ESYS. congruence.
Qed.

Lemma pack_buf_dcl_status (d : P7_DOMAIN) (n pos : Z) :
  never_throws e (pack_buf (p7_dcl_MPIPack d n comm) pos).
Proof.
  destruct e as [bad|]; [|apply pack_buf_returns].
  apply pack_buf_status, p7_dcl_MPIPack_only_ESYS. congruence.
Qed.

Lemma p7_dcl_MPISend_status (d : P7_DOMAIN) :
  never_throws e (p7_dcl_MPISend d dest tag comm).
Proof.
  unfold p7_dcl_MPISend.
  apply never_throws_bind; [apply never_throws_get|intros w].
  apply never_throws_bind; [apply pack_buf_dcl_status|intros _].
  now apply MPI_Send_status.
Qed.

Lemma p7_hit_MPISend_status (h : P7_HIT) :
  never_throws e (p7_hit_MPISend h dest tag comm).
Proof.
  unfold p7_hit_MPISend.
  apply never_throws_bind; [apply never_throws_get|intros w].
  apply never_throws_bind; [apply pack_buf_hit_status|intros _].
  apply never_throws_bind; [now apply MPI_Send_status|intros _].
  apply never_throws_for_each. intros d. apply p7_dcl_MPISend_status.
Qed.

End Send_status.

Lemma size_add_status (c : Z) (t : MPI_Datatype) (comm : MPI_Comm) (bad : status) :
  bad <> eslESYS -> never_throws bad (size_add c t comm).
Proof.
  intros Hb n. unfold size_add. destruct (MPI_Pack_size c t comm); cbn; congruence.
Qed.

Lemma PackOptSize_status (s : option (list Z)) (comm : MPI_Comm) (bad : status) :
  bad <> eslESYS -> never_throws bad (esl_mpi_PackOptSize s comm).
Proof.
  intros Hb n. unfold esl_mpi_PackOptSize. destruct s as [l|].
  - destruct (MPI_Pack_size 2 MPI_INT comm); [|cbn; congruence].
    destruct (MPI_Pack_size (zlen l) MPI_CHAR comm); cbn; congruence.
  - destruct (MPI_Pack_size 1 MPI_INT comm); cbn; congruence.
Qed.

Lemma size_result_status (body : Comp Z status unit) :
  (forall bad, bad <> eslESYS -> never_throws bad body) ->
  fst (size_result body) = eslOK \/ fst (size_result body) = eslESYS.
Proof.
  intros H. unfold size_result. destruct (body 0) as [[e|u] n] eqn:E; [|now left].
  right. cbn [fst]. destruct e; try reflexivity; exfalso;
    match type of E with _ = (inl ?e, _) =>
      apply (H e ltac:(discriminate) 0); rewrite E; reflexivity
    end.
Qed.

Lemma p7_hit_MPIPackSize_status (h : P7_HIT) (comm : MPI_Comm) :
  fst (p7_hit_MPIPackSize h comm) = eslOK \/ fst (p7_hit_MPIPackSize h comm) = eslESYS.
Proof.
  apply size_result_status. intros bad Hb.
  repeat (apply never_throws_bind;
          [first [now apply size_add_status | now apply PackOptSize_status]|intros _]).
  now apply PackOptSize_status.
Qed.

Lemma p7_dcl_MPIPackSize_status (d : P7_DOMAIN) (comm : MPI_Comm) :
  fst (p7_dcl_MPIPackSize d comm) = eslOK \/ fst (p7_dcl_MPIPackSize d comm) = eslESYS.
Proof.
  apply size_result_status. intros bad Hb.
  repeat (apply never_throws_bind; [now apply size_add_status|intros _]).
  now apply size_add_status.
Qed.

Lemma size_of_status (e : abort) (r : status * Z) :
  e <> Throw eslESYS -> fst r = eslOK \/ fst r = eslESYS -> never_throws e (size_of r).
Proof.
  intros He Hr w. destruct r as [st n]. cbn [fst] in Hr.
  destruct Hr as [-> | ->]; cbn; congruence.
Qed.

Lemma grow_buffer_status (e : abort) (n : Z) :
  e <> Throw eslEMEM -> never_throws e (grow_buffer n).
Proof.
  intros He w. unfold grow_buffer, ESL_RALLOC, bind, modify.
  destruct (is_null (buf w) || (n >? nalloc w)); [|discriminate].
  destruct (heap_alloc n (heap w)) as [[|] h]; cbn; congruence.
Qed.

Lemma p7_tophits_MPISend_status (e : abort) (th : P7_TOPHITS) (dest tag : Z)
    (comm : MPI_Comm) :
  e <> Throw eslESYS -> e <> Throw eslEMEM ->
  never_throws e (p7_tophits_MPISend th dest tag comm).
Proof.
  intros H1 H2. unfold p7_tophits_MPISend.
  apply never_throws_bind.
  { unfold tophits_buffer_size. apply never_throws_bind.
    - destruct (th_N th >? 0); [|apply never_throws_ret].
      apply never_throws_bind;
        [apply size_of_status; [assumption|apply p7_hit_MPIPackSize_status]|intros n].
      destruct (snd (largest_pool th)); [|apply never_throws_ret].
      apply never_throws_bind;
        [apply size_of_status; [assumption|apply p7_dcl_MPIPackSize_status]|intros sz].
      apply never_throws_ret.
    - intros n. destruct (MPI_Pack_size _ _ _); [apply never_throws_ret|].
      intros w. cbn. congruence. }
  intros n.
  apply never_throws_bind; [now apply grow_buffer_status|intros _].
  apply never_throws_bind.
  { destruct e as [bad|]; [|apply pack_buf_returns].
    apply pack_buf_status.
    repeat (apply never_throws_bind; [|intros _]);
      apply MPI_Pack_only_ESYS; congruence. }
  intros _.
  apply never_throws_bind; [now apply MPI_Send_status|intros _].
  destruct (th_N th =? 0); [apply never_throws_ret|].
  apply never_throws_for_each. intros h. now apply p7_hit_MPISend_status.
Qed.

Lemma abort_cases (e : abort) :
  e = Throw eslESYS \/ e = Throw eslEMEM
  \/ (e <> Throw eslESYS /\ e <> Throw eslEMEM).
Proof.
  destruct e as [[| | |]|]; try (right; right; split; discriminate); auto.
Qed.

(** X15. The only statuses with which the send functions report a failure
    are the documented ones: p7_tophits_MPISend fails with [eslESYS] or
    [eslEMEM], p7_hit_MPISend and p7_dcl_MPISend (which do not size or grow
    the buffer) with [eslESYS] only. *)
Theorem send_statuses :
  forall (th : P7_TOPHITS) (h : P7_HIT) (d : P7_DOMAIN) (dest tag : Z)
         (comm : MPI_Comm) (w : world),
    match fst (p7_tophits_MPISend th dest tag comm w) with
    | inl (Throw e) => e = eslESYS \/ e = eslEMEM
    | _ => True
    end
    /\ match fst (p7_hit_MPISend h dest tag comm w) with
       | inl (Throw e) => e = eslESYS
       | _ => True
       end
    /\ match fst (p7_dcl_MPISend d dest tag comm w) with
       | inl (Throw e) => e = eslESYS
       | _ => True
       end.
Proof.
  intros th h d dest tag comm w. split; [|split].
  - pose proof (fun e H1 H2 => p7_tophits_MPISend_status e th dest tag comm H1 H2 w) as H.
    destruct (fst (p7_tophits_MPISend th dest tag comm w)) as [[e|]|[]]; try exact I.
    destruct (abort_cases (Throw e)) as [E|[E|[H1 H2]]];
      [inversion E; auto|inversion E; auto|exfalso; now apply (H (Throw e) H1 H2)].
  - pose proof (fun e H1 => p7_hit_MPISend_status e H1 dest tag comm h w) as H.
    destruct (fst (p7_hit_MPISend h dest tag comm w)) as [[e|]|[]]; try exact I.
    destruct e; try reflexivity; exfalso.
    + now apply (H (Throw eslOK) ltac:(discriminate)).
    + now apply (H (Throw eslFAIL) ltac:(discriminate)).
    + now apply (H (Throw eslEMEM) ltac:(discriminate)).
  - pose proof (fun e H1 => p7_dcl_MPISend_status e H1 dest tag comm d w) as H.
    destruct (fst (p7_dcl_MPISend d dest tag comm w)) as [[e|]|[]]; try exact I.
    destruct e; try reflexivity; exfalso.
    + now apply (H (Throw eslOK) ltac:(discriminate)).
    + now apply (H (Throw eslFAIL) ltac:(discriminate)).
    + now apply (H (Throw eslEMEM) ltac:(discriminate)).
Qed.

(** ** A message shorter than its record *)

(** A message that fits the buffer is written over its first bytes; the
    bytes behind it stay. *)
Lemma probe_and_receive_roomy (source tag : Z) (comm : MPI_Comm) (w : world)
    (m : message) (rest : list message) (l : list Z) :
  inbox w = m :: rest -> channel_ok w -> from_peer source tag m ->
  buf w = Some l -> zlen (msg_data m) <= nalloc w ->
  probe_and_receive source tag comm w
  = (inr (zlen (msg_data m), msg_peer m, msg_tag m),
     set_inbox rest (set_buf (Some (write l 0 (msg_data m))) w)).
Proof.
  intros Hin [Hp Hr] Hfrom Hb Hfit.
  unfold probe_and_receive, bind at 1, MPI_Probe, probe_message. rewrite Hp, Hin.
  unfold bind at 1. rewrite check_peer_passes by assumption.
  unfold bind at 1. cbn [MPI_Get_count st_count MPI_TAG MPI_SOURCE].
  rewrite grow_buffer_noop by (try lia; congruence).
  unfold bind, MPI_Recv, receive_message, ret. rewrite Hr, Hin, Hb.
  cbn [store deref]. unfold zlen. rewrite Nat2Z.id, firstn_all. reflexivity.
Qed.

Lemma write_prefix (wire l : list Z) (k : nat) :
  write (wire ++ l) 0 (firstn k wire) = wire ++ l.
Proof.
  unfold write. cbn [Z.to_nat firstn app Nat.add].
  rewrite length_firstn.
  assert (H : firstn k wire = firstn (Nat.min k (length wire)) (wire ++ l)).
  { rewrite firstn_app.
    replace (Nat.min k (length wire) - length wire)%nat with 0%nat by lia.
    rewrite firstn_O, app_nil_r.
    destruct (Nat.le_ge_cases k (length wire)) as [Hle|Hge].
    - now rewrite Nat.min_l.
    - rewrite Nat.min_r by assumption. now rewrite !firstn_all2 by lia. }
  rewrite H at 1. apply firstn_skipn.
Qed.

(** X16. p7_dcl_MPIRecv unpacks up to the capacity [*nalloc] of the buffer,
    not up to the length of the message it received. When the buffer still
    holds the record of a domain and the incoming message is only a prefix
    of that record, even an empty one, the call succeeds and returns the
    domain, completed from the bytes that were left in the buffer. *)
Theorem dcl_receive_unpacks_up_to_capacity :
  forall (source tag : Z) (comm : MPI_Comm) (w : world) (m : message)
         (rest : list message) (d : P7_DOMAIN) (l : list Z) (k : nat),
    inbox w = m :: rest -> channel_ok w -> no_fault (heap w) -> from_peer source tag m ->
    dcl_ok d = true ->
    buf w = Some (dcl_wire d ++ l) -> nalloc w = zlen (dcl_wire d ++ l) ->
    msg_data m = firstn k (dcl_wire d) ->
    exists w',
      p7_dcl_MPIRecv source tag comm w = (inr d, w')
      /\ inbox w' = rest /\ buf w' = buf w /\ nalloc w' = nalloc w.
Proof.
  intros source tag comm w m rest d l k Hin Hch Hh Hfrom Hok Hb Hn Hdata.
  assert (Hfit : zlen (msg_data m) <= nalloc w).
  { rewrite Hn, Hdata, zlen_app. unfold zlen. rewrite length_firstn. lia. }
  pose proof (probe_and_receive_roomy source tag comm w m rest _ Hin Hch Hfrom Hb Hfit) as Ep.
  rewrite Hdata, write_prefix in Ep. rewrite <- Hdata in Ep.
  set (w1 := set_inbox rest (set_buf (Some (dcl_wire d ++ l)) w)) in *.
  destruct (unpack_buf_ok (fun b => p7_dcl_MPIUnpack b (nalloc w1) comm)
              (dcl_wire d) l d (nalloc w1) w1 eq_refl
              (p7_dcl_MPIUnpack_wire _ _ comm d Hok))
    as (h2 & Eu & Hh2).
  - cbn [nalloc w1 set_inbox set_buf]. rewrite Hn, zlen_app.
    pose proof (zlen_nonneg l). lia.
  - cbn [nalloc w1 set_inbox set_buf]. lia.
  - exact Hh.
  - exists (set_heap h2 w1). split.
    + unfold p7_dcl_MPIRecv, bind at 1. rewrite Ep. unfold bind, get. exact Eu.
    + cbn. auto.
Qed.

Lemma dcl_receive_unpacks_up_to_capacity_witness :
  exists w',
    p7_dcl_MPIRecv 3 7 tt stale_world = (inr sample_dcl, w') /\ inbox w' = [].
Proof.
  assert (H1 : dcl_ok sample_dcl = true) by (vm_compute; reflexivity).
  assert (H2 : buf stale_world = Some (dcl_wire sample_dcl ++ []))
    by (vm_compute; reflexivity).
  assert (H3 : nalloc stale_world = zlen (dcl_wire sample_dcl ++ []))
    by (vm_compute; reflexivity).
  destruct (dcl_receive_unpacks_up_to_capacity 3 7 tt stale_world
              {| msg_peer := 3; msg_tag := 7; msg_data := [] |} [] sample_dcl [] 0
              eq_refl (conj eq_refl eq_refl) (Forall_nil _)
              (conj (or_intror eq_refl) (or_intror eq_refl)) H1 H2 H3 eq_refl)
    as (w' & E & Hi & _).
  exists w'. split; assumption.
Defined.

(** An unpack function limited to fewer bytes than its smallest record
    fails. *)

Lemma unpack_buf_short {A : Type} (u : list Z -> Comp unpackst status A) (n least : Z)
    (size : A -> Z) (w : world) :
  reads n (u (deref (buf w))) size -> (forall a, least <= size a) ->
  0 < least -> n < least ->
  exists e s,
    u (deref (buf w)) {| up_pos := 0; up_heap := heap w |} = (inl e, s)
    /\ unpack_buf u 0 w = (inl (Throw e), set_heap (up_heap s) w).
Proof.
  intros Hr Hleast Hpos Hn. unfold unpack_buf.
  destruct (u (deref (buf w)) {| up_pos := 0; up_heap := heap w |}) as [[e|a] s] eqn:E.
  - eauto.
  - exfalso. destruct (Hr _ _ _ E) as (H1 & H2 & H3). specialize (Hleast a).
    cbn [up_pos] in *. lia.
Qed.

Lemma reads_envelope (bytes : list Z) (n : Z) (comm : MPI_Comm) :
  reads n (nhits <- unpack_raw bytes n MPI_LONG_LONG_INT comm ;;
           nreported <- unpack_raw bytes n MPI_LONG_LONG_INT comm ;;
           nincluded <- unpack_raw bytes n MPI_LONG_LONG_INT comm ;;
           ret (nhits, nreported, nincluded)) (fun _ => 24).
Proof.
  repeat (eapply reads_bind; [apply (reads_raw bytes n comm MPI_LONG_LONG_INT)|intros ?; cbv beta]).
  now apply reads_ret.
Qed.

(** X17. p7_tophits_MPIRecv and p7_hit_MPIRecv unpack up to the length of
    the message received. An envelope message shorter than 24 bytes makes
    p7_tophits_MPIRecv return eslESYS with a NULL collection, the message
    taken and no collection left live; a hit message shorter than 96 bytes
    makes p7_hit_MPIRecv fail with eslESYS or eslEMEM, the message
    taken. *)
Theorem short_message_is_refused :
  forall (source tag : Z) (comm : MPI_Comm) (hit0 : P7_HIT) (w : world)
         (m : message) (rest : list message),
    inbox w = m :: rest -> ready w -> from_peer source tag m ->
    (zlen (msg_data m) < 24 ->
     exists w',
       p7_tophits_MPIRecv source tag comm w = (inr (eslESYS, None), w')
       /\ inbox w' = rest /\ th_live w' = th_live w)
    /\ (zlen (msg_data m) < 96 ->
        exists e w',
          p7_hit_MPIRecv source tag comm hit0 w = (inl (Throw e), w')
          /\ (e = eslESYS \/ e = eslEMEM) /\ inbox w' = rest).
Proof.
  intros source tag comm hit0 w m rest Hin (Hw & Hh & Hch) (Htag & Hsrc).
  destruct (probe_and_receive_ok source tag comm w m rest Hin Hw Hh Hch Htag Hsrc)
    as (w1 & l & Ep & Hb1 & Hl1 & Hmono & Hi1 & Hs1 & _ & Ht1 & Hh1 & Hch1).
  split.
  - intros Hshort.
    destruct (p7_tophits_Create_ok w1 Hh1) as (h2 & Ec & Hh2).
    set (w2 := set_th_live (th_live w1 + 1) (set_heap h2 w1)) in *.
    destruct (unpack_buf_short
                (fun b => nhits <- unpack_raw b (zlen (msg_data m)) MPI_LONG_LONG_INT comm ;;
                          nreported <- unpack_raw b (zlen (msg_data m)) MPI_LONG_LONG_INT comm ;;
                          nincluded <- unpack_raw b (zlen (msg_data m)) MPI_LONG_LONG_INT comm ;;
                          ret (nhits, nreported, nincluded))
                (zlen (msg_data m)) 24 (fun _ => 24) w2)
      as (e & s & Eu & Eb); [apply reads_envelope|intros; lia|lia|lia|].
    assert (He : e = eslESYS).
    { destruct e; try reflexivity; exfalso;
        match type of Eu with ?u ?s0 = (inl ?e, _) =>
          apply (envelope_status e (deref (buf w2)) (zlen (msg_data m)) comm
                   ltac:(discriminate) s0);
          rewrite Eu; reflexivity
        end. }
    subst e. eexists. split; [|split].
    + unfold p7_tophits_MPIRecv, catch at 1, tophits_recv_open, bind at 1.
      rewrite Ep. unfold bind at 1. rewrite Ec. unfold ret at 1.
      unfold catch, tophits_recv_fill, bind at 1. fold w2. rewrite Eb.
      cbn [tophits_recv_ERROR]. unfold bind, p7_tophits_Destroy, modify, ret. reflexivity.
    + cbn. exact Hi1.
    + cbn. lia.
  - intros Hshort.
    destruct (unpack_buf_short
                (fun b => p7_hit_MPIUnpack b (zlen (msg_data m)) comm hit0)
                (zlen (msg_data m)) 96 (fun h => zlen (hit_wire h)) w1)
      as (e & s & Eu & Eb); [apply reads_hit|apply hit_wire_min|lia|lia|].
    exists e. eexists. split; [|split].
    + unfold p7_hit_MPIRecv, bind at 1. rewrite Ep. unfold bind at 1. rewrite Eb.
      reflexivity.
    + eapply status_ESYS_or_EMEM; [|exact Eu].
      intros bad H1 H2. now apply p7_hit_MPIUnpack_status.
    + cbn. exact Hi1.
Qed.

Lemma short_message_is_refused_witness :
  exists w',
    p7_tophits_MPIRecv MPI_ANY_SOURCE MPI_ANY_TAG tt clipped_world
    = (inr (eslESYS, None), w')
    /\ th_live w' = th_live clipped_world.
Proof.
  assert (H1 : inbox clipped_world
               = hd stray_message (inbox clipped_world) :: tl (inbox clipped_world))
    by (vm_compute; reflexivity).
  assert (H2 : ready clipped_world).
  { split; [vm_compute; reflexivity|]. split; [constructor|split; reflexivity]. }
  assert (H3 : from_peer MPI_ANY_SOURCE MPI_ANY_TAG (hd stray_message (inbox clipped_world)))
    by (split; left; reflexivity).
  assert (H4 : zlen (msg_data (hd stray_message (inbox clipped_world))) < 24)
    by (vm_compute; reflexivity).
  destruct (short_message_is_refused MPI_ANY_SOURCE MPI_ANY_TAG tt blank_hit clipped_world
              _ _ H1 H2 H3) as (Henv & _).
  destruct (Henv H4) as (w' & E & _ & Hl).
  exists w'. split; assumption.
Defined.

(** ** A transfer that does not fit the buffer *)

(** A record that was packed and sent fitted the buffer. *)
Lemma pack_and_send_fitted (P : Z -> Comp packbuf status unit) (data : list Z)
    (dest tag : Z) (comm : MPI_Comm) (w w' : world) :
  (forall n, overflows (P n) n data) ->
  (forall n, respects same_length (P n)) ->
  buffer_ok w ->
  (w0 <- get ;; _ <- pack_buf (P (nalloc w0)) 0 ;; MPI_Send (nalloc w0) dest tag comm) w
  = (inr tt, w') ->
  zlen data <= nalloc w /\ buffer_ok w' /\ nalloc w' = nalloc w.
Proof.
  intros Ho Hs Hw E. split.
  - destruct (Z.le_gt_cases (zlen data) (nalloc w)) as [Hle|Hgt]; [exact Hle|exfalso].
    destruct (Ho (nalloc w) (deref (buf w)) 0) as (e & b & Ep);
      [lia|unfold buffer_ok in Hw; lia|lia|].
    revert E. unfold bind, get, pack_buf. rewrite Ep. discriminate.
  - pose proof (pack_and_send_whole P dest tag comm Hs w) as H.
    rewrite E in H. destruct (H Hw) as (Hw' & Hn & _). split; assumption.
Qed.

Lemma p7_dcl_MPISend_fitted (d : P7_DOMAIN) (dest tag : Z) (comm : MPI_Comm)
    (w w' : world) :
  dcl_ok d = true -> buffer_ok w ->
  p7_dcl_MPISend d dest tag comm w = (inr tt, w') ->
  zlen (dcl_wire d) <= nalloc w /\ buffer_ok w' /\ nalloc w' = nalloc w.
Proof.
  intros Hok Hw E. destruct (dcl_ok_memsize d Hok) as (Hm & _).
  apply (pack_and_send_fitted (fun n => p7_dcl_MPIPack d n comm) (dcl_wire d)
           dest tag comm w w'); try assumption.
  - intros n. now apply p7_dcl_MPIPack_overflows.
  - intros n. apply p7_dcl_MPIPack_same_length.
Qed.

Lemma send_domains_fitted (dest tag : Z) (comm : MPI_Comm) (ds : list P7_DOMAIN) :
  forall w w' : world,
    forallb dcl_ok ds = true -> buffer_ok w ->
    for_each ds (fun dcl => p7_dcl_MPISend dcl dest tag comm) w = (inr tt, w') ->
    Forall (fun f => zlen f <= nalloc w) (map dcl_wire ds)
    /\ buffer_ok w' /\ nalloc w' = nalloc w.
Proof.
  induction ds as [|d ds IH]; intros w w' Hok Hw; cbn [for_each map].
  - unfold ret. intros E. inversion E; subst. repeat split; [constructor|assumption].
  - cbn [forallb] in Hok. apply andb_prop in Hok. destruct Hok as [Hd Hds].
    unfold bind. destruct (p7_dcl_MPISend d dest tag comm w) as [[e|[]] w1] eqn:E1;
      [discriminate|].
    destruct (p7_dcl_MPISend_fitted d dest tag comm w w1 Hd Hw E1) as (Hf & Hw1 & Hn1).
    intros E. destruct (IH w1 w' Hds Hw1 E) as (Hfs & Hw' & Hn').
    rewrite Hn1 in Hfs, Hn'. split; [now constructor|]. split; assumption.
Qed.

Lemma p7_hit_MPISend_fitted (h : P7_HIT) (dest tag : Z) (comm : MPI_Comm)
    (w w' : world) :
  hit_ok h = true -> buffer_ok w ->
  p7_hit_MPISend h dest tag comm w = (inr tt, w') ->
  Forall (fun f => zlen f <= nalloc w) (hit_frames h)
  /\ buffer_ok w' /\ nalloc w' = nalloc w.
Proof.
  intros Hok Hw. destruct (hit_ok_parts h Hok) as (Hnd & Hds).
  rewrite p7_hit_MPISend_split. unfold bind at 1.
  match goal with |- context [match ?m w with _ => _ end] =>
    destruct (m w) as [[e|[]] w1] eqn:E1 end; [discriminate|].
  destruct (pack_and_send_fitted (fun n => p7_hit_MPIPack h n comm) (hit_wire h)
              dest tag comm w w1) as (Hf & Hw1 & Hn1); try assumption.
  - intros n. apply p7_hit_MPIPack_overflows.
  - intros n. apply p7_hit_MPIPack_same_length.
  - rewrite Hnd, firstn_zlen. intros E.
    destruct (send_domains_fitted dest tag comm (hit_dcl h) w1 w' Hds Hw1 E)
      as (Hfs & Hw' & Hn').
    rewrite Hn1 in Hfs, Hn'. unfold hit_frames.
    split; [now constructor|]. split; assumption.
Qed.

Lemma send_hits_fitted (dest tag : Z) (comm : MPI_Comm) (hs : list P7_HIT) :
  forall w w' : world,
    forallb hit_ok hs = true -> buffer_ok w ->
    for_each hs (fun hit => p7_hit_MPISend hit dest tag comm) w = (inr tt, w') ->
    Forall (fun f => zlen f <= nalloc w) (flat_map hit_frames hs)
    /\ buffer_ok w' /\ nalloc w' = nalloc w.
Proof.
  induction hs as [|h hs IH]; intros w w' Hok Hw; cbn [for_each flat_map].
  - unfold ret. intros E. inversion E; subst. repeat split; [constructor|assumption].
  - cbn [forallb] in Hok. apply andb_prop in Hok. destruct Hok as [Hh Hhs].
    unfold bind. destruct (p7_hit_MPISend h dest tag comm w) as [[e|[]] w1] eqn:E1;
      [discriminate|].
    destruct (p7_hit_MPISend_fitted h dest tag comm w w1 Hh Hw E1) as (Hf & Hw1 & Hn1).
    intros E. destruct (IH w1 w' Hhs Hw1 E) as (Hfs & Hw' & Hn').
    rewrite Hn1 in Hfs, Hn'. split; [|split; assumption].
    apply Forall_app. split; assumption.
Qed.

(** The size p7_tophits_MPISend asks for holds the envelope, and the state
    is the same after the sizing pass. *)
Lemma tophits_buffer_size_envelope (th : P7_TOPHITS) (comm : MPI_Comm) (w w' : world)
    (n : Z) :
  tophits_buffer_size th comm w = (inr n, w') -> 24 <= n /\ w' = w.
Proof.
  unfold tophits_buffer_size.
  change (MPI_Pack_size 3 MPI_LONG_LONG_INT comm) with (Some 24).
  assert (Hs : forall r n0 w0, size_of r w = (inr n0, w0) -> w0 = w).
  { intros [[| | |] n1] n0 w0; cbn; unfold ret, throw; intros E; inversion E; reflexivity. }
  unfold bind at 1.
  match goal with |- context [match ?m w with _ => _ end] =>
    destruct (m w) as [[e|n0] w0] eqn:E0 end; [discriminate|].
  unfold ret. intros E. inversion E; subst. split.
  - destruct (Z.gtb_spec n0 24); lia.
  - revert E0. destruct (th_N th >? 0); [|unfold ret; intros E0; now inversion E0].
    unfold bind at 1.
    destruct (size_of (p7_hit_MPIPackSize (hd blank_hit (th_unsrt th)) comm) w)
      as [[e|n1] w1] eqn:E1; [discriminate|].
    apply Hs in E1. subst w1.
    destruct (snd (largest_pool th)) as [d|].
    + unfold bind.
      destruct (size_of (p7_dcl_MPIPackSize d comm) w) as [[e|n2] w2] eqn:E2;
        [discriminate|].
      apply Hs in E2. subst w2. unfold ret. intros E0. now inversion E0.
    + unfold ret. intros E0. now inversion E0.
Qed.

Lemma MPI_Send_buffer (n dest tag : Z) (comm : MPI_Comm) (w : world) :
  buf (snd (MPI_Send n dest tag comm w)) = buf w
  /\ nalloc (snd (MPI_Send n dest tag comm w)) = nalloc w.
Proof. unfold MPI_Send. destruct (link w) as [|[|] l]; split; reflexivity. Qed.

(** What follows the sizing block of p7_tophits_MPISend: the envelope and
    the loop over the hits. *)
Lemma tophits_send_fitted (th : P7_TOPHITS) (n dest tag : Z) (comm : MPI_Comm)
    (w w' : world) :
  th_ok th = true -> buffer_ok w ->
  (_ <- pack_buf (MPI_Pack [th_N th] 1 MPI_LONG_LONG_INT n comm ;;;
                  MPI_Pack [th_nreported th] 1 MPI_LONG_LONG_INT n comm ;;;
                  MPI_Pack [th_nincluded th] 1 MPI_LONG_LONG_INT n comm) 0 ;;
   MPI_Send n dest tag comm ;;;
   if th_N th =? 0 then ret tt
   else for_each (firstn (Z.to_nat (th_N th)) (th_unsrt th))
                 (fun hit => p7_hit_MPISend hit dest tag comm)) w = (inr tt, w') ->
  Forall (fun f => zlen f <= nalloc w) (flat_map hit_frames (th_unsrt th))
  /\ buffer_ok w' /\ nalloc w' = nalloc w.
Proof.
  intros Hok Hw. destruct (th_ok_parts th Hok) as (_ & _ & _ & HN & Hhs).
  unfold bind at 1.
  match goal with |- context [pack_buf ?p 0 w] =>
    assert (Hp : sends_whole_buffer w (snd (pack_buf p 0 w)));
    [apply pack_buf_sends;
     repeat (apply (respects_bind _ same_length_trans);
             [apply MPI_Pack_same_length|intros _]);
     apply MPI_Pack_same_length|];
    destruct (pack_buf p 0 w) as [[e|pos] w1] end; [discriminate|].
  cbn [snd] in Hp. destruct (Hp Hw) as (Hw1 & Hn1 & _).
  unfold bind at 1.
  destruct (MPI_Send_buffer n dest tag comm w1) as [Hb2 Hn2].
  destruct (MPI_Send n dest tag comm w1) as [[e|[]] w2]; [discriminate|].
  cbn [snd] in Hb2, Hn2.
  assert (Hw2 : buffer_ok w2) by (unfold buffer_ok in *; congruence).
  rewrite HN, firstn_zlen.
  destruct (Z.eqb_spec (zlen (th_unsrt th)) 0) as [Hz|Hz].
  - unfold ret. intros E. inversion E; subst.
    destruct (th_unsrt th); [|discriminate].
    split; [constructor|]. split; [assumption|congruence].
  - intros E.
    destruct (send_hits_fitted dest tag comm (th_unsrt th) w2 w' Hhs Hw2 E)
      as (Hf & Hw' & Hn').
    rewrite Hn2, Hn1 in Hf, Hn'. split; [assumption|]. split; assumption.
Qed.

(** X18. p7_tophits_MPISend succeeds only when every record of the transfer
    fits the buffer it leaves behind: after a successful call the buffer is
    as long as the recorded capacity, the capacity has not shrunk, and the
    envelope and the record of every hit and of every domain are at most
    that long. *)
Theorem successful_transfer_fitted_buffer :
  forall (th : P7_TOPHITS) (dest tag : Z) (comm : MPI_Comm) (w w' : world),
    th_ok th = true -> buffer_ok w ->
    p7_tophits_MPISend th dest tag comm w = (inr tt, w') ->
    buffer_ok w' /\ nalloc w <= nalloc w'
    /\ Forall (fun frame => zlen frame <= nalloc w') (tophits_frames th).
Proof.
  intros th dest tag comm w w' Hok Hw. unfold p7_tophits_MPISend, bind at 1.
  destruct (tophits_buffer_size th comm w) as [[e|n] w0] eqn:Es; [discriminate|].
  destruct (tophits_buffer_size_envelope th comm w w0 n Es) as [Hn ->].
  unfold bind at 1. destruct (grow_buffer_spec n w Hw) as (Hw1 & Hge & Hreach).
  destruct (grow_buffer n w) as [[e|[]] w1]; [discriminate|].
  cbn [fst snd] in *. destruct (Hreach tt eq_refl) as [Hn1 _].
  intros E.
  destruct (tophits_send_fitted th n dest tag comm w1 w' Hok Hw1 E) as (Hf & Hw' & Hn').
  rewrite <- Hn' in Hf. split; [assumption|]. split; [lia|].
  unfold tophits_frames. constructor; [|assumption].
  rewrite zlen_envelope_wire. lia.
Qed.

Lemma successful_transfer_fitted_buffer_witness :
  Forall (fun frame => zlen frame <= 300) (tophits_frames one_hit).
Proof.
  assert (H1 : th_ok one_hit = true) by (vm_compute; reflexivity).
  assert (H2 : buffer_ok roomy_world) by (vm_compute; reflexivity).
  assert (H3 : p7_tophits_MPISend one_hit 3 7 tt roomy_world
               = (inr tt, snd (p7_tophits_MPISend one_hit 3 7 tt roomy_world)))
    by (vm_compute; reflexivity).
  assert (H4 : nalloc (snd (p7_tophits_MPISend one_hit 3 7 tt roomy_world)) = 300)
    by (vm_compute; reflexivity).
  destruct (successful_transfer_fitted_buffer one_hit 3 7 tt roomy_world _ H1 H2 H3)
    as (_ & _ & Hf).
  rewrite H4 in Hf. exact Hf.
Defined.

(** When the domain with the largest pool has a longer record than the
    first hit, the sizing pass asks for less than that domain's record. *)
Lemma tophits_buffer_size_short (th : P7_TOPHITS) (comm : MPI_Comm) (w : world)
    (h0 : P7_HIT) (hs : list P7_HIT) (d : P7_DOMAIN) :
  th_ok th = true -> th_unsrt th = h0 :: hs ->
  snd (largest_pool th) = Some d ->
  zlen (hit_wire h0) < zlen (dcl_wire d) -> zlen (dcl_wire d) <= INT_MAX ->
  In (dcl_wire d) (flat_map hit_frames (th_unsrt th))
  /\ exists n, tophits_buffer_size th comm w = (inr n, w) /\ 0 <= n < zlen (dcl_wire d).
Proof.
  intros Hok Hu El Hlt Hmax.
  destruct (th_ok_parts th Hok) as (_ & _ & _ & HN & Hhs).
  destruct (largest_pool_in th d El) as (h & Hh & Hd).
  rewrite HN, firstn_zlen in Hh.
  assert (Hhok : hit_ok h = true) by (rewrite forallb_forall in Hhs; now apply Hhs).
  destruct (hit_ok_parts h Hhok) as (Hnd & Hds).
  rewrite Hnd, firstn_zlen in Hd.
  assert (Hdok : dcl_ok d = true) by (rewrite forallb_forall in Hds; now apply Hds).
  destruct (dcl_ok_memsize d Hdok) as (Hm & Hm0 & _).
  split.
  { apply in_flat_map. exists h. split; [assumption|].
    unfold hit_frames. right. now apply in_map. }
  rewrite zlen_dcl_wire, <- Hm in Hlt, Hmax. rewrite zlen_dcl_wire, <- Hm.
  assert (Hpos : (th_N th >? 0) = true).
  { rewrite HN, Hu. unfold zlen. cbn [length]. apply Z.gtb_lt. lia. }
  pose proof (hit_wire_min h0) as Hmin.
  unfold tophits_buffer_size.
  change (MPI_Pack_size 3 MPI_LONG_LONG_INT comm) with (Some 24).
  rewrite Hpos, El, Hu. cbn [hd].
  unfold bind at 1. unfold bind at 1.
  rewrite (p7_hit_MPIPackSize_exact h0 comm) by lia. cbn [size_of]. unfold ret at 1.
  unfold bind at 1. rewrite (p7_dcl_MPIPackSize_value d comm) by lia.
  cbn [size_of]. unfold ret, bind.
  eexists. split; [reflexivity|].
  repeat match goal with
         | |- context [if ?a >? ?b then _ else _] => destruct (Z.gtb_spec a b)
         end; lia.
Qed.

Lemma grow_buffer_size (n : Z) (w w' : world) :
  grow_buffer n w = (inr tt, w') -> nalloc w' = n \/ nalloc w' = nalloc w.
Proof.
  unfold grow_buffer. destruct (is_null (buf w) || (n >? nalloc w)).
  - unfold bind, ESL_RALLOC, modify.
    destruct (heap_alloc n (heap w)) as [[|] h]; [|discriminate].
    intros E. inversion E. left. reflexivity.
  - intros E. inversion E. right. reflexivity.
Qed.

(** What follows the sizing block of p7_tophits_MPISend fails with eslESYS
    or not at all. *)
Lemma tophits_send_status (e : abort) (th : P7_TOPHITS) (n dest tag : Z)
    (comm : MPI_Comm) :
  e <> Throw eslESYS ->
  never_throws e
    (_ <- pack_buf (MPI_Pack [th_N th] 1 MPI_LONG_LONG_INT n comm ;;;
                    MPI_Pack [th_nreported th] 1 MPI_LONG_LONG_INT n comm ;;;
                    MPI_Pack [th_nincluded th] 1 MPI_LONG_LONG_INT n comm) 0 ;;
     MPI_Send n dest tag comm ;;;
     if th_N th =? 0 then ret tt
     else for_each (firstn (Z.to_nat (th_N th)) (th_unsrt th))
                   (fun hit => p7_hit_MPISend hit dest tag comm)).
Proof.
  intros He. apply never_throws_bind.
  { destruct e as [bad|]; [|apply pack_buf_returns].
    apply pack_buf_status.
    repeat (apply never_throws_bind; [|intros _]);
      apply MPI_Pack_only_ESYS; congruence. }
  intros _. apply never_throws_bind; [now apply MPI_Send_status|intros _].
  destruct (th_N th =? 0); [apply never_throws_ret|].
  apply never_throws_for_each. intros h. now apply p7_hit_MPISend_status.
Qed.

(** X19. The sizing pass of p7_tophits_MPISend is too small for the domain
    it sizes for. When the domain with the largest pool has a longer record
    than the first hit and the buffer is shorter than that record, as a
    buffer not yet allocated is, the call fails with eslESYS, although no
    allocation fails and whatever the link does: the size it asks for is
    less than that domain's record. *)
Theorem largest_domain_defeats_sizing :
  forall (th : P7_TOPHITS) (h0 : P7_HIT) (hs : list P7_HIT) (d : P7_DOMAIN)
         (dest tag : Z) (comm : MPI_Comm) (w : world),
    th_ok th = true -> th_unsrt th = h0 :: hs ->
    snd (largest_pool th) = Some d ->
    zlen (hit_wire h0) < zlen (dcl_wire d) -> zlen (dcl_wire d) <= INT_MAX ->
    buffer_ok w -> nalloc w < zlen (dcl_wire d) -> no_fault (heap w) ->
    exists w', p7_tophits_MPISend th dest tag comm w = (inl (Throw eslESYS), w').
Proof.
  intros th h0 hs d dest tag comm w Hok Hu El Hlt Hmax Hw Hsmall Hh.
  destruct (tophits_buffer_size_short th comm w h0 hs d Hok Hu El Hlt Hmax)
    as (Hin & n & Es & Hn).
  destruct (grow_buffer_ok n w Hw Hh ltac:(lia))
    as (w1 & l & Eg & Hb1 & Hl1 & _).
  assert (Hw1 : buffer_ok w1) by (unfold buffer_ok; rewrite Hb1; exact Hl1).
  assert (Hn1 : nalloc w1 < zlen (dcl_wire d))
    by (destruct (grow_buffer_size n w w1 Eg) as [-> | ->]; lia).
  unfold p7_tophits_MPISend, bind at 1. rewrite Es. unfold bind at 1. rewrite Eg.
  match goal with |- exists w', ?m w1 = _ => destruct (m w1) as [[e|[]] w'] eqn:Er end.
  - exists w'. f_equal. f_equal.
    destruct (abort_cases e) as [->|[->|[H1 H2]]]; [reflexivity|exfalso|exfalso].
    + apply (tophits_send_status (Throw eslEMEM) th n dest tag comm ltac:(discriminate) w1).
      rewrite Er. reflexivity.
    + apply (tophits_send_status e th n dest tag comm H1 w1). rewrite Er. reflexivity.
  - exfalso.
    destruct (tophits_send_fitted th n dest tag comm w1 w' Hok Hw1 Er) as (Hf & _).
    rewrite Forall_forall in Hf. specialize (Hf _ Hin). lia.
Qed.

Lemma largest_domain_defeats_sizing_witness :
  exists w', p7_tophits_MPISend one_hit 3 7 tt fresh_world = (inl (Throw eslESYS), w').
Proof.
  assert (H1 : th_ok one_hit = true) by (vm_compute; reflexivity).
  assert (H2 : snd (largest_pool one_hit) = Some sample_dcl) by (vm_compute; reflexivity).
  assert (H3 : zlen (hit_wire sample_hit) < zlen (dcl_wire sample_dcl))
    by (vm_compute; reflexivity).
  assert (H4 : zlen (dcl_wire sample_dcl) <= INT_MAX) by (vm_compute; discriminate).
  assert (H5 : buffer_ok fresh_world) by (vm_compute; reflexivity).
  assert (H6 : nalloc fresh_world < zlen (dcl_wire sample_dcl)) by (vm_compute; reflexivity).
  exact (largest_domain_defeats_sizing one_hit sample_hit [] sample_dcl 3 7 tt fresh_world
           H1 eq_refl H2 H3 H4 H5 H6 (Forall_nil _)).
Defined.
